(** * wsh: context registry, argument resolution and plugin self-registration

    A shallow embedding of the Go sources of wsh:
    - the plugin registry ([Register], [Lookup], [Parse] and its helpers),
    - the registration grammar of [wsh args --register]
      ([parsePluginDefinition], [parseFlagsAndSubContexts],
      [parseSubContext], [parseFlag]),
    - the plugin dispatcher ([ExecutePlugin]),
    - the order of the help listings ([formatContextPath], [sortContexts],
      [sortSubContexts]),
    - the args subcommand ([HandleArgs], [handleRegister], [handleParse]) and
      the branch of [main] that runs it,
    - the plugin loader ([GetPluginDir], [FindPluginScripts], [LoadPlugins]).

    Go strings are byte strings ([string]), runes are integers ([Z]), Go maps
    are finite maps ([gmap]); a nil map and an empty map are the same finite
    map (the code only reads them, and Go reads a nil map as empty).  A
    function that mutates its receiver returns the new value instead. *)

From Stdlib Require Import ZArith String Ascii List Lia.
From stdpp Require Import gmap strings list fin_maps sorting.

Set Warnings "-register-all".
Local Open Scope string_scope.
Local Open Scope Z_scope.

(** ** The Go runtime: bytes, runes and the [strings] package *)

(** A rune is a Unicode code point, Go's [int32]. *)
Abbreviation rune := Z (only parsing).

(** [rune(b)] for a byte [b] of a string. *)
Definition rune_of_byte (c : ascii) : rune := Z.of_N (N_of_ascii c).

Definition byte_of_Z (b : Z) : ascii := ascii_of_N (Z.to_N b).

(** [utf8.RuneError], U+FFFD. *)
Definition RuneError : rune := 65533.

Definition between (lo hi b : Z) : bool := (lo <=? b) && (b <=? hi).

(** Number of bytes announced by the first byte of a UTF-8 sequence;
    [0%nat] for a byte that cannot start one. *)
Definition utf8_width (b0 : Z) : nat :=
  if b0 <? 128 then 1%nat
  else if b0 <? 194 then 0%nat
  else if b0 <? 224 then 2%nat
  else if b0 <? 240 then 3%nat
  else if b0 <? 245 then 4%nat
  else 0%nat.

(** Accepted range of the second byte, which excludes overlong forms,
    surrogates and code points above U+10FFFF. *)
Definition utf8_lo (b0 : Z) : Z :=
  if b0 =? 224 then 160 else if b0 =? 240 then 144 else 128.

Definition utf8_hi (b0 : Z) : Z :=
  if b0 =? 237 then 159 else if b0 =? 244 then 143 else 191.

Definition utf8_cont (b : Z) : bool := between 128 191 b.

(** [[]rune(s)]: UTF-8 decoding; a byte that does not start a valid
    sequence decodes to [RuneError] and is skipped alone. *)
Fixpoint runes (s : string) : list rune :=
  match s with
  | EmptyString => []
  | String c0 s1 =>
      let b0 := rune_of_byte c0 in
      match utf8_width b0, s1 with
      | 1%nat, _ => b0 :: runes s1
      | 2%nat, String c1 s2 =>
          let b1 := rune_of_byte c1 in
          if between (utf8_lo b0) (utf8_hi b0) b1
          then Z.lor (Z.shiftl (Z.land b0 31) 6) (Z.land b1 63) :: runes s2
          else RuneError :: runes s1
      | 3%nat, String c1 (String c2 s3) =>
          let b1 := rune_of_byte c1 in
          let b2 := rune_of_byte c2 in
          if between (utf8_lo b0) (utf8_hi b0) b1 && utf8_cont b2
          then Z.lor (Z.shiftl (Z.land b0 15) 12)
                 (Z.lor (Z.shiftl (Z.land b1 63) 6) (Z.land b2 63)) :: runes s3
          else RuneError :: runes s1
      | 4%nat, String c1 (String c2 (String c3 s4)) =>
          let b1 := rune_of_byte c1 in
          let b2 := rune_of_byte c2 in
          let b3 := rune_of_byte c3 in
          if between (utf8_lo b0) (utf8_hi b0) b1 && utf8_cont b2 && utf8_cont b3
          then Z.lor (Z.shiftl (Z.land b0 7) 18)
                 (Z.lor (Z.shiftl (Z.land b1 63) 12)
                    (Z.lor (Z.shiftl (Z.land b2 63) 6) (Z.land b3 63))) :: runes s4
          else RuneError :: runes s1
      | _, _ => RuneError :: runes s1
      end
  end.

(** [string(r)] for a rune [r]: its UTF-8 encoding, and the encoding of
    [RuneError] for a surrogate or a value outside Unicode. *)
Definition string_of_rune (r : rune) : string :=
  let cont x := byte_of_Z (Z.lor 128 (Z.land x 63)) in
  if between 0 127 r then String (byte_of_Z r) ""
  else if between 128 2047 r then
    String (byte_of_Z (Z.lor 192 (Z.shiftr r 6))) (String (cont r) "")
  else if (r <? 0) || (1114111 <? r) || between 55296 57343 r then
    String (byte_of_Z 239) (String (byte_of_Z 191) (String (byte_of_Z 189) ""))
  else if r <=? 65535 then
    String (byte_of_Z (Z.lor 224 (Z.shiftr r 12)))
      (String (cont (Z.shiftr r 6)) (String (cont r) ""))
  else
    String (byte_of_Z (Z.lor 240 (Z.shiftr r 18)))
      (String (cont (Z.shiftr r 12))
         (String (cont (Z.shiftr r 6)) (String (cont r) ""))).

(** [strings.HasPrefix(s, p)]. *)
Definition HasPrefix (s p : string) : bool := String.prefix p s.

(** [strings.TrimPrefix(s, p)]. *)
Definition TrimPrefix (s p : string) : string :=
  if HasPrefix s p
  then String.substring (String.length p) (String.length s - String.length p) s
  else s.

(** [s[1:]]. *)
Definition tail1 (s : string) : string :=
  match s with
  | EmptyString => EmptyString
  | String _ s' => s'
  end.

(** [s[i]] for [i < len(s)]; reading past the end panics in Go and is [None]
    here. *)
Definition byteAt (s : string) (i : nat) : option rune :=
  option_map rune_of_byte (String.get i s).

(** [len(s)], the number of bytes. *)
Definition len (s : string) : Z := Z.of_nat (String.length s).

(** [ch >= 'A' && ch <= 'Z']. *)
Definition isUpper (ch : rune) : bool := between 65 90 ch.

(** [ch >= 'a' && ch <= 'z']. *)
Definition isLower (ch : rune) : bool := between 97 122 ch.

Definition isASCII (s : string) : bool :=
  forallb (fun c => rune_of_byte c <? 128) (list_ascii_of_string s).

Definition map_bytes (f : Z -> Z) (s : string) : string :=
  string_of_list_ascii
    (List.map (fun c => byte_of_Z (f (rune_of_byte c))) (list_ascii_of_string s)).

Definition upper_byte (b : Z) : Z := if isLower b then b - 32 else b.
Definition lower_byte (b : Z) : Z := if isUpper b then b + 32 else b.

(** [strings.Map(mapping, s)]: the runes of [s] are mapped one by one and
    encoded again; a rune mapped to a negative value is dropped. *)
Definition strings_Map (mapping : rune -> rune) (s : string) : string :=
  fold_right
    (fun c acc =>
       String.append (if mapping c <? 0 then "" else string_of_rune (mapping c)) acc)
    "" (runes s).

(** ** Data model (help.go, the plugin registry) *)

(** [Flag]: [Short] is [0] when the flag has no short name, [ArgName] is
    empty when the flag takes no value. *)
Record Flag := mkFlag {
  Short : rune;
  Long : string;
  ArgName : string;
  FlagDescription : string
}.

(** [PluginContext]; the sub-context map is the recursive occurrence. *)
Inductive PluginContext := mkPluginContext {
  Context : rune;
  ContextLong : string;
  Description : string;
  Script : string;
  Flags : list Flag;
  SubContexts : gmap Z PluginContext
}.

(** [PluginRegistry]; the lock has no counterpart in a sequential model. *)
Record PluginRegistry := mkPluginRegistry {
  contexts : gmap Z PluginContext
}.

Definition NewPluginRegistry : PluginRegistry := {| contexts := ∅ |}.

(** [ParseResult]; its fields [Context] and [Flags] are [ResultContext] and
    [ResultFlags] here, the names being taken by [PluginContext]. *)
Record ParseResult := mkParseResult {
  ContextPath : list rune;
  ResultContext : option PluginContext;
  ResultFlags : gmap string string;
  Args : list string;
  ShowHelp : bool
}.

(** The errors of [Register] and [Parse], one constructor per message. *)
Inductive RegistryError :=
  | AlreadyRegistered (ch : rune) (existing rejected : string)
      (* "context -%c already registered by %s, ignoring %s" *)
  | UnknownLongFlag (name : string)       (* "unknown flag: --%s" *)
  | UnknownContext (ch : rune)            (* "unknown context: -%c" *)
  | UnknownShortFlag (ch : rune)          (* "unknown flag: -%c" *)
  | RequiresArgument (ch : rune).         (* "flag -%c requires an argument" *)

(** A Go result pair [(value, error)] of which exactly one is set. *)
Inductive Result (E A : Type) :=
  | Ok (a : A)
  | Err (e : E).
Arguments Ok {E A} a.
Arguments Err {E A} e.

(** ** Register and Lookup *)

(** [Register] (help.go, l. 209-226): the registry after the call and the
    returned error. *)
Definition Register (r : PluginRegistry) (ctx : PluginContext)
  : PluginRegistry * option RegistryError :=
  match contexts r !! Context ctx with
  | Some existing =>
      if String.eqb (Script existing) (Script ctx) then (r, None)
      else (r, Some (AlreadyRegistered (Context ctx) (Script existing) (Script ctx)))
  | None => ({| contexts := <[Context ctx := ctx]> (contexts r) |}, None)
  end.

(** The loop of [Lookup] over [contextPath[1:]]. *)
Fixpoint Lookup_walk (ctx : PluginContext) (path : list rune) : option PluginContext :=
  match path with
  | [] => Some ctx
  | ch :: rest =>
      match SubContexts ctx !! ch with
      | Some subCtx => Lookup_walk subCtx rest
      | None => None
      end
  end.

(** [Lookup] (help.go, l. 230-257): [None] is Go's nil. *)
Definition Lookup (r : PluginRegistry) (contextPath : list rune) : option PluginContext :=
  match contextPath with
  | [] => None
  | ch :: rest =>
      match contexts r !! ch with
      | Some ctx => Lookup_walk ctx rest
      | None => None
      end
  end.

(** ** Parse *)

Definition emptyResult : ParseResult :=
  {| ContextPath := []; ResultContext := None; ResultFlags := ∅;
     Args := []; ShowHelp := false |}.

Definition setShowHelp (res : ParseResult) : ParseResult :=
  {| ContextPath := ContextPath res; ResultContext := ResultContext res;
     ResultFlags := ResultFlags res; Args := Args res; ShowHelp := true |}.

Definition setFlag (key value : string) (res : ParseResult) : ParseResult :=
  {| ContextPath := ContextPath res; ResultContext := ResultContext res;
     ResultFlags := <[key := value]> (ResultFlags res); Args := Args res;
     ShowHelp := ShowHelp res |}.

Definition appendArg (arg : string) (res : ParseResult) : ParseResult :=
  {| ContextPath := ContextPath res; ResultContext := ResultContext res;
     ResultFlags := ResultFlags res; Args := Args res ++ [arg];
     ShowHelp := ShowHelp res |}.

Definition setContext (path : list rune) (ctx : PluginContext) (res : ParseResult)
  : ParseResult :=
  {| ContextPath := path; ResultContext := Some ctx;
     ResultFlags := ResultFlags res; Args := Args res; ShowHelp := ShowHelp res |}.

(** [findFlagInContext]: the first flag whose short name is [ch]. *)
Fixpoint findFlag (ch : rune) (flags : list Flag) : option Flag :=
  match flags with
  | [] => None
  | flag :: rest => if Short flag =? ch then Some flag else findFlag ch rest
  end.

Definition findFlagInContext (ch : rune) (ctx : option PluginContext) : option Flag :=
  match ctx with
  | None => None
  | Some c => findFlag ch (Flags c)
  end.

(** The first flag whose long name is [flagName], as the loop of
    [matchLongFlag] meets it. *)
Fixpoint findLongFlag (flagName : string) (flags : list Flag) : option Flag :=
  match flags with
  | [] => None
  | flag :: rest =>
      if String.eqb (Long flag) flagName then Some flag else findLongFlag flagName rest
  end.

(** [matchLongFlag]: [next] is [args[i+1]] when [i+1 < len(args)].  The Go
    function returns [(matched, nextI)] and updates [result] in place; here
    [None] is [(false, i)], and [Some (result', consumed)] is [(true, i+2)]
    when [consumed] and [(true, i+1)] otherwise. *)
Definition matchLongFlag (flagName : string) (ctx : option PluginContext)
    (result : ParseResult) (next : option string) : option (ParseResult * bool) :=
  match ctx with
  | None => None
  | Some c =>
      match findLongFlag flagName (Flags c) with
      | Some flag =>
          if negb (String.eqb (ArgName flag) "") then
            match next with
            | Some value => Some (setFlag (Long flag) value result, true)
            | None => None
            end
          else Some (setFlag (Long flag) "true" result, false)
      | None => None
      end
  end.

(** The default of the cursor to the shell context ['S'], done before a flag
    is looked up while no context is set. *)
Definition defaultToShell (r : PluginRegistry) (currentCtx : option PluginContext)
    (result : ParseResult) : option PluginContext * ParseResult :=
  match currentCtx with
  | Some _ => (currentCtx, result)
  | None =>
      match Lookup r [83] with
      | Some s => (Some s, setContext (ContextPath result) s result)
      | None => (None, result)
      end
  end.

(** The key under which a flag's value is stored. *)
Definition flagKey (flag : Flag) : string :=
  if String.eqb (Long flag) "" then string_of_rune (Short flag) else Long flag.

(** [currentCtx.SubContexts[ch]] under the guard
    [currentCtx != nil && currentCtx.SubContexts != nil]. *)
Definition subContextOf (currentCtx : option PluginContext) (ch : rune)
  : option PluginContext :=
  match currentCtx with
  | Some c => SubContexts c !! ch
  | None => None
  end.

(** The inner loop of [Parse] (help.go, l. 344-418): the characters of a
    short-flag cluster, [flags[flagIdx:]], scanned from the state
    [(currentCtx, result)].  [next] is [args[i+1]] when there is one.  The
    outcome carries the state after the token and whether the next token was
    consumed as a value ([i++] before [break]). *)
Fixpoint parseCluster (r : PluginRegistry) (flags : list rune) (next : option string)
    (currentCtx : option PluginContext) (result : ParseResult)
  : Result RegistryError (option PluginContext * ParseResult * bool) :=
  match flags with
  | [] => Ok (currentCtx, result, false)
  | ch :: rest =>
      if ch =? 104 then parseCluster r rest next currentCtx (setShowHelp result)
      else if isUpper ch then
        match subContextOf currentCtx ch with
        | Some subCtx =>
            parseCluster r rest next (Some subCtx)
              (setContext (ContextPath result ++ [ch]) subCtx result)
        | None =>
            match Lookup r [ch] with
            | Some ctx => parseCluster r rest next (Some ctx) (setContext [ch] ctx result)
            | None => Err (UnknownContext ch)
            end
        end
      else
        let '(currentCtx, result) := defaultToShell r currentCtx result in
        match findFlagInContext ch currentCtx with
        | None => Err (UnknownShortFlag ch)
        | Some flag =>
            if negb (String.eqb (ArgName flag) "") then
              match rest with
              | _ :: _ => Err (RequiresArgument ch)
              | [] =>
                  match next with
                  | Some value => Ok (currentCtx, setFlag (flagKey flag) value result, true)
                  | None => Err (RequiresArgument ch)
                  end
              end
            else parseCluster r rest next currentCtx (setFlag (flagKey flag) "true" result)
        end
  end.

(** The argument list after a token whose value, when [consumed], was the
    token that follows it. *)
Definition advance (consumed : bool) (rest : list string) : list string :=
  if consumed then match rest with [] => rest | _ :: rest' => rest' end else rest.

Section MapIteration.

(** The order in which a [for ... range] statement visits a map.  Go leaves it
    unspecified; the model takes it as a parameter. *)
Variable range : gmap Z PluginContext -> list (Z * PluginContext).

(** [GetAllContexts]. *)
Definition GetAllContexts (r : PluginRegistry) : list PluginContext :=
  (range (contexts r)).*2.

(** The first context of [ctxs] whose long name is [longName]. *)
Fixpoint firstByLong (longName : string) (ctxs : list (Z * PluginContext))
  : option PluginContext :=
  match ctxs with
  | [] => None
  | (_, ctx) :: rest =>
      if String.eqb (ContextLong ctx) longName then Some ctx
      else firstByLong longName rest
  end.

(** [findContextByLong]. *)
Definition findContextByLong (r : PluginRegistry) (longName : string)
    (currentCtx : option PluginContext) : option PluginContext :=
  match
    match currentCtx with
    | Some c => firstByLong longName (range (SubContexts c))
    | None => None
    end
  with
  | Some subCtx => Some subCtx
  | None => firstByLong longName (range (contexts r))
  end.

(** The main loop of [Parse] (help.go, l. 297-426) over [args[i:]], from the
    state [(currentCtx, result)]. *)
Fixpoint parseArgs (r : PluginRegistry) (args : list string)
    (currentCtx : option PluginContext) (result : ParseResult)
  : Result RegistryError ParseResult :=
  match args with
  | [] => Ok result
  | arg :: rest =>
      if HasPrefix arg "--" then
        let flagName := TrimPrefix arg "--" in
        if String.eqb flagName "help" then parseArgs r rest currentCtx (setShowHelp result)
        else
          let '(currentCtx, result) := defaultToShell r currentCtx result in
          match matchLongFlag flagName currentCtx result (head rest) with
          | Some (result, consumed) => parseArgs r (advance consumed rest) currentCtx result
          | None =>
              match findContextByLong r flagName currentCtx with
              | Some ctx =>
                  parseArgs r rest (Some ctx)
                    (setContext (ContextPath result ++ [Context ctx]) ctx result)
              | None => Err (UnknownLongFlag flagName)
              end
          end
      else if HasPrefix arg "-" && (1 <? len arg) then
        match parseCluster r (runes (tail1 arg)) (head rest) currentCtx result with
        | Ok (currentCtx, result, consumed) =>
            parseArgs r (advance consumed rest) currentCtx result
        | Err e => Err e
        end
      else parseArgs r rest currentCtx (appendArg arg result)
  end.

(** [Parse]. *)
Definition Parse (r : PluginRegistry) (args : list string)
  : Result RegistryError ParseResult :=
  parseArgs r args None emptyResult.

End MapIteration.

(** ** The registration grammar (args.go) *)

(** The errors of the registration parser, one constructor per message.
    [IndexOutOfRange] is the run-time panic of an index past the end, and
    [LoopBound] is returned by no Go code: it marks the exhaustion of the
    bound that the model gives to the two [for] loops, and is proved below
    never to be returned. *)
Inductive DefinitionError :=
  | NeedAtLeast                          (* "need at least: --name ..." *)
  | ContextShortNotCapital (ch : rune)   (* "context short flag must be a capital letter, got: -%c" *)
  | MissingDescriptionAfter (a0 a1 : string) (* "missing description after %s %s" *)
  | ExpectedContextFlag (arg : string)   (* "expected context flag (e.g., -T or --time), got: %s" *)
  | MustSpecifyShortOrLong               (* "must specify at least one of short (-X) or long (--name) context flag" *)
  | InSubContext (e : DefinitionError)   (* "error parsing sub-context: %w" *)
  | InFlag (e : DefinitionError)         (* "error parsing flag: %w" *)
  | SubContextNeedsAtLeast               (* "sub-context needs at least: -X --name ..." *)
  | ExpectedLongForSubContext (arg : string) (* "expected long flag for sub-context, got: %s" *)
  | FlagNeedsDescription                 (* "flag needs at least description" *)
  | FlagNeedsName                        (* "flag must have at least short or long name" *)
  | FlagMissingDescription               (* "flag missing description" *)
  | IndexOutOfRange
  | LoopBound.

(** [strings.HasPrefix(arg, "-") && len(arg) == 2] with [arg[1]] in
    ['A'..'Z']: the token that opens a sub-context. *)
Definition isContextToken (arg : string) : bool :=
  HasPrefix arg "-" && (len arg =? 2) &&
  match byteAt arg 1 with
  | Some ch => isUpper ch
  | None => false
  end.

(** [remainingArgs] of [parseFlag]: the tokens in front of [args] that do not
    start with a dash. *)
Fixpoint countNonFlag (args : list string) : nat :=
  match args with
  | [] => 0%nat
  | a :: rest => if HasPrefix a "-" then 0%nat else S (countNonFlag rest)
  end.

(** [parseFlag]: the flag and the number of tokens consumed. *)
Definition parseFlag (args : list string) : Result DefinitionError (Flag * nat) :=
  match args with
  | a0 :: _ :: _ =>
      let '(short, consumed) :=
        match byteAt a0 1 with
        | Some ch =>
            if HasPrefix a0 "-" && (len a0 =? 2) && isLower ch
            then (ch, 1%nat) else (0, 0%nat)
        | None => (0, 0%nat)
        end in
      let '(long, consumed) :=
        match args !! consumed with
        | Some a =>
            if HasPrefix a "--" then (TrimPrefix a "--", S consumed) else ("", consumed)
        | None => ("", consumed)
        end in
      if (short =? 0) && String.eqb long "" then Err FlagNeedsName
      else
        match countNonFlag (drop consumed args), drop consumed args with
        | S (S _), argName :: description :: _ =>
            Ok ({| Short := short; Long := long; ArgName := argName;
                   FlagDescription := description |}, (consumed + 2)%nat)
        | 1%nat, description :: _ =>
            Ok ({| Short := short; Long := long; ArgName := "";
                   FlagDescription := description |}, (consumed + 1)%nat)
        | _, _ => Err FlagMissingDescription
        end
  | _ => Err FlagNeedsDescription
  end.

Section Registration.

(** [os.Getenv]. *)
Variable Getenv : string -> string.

(** [unicode.ToUpper] and [unicode.ToLower] on a rune above [MaxASCII], where
    Go consults the Unicode tables of its standard library. *)
Variable unicode_ToUpper : rune -> rune.
Variable unicode_ToLower : rune -> rune.

(** [unicode.ToUpper] and [unicode.ToLower] on the runes of a string. *)
Definition ToUpper_rune (c : rune) : rune :=
  if c <=? 127 then upper_byte c else unicode_ToUpper c.

Definition ToLower_rune (c : rune) : rune :=
  if c <=? 127 then lower_byte c else unicode_ToLower c.

(** [strings.ToUpper]: a string of ASCII bytes is mapped byte by byte, any
    other string rune by rune. *)
Definition strings_ToUpper (s : string) : string :=
  if isASCII s then map_bytes upper_byte s else strings_Map ToUpper_rune s.

(** [strings.ToLower]. *)
Definition strings_ToLower (s : string) : string :=
  if isASCII s then map_bytes lower_byte s else strings_Map ToLower_rune s.

(** The loop of [parseSubContext]: nested flags from [args[consumed:]] up to
    the next context token or the end. *)
Fixpoint parseSubContext_flags (bound : nat) (args : list string) (consumed : nat)
    (flags : list Flag) : Result DefinitionError (list Flag * nat) :=
  match bound with
  | O => Err LoopBound
  | S bound' =>
      match drop consumed args with
      | [] => Ok (flags, consumed)
      | arg :: _ =>
          if isContextToken arg then Ok (flags, consumed)
          else
            match parseFlag (drop consumed args) with
            | Err e => Err e
            | Ok (flag, flagConsumed) =>
                parseSubContext_flags bound' args (consumed + flagConsumed)%nat
                  (flags ++ [flag])
            end
      end
  end.

(** [parseSubContext]: the sub-context and the number of tokens consumed. *)
Definition parseSubContext (args : list string)
  : Result DefinitionError (PluginContext * nat) :=
  match args with
  | a0 :: a1 :: a2 :: _ =>
      match byteAt a0 1 with
      | None => Err IndexOutOfRange
      | Some contextShort =>
          if negb (HasPrefix a1 "--") then Err (ExpectedLongForSubContext a1)
          else
            match parseSubContext_flags (length args) args 3 [] with
            | Err e => Err e
            | Ok (flags, consumed) =>
                Ok ({| Context := contextShort;
                       ContextLong := TrimPrefix a1 "--";
                       Description := a2;
                       Script := Getenv "WSH_PLUGIN_SCRIPT";
                       Flags := flags;
                       SubContexts := ∅ |}, consumed)
            end
      end
  | _ => Err SubContextNeedsAtLeast
  end.

(** The loop of [parseFlagsAndSubContexts] over [args[i:]]. *)
Fixpoint parseFlagsAndSubContexts_loop (bound : nat) (args : list string)
    (flags : list Flag) (subContexts : gmap Z PluginContext)
  : Result DefinitionError (list Flag * gmap Z PluginContext) :=
  match bound with
  | O => Err LoopBound
  | S bound' =>
      match args with
      | [] => Ok (flags, subContexts)
      | arg :: _ =>
          if isContextToken arg then
            match parseSubContext args with
            | Err e => Err (InSubContext e)
            | Ok (subCtx, consumed) =>
                parseFlagsAndSubContexts_loop bound' (drop consumed args) flags
                  (<[Context subCtx := subCtx]> subContexts)
            end
          else
            match parseFlag args with
            | Err e => Err (InFlag e)
            | Ok (flag, consumed) =>
                parseFlagsAndSubContexts_loop bound' (drop consumed args)
                  (flags ++ [flag]) subContexts
            end
      end
  end.

(** [parseFlagsAndSubContexts]. *)
Definition parseFlagsAndSubContexts (args : list string)
  : Result DefinitionError (list Flag * gmap Z PluginContext) :=
  parseFlagsAndSubContexts_loop (S (length args)) args [] ∅.

(** The end of [parsePluginDefinition], once the header gave the short
    letter, the long name, the description and [args[flagsStart:]]. *)
Definition finishDefinition (contextShort : rune) (contextLong description : string)
    (rest : list string) : Result DefinitionError PluginContext :=
  if (contextShort =? 0) && String.eqb contextLong "" then Err MustSpecifyShortOrLong
  else
    match parseFlagsAndSubContexts rest with
    | Err e => Err e
    | Ok (flags, subContexts) =>
        Ok {| Context := contextShort;
              ContextLong := contextLong;
              Description := description;
              Script := Getenv "WSH_PLUGIN_SCRIPT";
              Flags := flags;
              SubContexts := subContexts |}
    end.

(** [parsePluginDefinition].  The two inner tests [len(args) < 2] of the Go
    function cannot hold after the first one and are left out. *)
Definition parsePluginDefinition (args : list string)
  : Result DefinitionError PluginContext :=
  match args with
  | a0 :: a1 :: rest =>
      if HasPrefix a0 "--" then
        let contextLong := TrimPrefix a0 "--" in
        if 0 <? len contextLong then
          match strings_ToUpper contextLong with
          | String c _ => finishDefinition (rune_of_byte c) contextLong a1 rest
          | EmptyString => Err IndexOutOfRange
          end
        else finishDefinition 0 contextLong a1 rest
      else if HasPrefix a0 "-" && (len a0 =? 2) then
        match byteAt a0 1 with
        | None => Err IndexOutOfRange
        | Some contextShort =>
            if (contextShort <? 65) || (90 <? contextShort)
            then Err (ContextShortNotCapital contextShort)
            else if HasPrefix a1 "--" then
              match rest with
              | a2 :: rest' => finishDefinition contextShort (TrimPrefix a1 "--") a2 rest'
              | [] => Err (MissingDescriptionAfter a0 a1)
              end
            else
              finishDefinition contextShort
                (strings_ToLower (string_of_rune contextShort)) a1 rest
        end
      else Err (ExpectedContextFlag a0)
  | _ => Err NeedAtLeast
  end.

End Registration.

(** ** The dispatcher (unnamed/part_000) *)

(** What [cmd.Run] returns: nil, an [*exec.ExitError] with the code that
    [ExitCode] reports, or another error (the process did not start). *)
Inductive RunOutcome :=
  | RunNil
  | RunExitError (code : Z)
  | RunOtherError.

(** The operating system as [ExecutePlugin] sees it: whether [os.Stat]
    succeeds on a path, and the outcome of running a script on its arguments
    with the flags added to the environment. *)
Record OS := mkOS {
  Stat : string -> bool;
  Run : string -> list string -> gmap string string -> RunOutcome
}.

(** [ExecutePlugin]: the exit code it returns.  The messages that it prints
    are left out, and so is the way the environment is put together. *)
Definition ExecutePlugin (os : OS) (ctx : PluginContext) (flags : gmap string string)
    (args : list string) : Z :=
  if String.eqb (Script ctx) "" then 1
  else if negb (Stat os (Script ctx)) then 1
  else
    match Run os (Script ctx) args flags with
    | RunNil => 0
    | RunExitError code => code
    | RunOtherError => 1
    end.

(** ** Help rendering (help.go) *)

(** [formatContextPath] (l. 131-137): [WriteRune] appends the UTF-8 encoding
    of each rune of the path. *)
Definition formatContextPath (path : list rune) : string :=
  fold_right (fun r acc => String.append (string_of_rune r) acc) "" path.

(** The inner loop of [sortContexts] (l. 149-153), started at [j = j1 - 1]:
    while [j >= 0] and [sorted[j].Context > key.Context] the element at [j]
    is copied to [j+1]; then [key] is stored at [j+1].  An index past the end
    panics in Go and leaves the slice as it is here. *)
Fixpoint sortContexts_shift (sorted : list PluginContext) (key : PluginContext)
    (j1 : nat) : list PluginContext :=
  match j1 with
  | O => <[O := key]> sorted
  | S j =>
      match sorted !! j with
      | Some x =>
          if Context key <? Context x
          then sortContexts_shift (<[S j := x]> sorted) key j
          else <[S j := key]> sorted
      | None => sorted
      end
  end.

(** The outer loop of [sortContexts] (l. 146-154) from the index [i], with
    [n] iterations left. *)
Fixpoint sortContexts_loop (n i : nat) (sorted : list PluginContext)
  : list PluginContext :=
  match n with
  | O => sorted
  | S n' =>
      match sorted !! i with
      | Some key => sortContexts_loop n' (S i) (sortContexts_shift sorted key i)
      | None => sorted
      end
  end.

(** [sortContexts] (l. 140-157): the loop runs for [i = 1 .. len-1] over a
    copy of the argument. *)
Definition sortContexts (contexts : list PluginContext) : list PluginContext :=
  sortContexts_loop (length contexts - 1) 1 contexts.

(** [sortSubContexts] (l. 160-168); [range] is the order in which the map is
    visited. *)
Definition sortSubContexts (range : gmap Z PluginContext -> list (Z * PluginContext))
    (subContexts : gmap Z PluginContext) : list PluginContext :=
  sortContexts (range subContexts).*2.

(** ** The args subcommand (args.go) *)

(** [strings.Join(elems, sep)]. *)
Fixpoint strings_Join (elems : list string) (sep : string) : string :=
  match elems with
  | [] => ""
  | [e] => e
  | e :: rest => String.append e (String.append sep (strings_Join rest sep))
  end.

(** What the subcommand writes to its standard output: nothing, the context
    of a registration as one line of JSON, or the lines of a parse. *)
Inductive ArgsOutput :=
  | NoOutput
  | ContextJSON (ctx : PluginContext)
  | EnvLines (lines : list string).

Section ArgsCommand.

Variable range : gmap Z PluginContext -> list (Z * PluginContext).

(** The order in which [for key, value := range result.Flags] visits the
    flags of a result. *)
Variable rangeFlags : gmap string string -> list (string * string).

Variable Getenv : string -> string.
Variable unicode_ToUpper : rune -> rune.
Variable unicode_ToLower : rune -> rune.

(** [handleRegister] (l. 44-74): the registry after the call, the standard
    output and the exit code.  [json.Marshal] does not fail on a context
    that [parsePluginDefinition] built (strings, integers, a slice and a map
    with integer keys, two levels deep), so that branch is left out, and so
    are the messages on the standard error. *)
Definition handleRegister (registry : PluginRegistry) (args : list string)
  : PluginRegistry * ArgsOutput * Z :=
  if (length args <? 3)%nat then (registry, NoOutput, 1)
  else
    match parsePluginDefinition Getenv unicode_ToUpper unicode_ToLower args with
    | Err _ => (registry, NoOutput, 1)
    | Ok ctx => ((Register registry ctx).1, ContextJSON ctx, 0)
    end.

(** [handleParse] (l. 298-316): one line [key=value] for each flag, then the
    line [WSH_ARGS=...] when positional arguments are left. *)
Definition handleParse (registry : PluginRegistry) (args : list string)
  : PluginRegistry * ArgsOutput * Z :=
  match Parse range registry args with
  | Err _ => (registry, NoOutput, 1)
  | Ok result =>
      (registry,
       EnvLines
         (List.map (fun kv => String.append (fst kv) (String.append "=" (snd kv)))
            (rangeFlags (ResultFlags result)) ++
          (if (0 <? length (Args result))%nat
           then [String.append "WSH_ARGS=" (strings_Join (Args result) " ")]
           else [])),
       0)
  end.

(** [HandleArgs] (l. 27-40). *)
Definition HandleArgs (registry : PluginRegistry) (args : list string)
  : PluginRegistry * ArgsOutput * Z :=
  match args with
  | [] => (registry, NoOutput, 1)
  | arg0 :: rest =>
      if String.eqb arg0 "--register" then handleRegister registry rest
      else handleParse registry args
  end.

End ArgsCommand.

(** ** The plugin loader (plugin_loader.go) *)

(** [GetPluginDir] (l. 17-23). *)
Definition GetPluginDir (Getenv : string -> string) : string :=
  if negb (String.eqb (Getenv "WSH_PLUGIN_DIR") "") then Getenv "WSH_PLUGIN_DIR"
  else "./plugins".

(** What [os.Stat] says of the plugin directory. *)
Inductive StatResult :=
  | StatNotExist                 (* an error for which [os.IsNotExist] holds *)
  | StatFailed                   (* any other error *)
  | StatInfo (isDir : bool).

(** An entry of a directory: its name, whether it is a directory, and the
    mode bits that [Info] reports, [None] when [Info] fails. *)
Record DirEntry := mkDirEntry {
  EntryName : string;
  EntryIsDir : bool;
  EntryMode : option Z
}.

(** The file system as the loader sees it, with [filepath.Join] and
    [filepath.Base]. *)
Record FileSystem := mkFileSystem {
  StatDir : string -> StatResult;
  ReadDir : string -> option (list DirEntry);
  Join : string -> string -> string;
  Base : string -> string
}.

(** The errors of [executePlugin], one constructor per message. *)
Inductive ExecError :=
  | TimedOut          (* "plugin execution timed out after %v" *)
  | ExecutionFailed   (* "plugin execution failed: %w" *)
  | BadOutput.        (* "failed to parse plugin output: %w" *)

(** The errors of the loader; [NameIndexOutOfRange] is the panic of
    [entry.Name()[0]] on an empty name. *)
Inductive LoaderError :=
  | AccessError                       (* "error accessing plugin directory: %w" *)
  | NotADirectory (dir : string)      (* "%s is not a directory" *)
  | ReadError                         (* "error reading plugin directory: %w" *)
  | NameIndexOutOfRange
  | FindError (e : LoaderError)       (* "error finding plugins: %w" *)
  | PluginError (base : string) (e : ExecError).  (* "plugin %s: %w" *)

(** The loop of [FindPluginScripts] (l. 48-67) over the entries that are
    left, with the scripts found so far. *)
Fixpoint scanEntries (fs : FileSystem) (dir : string) (entries : list DirEntry)
    (scripts : list string) : Result LoaderError (list string) :=
  match entries with
  | [] => Ok scripts
  | entry :: rest =>
      if EntryIsDir entry then scanEntries fs dir rest scripts
      else
        match byteAt (EntryName entry) 0 with
        | None => Err NameIndexOutOfRange
        | Some b =>
            if b =? 46 then scanEntries fs dir rest scripts
            else
              match EntryMode entry with
              | None => scanEntries fs dir rest scripts
              | Some mode =>
                  if negb (Z.land mode 73 =? 0)
                  then scanEntries fs dir rest
                         (scripts ++ [Join fs dir (EntryName entry)])
                  else scanEntries fs dir rest scripts
              end
        end
  end.

(** [FindPluginScripts] (l. 26-70); [0111] is 73. *)
Definition FindPluginScripts (fs : FileSystem) (dir : string)
  : Result LoaderError (list string) :=
  match StatDir fs dir with
  | StatNotExist => Ok []
  | StatFailed => Err AccessError
  | StatInfo false => Err (NotADirectory dir)
  | StatInfo true =>
      match ReadDir fs dir with
      | None => Err ReadError
      | Some entries => scanEntries fs dir entries []
      end
  end.

(** The loop of [LoadPlugins] over [ctxChan] (l. 115-120): every context is
    registered, and the error of [Register] is only printed. *)
Definition registerAll (registry : PluginRegistry) (ctxs : list PluginContext)
  : PluginRegistry :=
  fold_left (fun r ctx => (Register r ctx).1) ctxs registry.

Section Loader.

Variable Getenv : string -> string.
Variable fs : FileSystem.

(** [executePlugin] on a script: the context that the script printed, or
    the error (it returns a context whenever it returns no error).  It runs
    the script with a timeout and decodes its output; the model takes the
    outcome as given. *)
Variable executePlugin : string -> Result ExecError PluginContext.

(** The order in which the goroutines, one per script, send their outcome:
    the scheduler decides it.  The two channels are buffered for all the
    scripts, so that no send blocks, and they are read once all the
    goroutines are done. *)
Variable arrival : list (string * Result ExecError PluginContext)
                   -> list (string * Result ExecError PluginContext).

(** What was sent on [ctxChan] and on [errChan], in the order of arrival. *)
Definition sentContexts (outcomes : list (string * Result ExecError PluginContext))
  : list PluginContext :=
  omap (fun so => match snd so with Ok ctx => Some ctx | Err _ => None end) outcomes.

Definition sentErrors (outcomes : list (string * Result ExecError PluginContext))
  : list LoaderError :=
  omap (fun so => match snd so with
                  | Ok _ => None
                  | Err e => Some (PluginError (Base fs (fst so)) e)
                  end) outcomes.

(** [LoadPlugins] (l. 74-134): the registry after the call and the error
    returned. *)
Definition LoadPlugins (registry : PluginRegistry)
  : PluginRegistry * option LoaderError :=
  match FindPluginScripts fs (GetPluginDir Getenv) with
  | Err e => (registry, Some (FindError e))
  | Ok [] => (registry, None)
  | Ok scripts =>
      let outcomes := arrival (List.map (fun s => (s, executePlugin s)) scripts) in
      (registerAll registry (sentContexts outcomes), head (sentErrors outcomes))
  end.

End Loader.

(** ** The entry point (unnamed/part_001, main.go) *)

(** The branch of [main] for [wsh args ...] (l. 170-176 of the part): the
    subcommand runs on a registry of its own, which is new; [args] is
    [os.Args[2:]], and the exit code is the last component. *)
Definition wshArgs (range : gmap Z PluginContext -> list (Z * PluginContext))
    (rangeFlags : gmap string string -> list (string * string))
    (Getenv : string -> string) (unicode_ToUpper unicode_ToLower : rune -> rune)
    (args : list string) : PluginRegistry * ArgsOutput * Z :=
  HandleArgs range rangeFlags Getenv unicode_ToUpper unicode_ToLower
    NewPluginRegistry args.

(** ** Specification-side notions *)

(** The walk that the specification describes for [Lookup]: the first letter
    through the roots, every later letter through the sub-context map of the
    node reached so far. *)
Inductive resolves (r : PluginRegistry) : list rune -> PluginContext -> Prop :=
  | resolves_root ch ctx :
      contexts r !! ch = Some ctx -> resolves r [ch] ctx
  | resolves_sub path ctx ch subCtx :
      resolves r path ctx -> SubContexts ctx !! ch = Some subCtx ->
      resolves r (path ++ [ch]) subCtx.

(** The branch of [parseCluster] for a character that is neither ['h'] nor a
    capital, once the cursor has its default: [ch] is looked up as a flag. *)
Definition flagStep (r : PluginRegistry) (ch : rune) (rest : list rune)
    (next : option string)
    (currentCtx : option PluginContext) (result : ParseResult)
  : Result RegistryError (option PluginContext * ParseResult * bool) :=
  match findFlagInContext ch currentCtx with
  | None => Err (UnknownShortFlag ch)
  | Some flag =>
      if negb (String.eqb (ArgName flag) "") then
        match rest with
        | _ :: _ => Err (RequiresArgument ch)
        | [] =>
            match next with
            | Some value => Ok (currentCtx, setFlag (flagKey flag) value result, true)
            | None => Err (RequiresArgument ch)
            end
        end
      else parseCluster r rest next currentCtx (setFlag (flagKey flag) "true" result)
  end.

(** A map of sub-contexts in which every node is bound to its own letter, a
    capital, and has no sub-contexts of its own. *)
Definition leaves (subContexts : gmap Z PluginContext) : Prop :=
  forall k subCtx, subContexts !! k = Some subCtx ->
    Context subCtx = k /\ isUpper k = true /\ SubContexts subCtx = ∅.

(** A token that [Parse] scans as a short-flag cluster. *)
Definition isClusterToken (arg : string) : bool :=
  negb (HasPrefix arg "--") && HasPrefix arg "-" && (1 <? len arg).

(** What [Parse] does with the outcome of a cluster: it stops on an error and
    otherwise goes on with the tokens that are left. *)
Definition afterCluster (range : gmap Z PluginContext -> list (Z * PluginContext))
    (r : PluginRegistry) (rest : list string)
    (outcome : Result RegistryError (option PluginContext * ParseResult * bool))
  : Result RegistryError ParseResult :=
  match outcome with
  | Ok (currentCtx, result, consumed) =>
      parseArgs range r (advance consumed rest) currentCtx result
  | Err e => Err e
  end.

(** A map iteration visits every entry once, in some order. *)
Definition range_visits_all (range : gmap Z PluginContext -> list (Z * PluginContext))
  : Prop :=
  forall m, range m ≡ₚ map_to_list m.

(** The number of entries of a registry under one letter. *)
Definition boundTo (r : PluginRegistry) (ch : rune) : nat :=
  length (List.filter (fun kv => fst kv =? ch) (map_to_list (contexts r))).

(** ** Fixtures: the contexts of the repository's tests *)

Definition offlineFlag : Flag :=
  {| Short := 111; Long := "offline"; ArgName := ""; FlagDescription := "Offline mode" |}.

Definition fromFlag : Flag :=
  {| Short := 102; Long := "from"; ArgName := "days"; FlagDescription := "Days ago" |}.

Definition startFlag : Flag :=
  {| Short := 115; Long := "start"; ArgName := "time"; FlagDescription := "Start time" |}.

Definition overtimeCtx : PluginContext :=
  {| Context := 79; ContextLong := "overtime"; Description := "Overtime calculations";
     Script := "./plugins/time.sh"; Flags := [startFlag]; SubContexts := ∅ |}.

Definition timeCtx : PluginContext :=
  {| Context := 84; ContextLong := "time"; Description := "Time tracking";
     Script := "./plugins/time.sh"; Flags := [offlineFlag; fromFlag];
     SubContexts := {[ 79 := overtimeCtx ]} |}.

(** A second plugin that claims the letter of [timeCtx]. *)
Definition testCtx : PluginContext :=
  {| Context := 84; ContextLong := "test"; Description := "";
     Script := "./plugins/test.sh"; Flags := []; SubContexts := ∅ |}.

Definition timeRegistry : PluginRegistry := fst (Register NewPluginRegistry timeCtx).

(** A context in which an earlier flag takes the short name of [offlineFlag]. *)
Definition otherFlag : Flag :=
  {| Short := 111; Long := "other"; ArgName := ""; FlagDescription := "Other mode" |}.

Definition shadowedCtx : PluginContext :=
  {| Context := 84; ContextLong := "time"; Description := "Time tracking";
     Script := "./plugins/time.sh"; Flags := [otherFlag; offlineFlag; fromFlag];
     SubContexts := ∅ |}.

Definition shadowedRegistry : PluginRegistry :=
  fst (Register NewPluginRegistry shadowedCtx).

(** A context with a value-requiring flag of long name ["help"], as
    [--help topic "Help on a topic"] registers it. *)
Definition topicFlag : Flag :=
  {| Short := 0; Long := "help"; ArgName := "topic";
     FlagDescription := "Help on a topic" |}.

Definition manualCtx : PluginContext :=
  {| Context := 77; ContextLong := "manual"; Description := "Manual pages";
     Script := "./plugins/manual.sh"; Flags := [topicFlag]; SubContexts := ∅ |}.

Definition manualRegistry : PluginRegistry :=
  fst (Register NewPluginRegistry manualCtx).

(** The built-in context of [RegisterArgsPlugin], which has no script. *)
Definition argsCtx : PluginContext :=
  {| Context := 65; ContextLong := "args"; Description := "Argument parser operations";
     Script := "";
     Flags := [{| Short := 114; Long := "register"; ArgName := "";
                  FlagDescription := "Register plugin flags" |}];
     SubContexts := ∅ |}.

(** A system in which every script exists and exits with the code 1. *)
Definition exitOneOS : OS :=
  {| Stat := fun _ => true; Run := fun _ _ _ => RunExitError 1 |}.

(** A system in which every script exists and exits with the code 42, as in
    [TestPluginExecution_NonZeroExit]. *)
Definition exit42OS : OS :=
  {| Stat := fun _ => true; Run := fun _ _ _ => RunExitError 42 |}.

(** The environment of a plugin that is being loaded, and a case table that
    leaves the runes outside ASCII as they are. *)
Definition loaderEnv (name : string) : string :=
  if String.eqb name "WSH_PLUGIN_SCRIPT" then "./plugins/time.sh" else "".

Definition noCase (c : rune) : rune := c.

(** The name [école], whose first character U+00E9 takes the two bytes 0xC3
    0xA9, and a case table with the Unicode entry U+00E9 to U+00C9. *)
Definition ecole : string := String "195" (String "169" "cole").

Definition latinUpper (c : rune) : rune := if c =? 233 then 201 else c.

(** One iteration order: by key. *)
Definition keyOrder (m : gmap Z PluginContext) : list (Z * PluginContext) :=
  map_to_list m.

(** ** Further specification-side notions *)

(** What decoding gives back for a rune that was encoded: the rune itself, or
    [RuneError] for a surrogate or a value outside Unicode. *)
Definition validRune (r : rune) : bool :=
  between 0 55295 r || between 57344 1114111 r.

Definition decoded (r : rune) : rune := if validRune r then r else RuneError.

(** The place of [key] among the elements in front of it, given from the last
    one to the first: behind every element that is not greater. *)
Fixpoint insertBehind (key : PluginContext) (before : list PluginContext)
  : list PluginContext :=
  match before with
  | [] => [key]
  | x :: before' =>
      if Context key <? Context x then x :: insertBehind key before'
      else key :: x :: before'
  end.

(** Insertion sort as a function: the elements of [todo] are put one by one
    in their place among the elements [done], which are given from the last
    to the first. *)
Fixpoint sortFrom (done todo : list PluginContext) : list PluginContext :=
  match todo with
  | [] => List.rev done
  | key :: todo' => sortFrom (insertBehind key done) todo'
  end.

(** Ascending order of the letters. *)
Definition byContext (a b : PluginContext) : Prop := Context a <= Context b.

(** Strictly ascending order of the letters. *)
Definition beforeContext (a b : PluginContext) : Prop := Context a < Context b.

(** The contexts of a list that are bound to the letter [k], in the order of
    the list. *)
Definition withContext (k : rune) (l : list PluginContext) : list PluginContext :=
  List.filter (fun c => Context c =? k) l.

(** Every entry of the map is bound to its own letter. *)
Definition wellKeyed (m : gmap Z PluginContext) : Prop :=
  forall k ctx, m !! k = Some ctx -> Context ctx = k.

(** A change of the result carried by the outcome of [Parse], and by the
    outcome of the scan of a cluster. *)
Definition onResult (f : ParseResult -> ParseResult)
    (outcome : Result RegistryError ParseResult) : Result RegistryError ParseResult :=
  match outcome with
  | Ok result => Ok (f result)
  | Err e => Err e
  end.

Definition onCluster (f : ParseResult -> ParseResult)
    (outcome : Result RegistryError (option PluginContext * ParseResult * bool))
  : Result RegistryError (option PluginContext * ParseResult * bool) :=
  match outcome with
  | Ok (currentCtx, result, consumed) => Ok (currentCtx, f result, consumed)
  | Err e => Err e
  end.

(** A token that [Parse] takes as a positional argument wherever it scans
    it: one that does not start with a dash, or the dash alone. *)
Definition isPositional (arg : string) : bool :=
  negb (HasPrefix arg "-") || String.eqb arg "-".

(** What [-Tf 7 notes.txt -o] resolves to in [timeRegistry]. *)
Definition fromSevenResult : ParseResult :=
  {| ContextPath := [84]; ResultContext := Some timeCtx;
     ResultFlags := <["offline" := "true"]> (<["from" := "7"]> ∅);
     Args := ["notes.txt"]; ShowHelp := false |}.

(** An entry of the plugin directory that counts as a plugin script: not a
    directory, a name that does not start with a dot, and a mode with one of
    the three execute bits. *)
Definition isPluginEntry (entry : DirEntry) : bool :=
  negb (EntryIsDir entry) &&
  match byteAt (EntryName entry) 0 with
  | Some b => negb (b =? 46)
  | None => false
  end &&
  match EntryMode entry with
  | Some mode => negb (Z.land mode 73 =? 0)
  | None => false
  end.

(** Every goroutine sends its outcome once: the outcomes arrive in some
    order. *)
Definition arrives_all
    (arrival : list (string * Result ExecError PluginContext)
               -> list (string * Result ExecError PluginContext)) : Prop :=
  forall outcomes, arrival outcomes ≡ₚ outcomes.

(** A plugin directory with two scripts, a hidden file, a file that is not
    executable and a directory; [filepath.Join] drops the leading [./]. *)
Definition pluginsFS : FileSystem :=
  {| StatDir := fun dir =>
       if String.eqb dir "./plugins" then StatInfo true else StatNotExist;
     ReadDir := fun _ =>
       Some [ {| EntryName := "lib"; EntryIsDir := true; EntryMode := Some 493 |};
              {| EntryName := ".hidden.sh"; EntryIsDir := false; EntryMode := Some 493 |};
              {| EntryName := "README.md"; EntryIsDir := false; EntryMode := Some 420 |};
              {| EntryName := "test.sh"; EntryIsDir := false; EntryMode := Some 493 |};
              {| EntryName := "time.sh"; EntryIsDir := false; EntryMode := Some 448 |} ];
     Join := fun _ name => String.append "plugins/" name;
     Base := fun path => TrimPrefix path "plugins/" |}.

(** The script [time.sh] registers [timeCtx]; [test.sh] runs out of time. *)
Definition runPlugins (script : string) : Result ExecError PluginContext :=
  if String.eqb script "plugins/time.sh" then Ok timeCtx else Err TimedOut.

(** An environment without [WSH_PLUGIN_DIR]. *)
Definition noEnv (name : string) : string := "".

(** The outcomes arrive in the reverse order of the scripts. *)
Definition lastFirst (outcomes : list (string * Result ExecError PluginContext))
  : list (string * Result ExecError PluginContext) :=
  List.rev outcomes.

(** ** The registration syntax, written out *)

(** The tokens [-c] and [--name]. *)
Definition shortToken (ch : rune) : string := String "-" (String (byte_of_Z ch) "").

Definition longToken (name : string) : string := String "-" (String "-" name).

(** The tokens of a flag in the documented order: [-s --long argname
    description], the names and the argument name where the flag has them. *)
Definition flagTokens (flag : Flag) : list string :=
  (if Short flag =? 0 then [] else [shortToken (Short flag)]) ++
  (if String.eqb (Long flag) "" then [] else [longToken (Long flag)]) ++
  (if String.eqb (ArgName flag) "" then [] else [ArgName flag]) ++
  [FlagDescription flag].

(** A flag that the syntax can express: a short name that is a letter
    ['a'..'z'] or none, some name, and an argument name and a description
    that do not start with a dash. *)
Definition wellFormedFlag (flag : Flag) : bool :=
  ((Short flag =? 0) || isLower (Short flag)) &&
  negb ((Short flag =? 0) && String.eqb (Long flag) "") &&
  negb (HasPrefix (ArgName flag) "-") &&
  negb (HasPrefix (FlagDescription flag) "-").

(** The tokens that follow are at their end or go on with a dash. *)
Definition startsOption (rest : list string) : bool :=
  match rest with
  | [] => true
  | a :: _ => HasPrefix a "-"
  end.

(** The tokens that follow are at their end or go on with a sub-context. *)
Definition startsContext (rest : list string) : bool :=
  match rest with
  | [] => true
  | a :: _ => isContextToken a
  end.

(** The end of [parseFlag], from the count of the tokens without dash. *)
Definition parseFlag_finish (short : rune) (long : string) (consumed : nat)
    (tail : list string) : Result DefinitionError (Flag * nat) :=
  match countNonFlag tail, tail with
  | S (S _), argName :: description :: _ =>
      Ok ({| Short := short; Long := long; ArgName := argName;
             FlagDescription := description |}, (consumed + 2)%nat)
  | 1%nat, description :: _ =>
      Ok ({| Short := short; Long := long; ArgName := "";
             FlagDescription := description |}, (consumed + 1)%nat)
  | _, _ => Err FlagMissingDescription
  end.

(** The tokens of a sub-context, and of a whole definition with its
    sub-contexts in the order [subs]. *)
Definition subContextTokens (subCtx : PluginContext) : list string :=
  [shortToken (Context subCtx); longToken (ContextLong subCtx); Description subCtx] ++
  flat_map flagTokens (Flags subCtx).

Definition definitionTokens (ctx : PluginContext) (subs : list PluginContext)
  : list string :=
  [shortToken (Context ctx); longToken (ContextLong ctx); Description ctx] ++
  flat_map flagTokens (Flags ctx) ++ flat_map subContextTokens subs.

(** A sub-context that the syntax can express, for a plugin whose script is
    [script]. *)
Definition wellFormedSub (script : string) (subCtx : PluginContext) : Prop :=
  isUpper (Context subCtx) = true /\
  Forall (fun flag => wellFormedFlag flag = true) (Flags subCtx) /\
  Script subCtx = script /\
  SubContexts subCtx = ∅.

(** The map that binds every sub-context of [subs] to its letter, the later
    ones over the earlier ones. *)
Definition bindAll (subs : list PluginContext) (subContexts : gmap Z PluginContext)
  : gmap Z PluginContext :=
  fold_left (fun m subCtx => <[Context subCtx := subCtx]> m) subs subContexts.

(** The tokens of a context with the sub-contexts that it has. *)
Definition canonicalTokens (ctx : PluginContext) : list string :=
  definitionTokens ctx (map_to_list (SubContexts ctx)).*2.

(** The flags and the sub-contexts that a definition may hold: flags that
    the syntax can express, and sub-contexts of that kind, each bound to its
    own letter. *)
Definition expressible (script : string) (flags : list Flag)
    (subContexts : gmap Z PluginContext) : Prop :=
  Forall (fun flag => wellFormedFlag flag = true) flags /\
  forall k subCtx, subContexts !! k = Some subCtx ->
    Context subCtx = k /\ wellFormedSub script subCtx.

(** A token that asks for help or is positional: a positional token,
    [--help], or a dash followed by letters [h] only. *)
Definition helpOrPositional (arg : string) : bool :=
  isPositional arg || String.eqb arg "--help" ||
  (isClusterToken arg && forallb (fun ch => ch =? 104) (runes (tail1 arg))).

(** The definition of the time plugin as its script passes it to
    [wsh args --register]. *)
Definition timeDefinition : list string :=
  ["-T"; "--time"; "Time tracking"; "-o"; "--offline"; "Offline mode";
   "-f"; "--from"; "days"; "Days ago";
   "-O"; "--overtime"; "Overtime calculations"; "-s"; "--start"; "time"; "Start time"].




(** ** Proof automation *)

(** Case analysis on the integer comparisons of the goal, closing the
    impossible cases by arithmetic. *)
Ltac cmp_cases :=
  repeat match goal with
  | |- context [?a <? ?b] => destruct (Z.ltb_spec a b); try lia
  | |- context [?a <=? ?b] => destruct (Z.leb_spec a b); try lia
  | |- context [?a =? ?b] => destruct (Z.eqb_spec a b); try lia
  end.

(** Linear arithmetic with division and remainder by constants. *)
Ltac divlia := Z.to_euclidean_division_equations; lia.

(** * Properties *)

(** ** Bytes and strings *)

Lemma rune_of_byte_range (c : ascii) : 0 <= rune_of_byte c < 256.
Proof.
  unfold rune_of_byte. pose proof (N_ascii_bounded c). lia.
Qed.

Lemma byte_of_Z_of_byte (c : ascii) : byte_of_Z (rune_of_byte c) = c.
Proof.
  unfold byte_of_Z, rune_of_byte. rewrite N2Z.id. apply ascii_N_embedding.
Qed.

Lemma rune_of_byte_of_Z (b : Z) : 0 <= b < 256 -> rune_of_byte (byte_of_Z b) = b.
Proof.
  intros Hb. unfold byte_of_Z, rune_of_byte.
  rewrite N_ascii_embedding by lia. lia.
Qed.

Lemma eqb_string_false (s t : string) : s <> t -> String.eqb s t = false.
Proof. intros H. by apply String.eqb_neq. Qed.

(** ** The registry: [Register] *)

Lemma filter_key_absent {A} (l : list (Z * A)) (k : Z) :
  k ∉ l.*1 -> List.filter (fun kv => fst kv =? k) l = [].
Proof.
  induction l as [|[k' v] l IH]; simpl; [done|].
  intros Hk. apply not_elem_of_cons in Hk as [Hne Hk].
  destruct (Z.eqb_spec k' k) as [->|_]; [done|]. by apply IH.
Qed.

Lemma filter_key_once {A} (l : list (Z * A)) (k : Z) (v : A) :
  NoDup l.*1 -> (k, v) ∈ l ->
  length (List.filter (fun kv => fst kv =? k) l) = 1%nat.
Proof.
  induction l as [|[k' v'] l IH]; simpl; intros Hnd Hin.
  - by apply elem_of_nil in Hin.
  - apply NoDup_cons in Hnd as [Hk' Hnd].
    apply elem_of_cons in Hin as [Heq|Hin].
    + injection Heq as <- <-. rewrite Z.eqb_refl. simpl.
      by rewrite filter_key_absent.
    + destruct (Z.eqb_spec k' k) as [->|_].
      * exfalso. apply Hk'. apply list_elem_of_fmap. by exists (k, v).
      * by apply IH.
Qed.

Lemma boundTo_lookup (r : PluginRegistry) (ch : rune) (ctx : PluginContext) :
  contexts r !! ch = Some ctx -> boundTo r ch = 1%nat.
Proof.
  intros H. unfold boundTo. apply (filter_key_once _ ch ctx).
  - apply NoDup_fst_map_to_list.
  - by apply elem_of_map_to_list.
Qed.

Lemma Register_bound_same (r : PluginRegistry) (ctx existing : PluginContext) :
  contexts r !! Context ctx = Some existing -> Script existing = Script ctx ->
  Register r ctx = (r, None).
Proof.
  intros Hex Hs. unfold Register. rewrite Hex, Hs. by rewrite String.eqb_refl.
Qed.

Lemma Register_fresh (r : PluginRegistry) (ctx : PluginContext) :
  contexts r !! Context ctx = None ->
  Register r ctx = ({| contexts := <[Context ctx := ctx]> (contexts r) |}, None).
Proof. intros Hex. unfold Register. by rewrite Hex. Qed.

Lemma Register_bound_other (r : PluginRegistry) (ctx existing : PluginContext) :
  contexts r !! Context ctx = Some existing -> Script existing <> Script ctx ->
  Register r ctx =
    (r, Some (AlreadyRegistered (Context ctx) (Script existing) (Script ctx))).
Proof.
  intros Hex Hs. unfold Register. rewrite Hex. by rewrite eqb_string_false.
Qed.

(** C4.  Idempotence: when a letter is free or bound to the same script, two
    calls of [Register] with a node of that (letter, script) pair both return
    no error, the second call changes nothing, and the registry then has
    exactly one entry under the letter, a node of that script.  Conflict:
    [Register] with another script for a bound letter returns the
    already-registered error and leaves the registry as it was, the first
    node still bound. *)
Theorem Register_idempotent_conflict (r : PluginRegistry) :
  (forall ctx ctx' : PluginContext,
     Context ctx' = Context ctx -> Script ctx' = Script ctx ->
     (forall existing, contexts r !! Context ctx = Some existing ->
                       Script existing = Script ctx) ->
     let r1 := fst (Register r ctx) in
     snd (Register r ctx) = None /\
     Register r1 ctx' = (r1, None) /\
     boundTo r1 (Context ctx) = 1%nat /\
     exists node, contexts r1 !! Context ctx = Some node /\
                  Script node = Script ctx) /\
  (forall ctx existing : PluginContext,
     contexts r !! Context ctx = Some existing ->
     Script existing <> Script ctx ->
     Register r ctx =
       (r, Some (AlreadyRegistered (Context ctx) (Script existing) (Script ctx))) /\
     contexts (fst (Register r ctx)) !! Context ctx = Some existing).
Proof.
  split.
  - intros ctx ctx' Hc Hs Hfree r1.
    assert (Hnode : exists node, contexts r1 !! Context ctx = Some node /\
                                 Script node = Script ctx).
    { subst r1. destruct (contexts r !! Context ctx) as [existing|] eqn:Hex.
      - rewrite (Register_bound_same r ctx existing) by auto. eauto.
      - rewrite Register_fresh by done. simpl. exists ctx.
        by rewrite lookup_insert_eq. }
    destruct Hnode as (node & Hnode & Hscript).
    repeat split.
    + destruct (contexts r !! Context ctx) as [existing|] eqn:Hex.
      * by rewrite (Register_bound_same r ctx existing) by auto.
      * by rewrite Register_fresh.
    + apply (Register_bound_same r1 ctx' node); congruence.
    + by apply (boundTo_lookup r1 _ node).
    + eauto.
  - intros ctx existing Hex Hs.
    rewrite (Register_bound_other r ctx existing) by done. by split.
Qed.

(** The idempotent registration of the tests, and the conflict of
    [TestPluginRegistry_RegisterConflict]. *)
Lemma Register_idempotent_conflict_witness :
  (let r1 := fst (Register NewPluginRegistry timeCtx) in
   snd (Register NewPluginRegistry timeCtx) = None /\
   Register r1 timeCtx = (r1, None) /\
   boundTo r1 84 = 1%nat /\
   exists node, contexts r1 !! 84 = Some node /\ Script node = "./plugins/time.sh") /\
  (Register timeRegistry testCtx =
     (timeRegistry,
      Some (AlreadyRegistered 84 "./plugins/time.sh" "./plugins/test.sh")) /\
   contexts (fst (Register timeRegistry testCtx)) !! 84 = Some timeCtx).
Proof.
  split.
  - apply (proj1 (Register_idempotent_conflict NewPluginRegistry) timeCtx timeCtx).
    + reflexivity.
    + reflexivity.
    + intros existing H. vm_compute in H. discriminate H.
  - apply (proj2 (Register_idempotent_conflict timeRegistry) testCtx timeCtx).
    + reflexivity.
    + intros H. vm_compute in H. discriminate H.
Defined.

(** ** The registry: [Lookup] *)

Lemma Lookup_walk_app (ctx : PluginContext) (p q : list rune) :
  Lookup_walk ctx (p ++ q) =
    match Lookup_walk ctx p with
    | Some c => Lookup_walk c q
    | None => None
    end.
Proof.
  revert ctx. induction p as [|ch p IH]; intros ctx; simpl; [done|].
  destruct (SubContexts ctx !! ch); [apply IH|done].
Qed.

Lemma Lookup_app (r : PluginRegistry) (p q : list rune) :
  p <> [] ->
  Lookup r (p ++ q) =
    match Lookup r p with
    | Some c => Lookup_walk c q
    | None => None
    end.
Proof.
  destruct p as [|ch p]; [done|]. intros _. simpl.
  destruct (contexts r !! ch); [apply Lookup_walk_app|done].
Qed.

Lemma Lookup_resolves (r : PluginRegistry) (path : list rune) (ctx : PluginContext) :
  Lookup r path = Some ctx <-> resolves r path ctx.
Proof.
  split.
  - revert ctx. induction path as [|ch path IH] using rev_ind; intros ctx H.
    + discriminate H.
    + destruct path as [|ch0 path].
      * simpl in H. apply resolves_root.
        destruct (contexts r !! ch); [simpl in H; congruence|discriminate H].
      * rewrite Lookup_app in H by done.
        destruct (Lookup r (ch0 :: path)) as [c|] eqn:Hc; [|discriminate H].
        simpl in H. apply (resolves_sub r _ c); [by apply IH|].
        destruct (SubContexts c !! ch); [congruence|discriminate H].
  - induction 1 as [ch ctx H|path ctx ch subCtx Hres IH Hsub].
    + simpl. by rewrite H.
    + rewrite Lookup_app by (intros ->; discriminate IH).
      rewrite IH. simpl. by rewrite Hsub.
Qed.

(** C5.  [Lookup] of the empty path is nil; a path whose first letter is no
    root, or in which a later letter is no sub-context of the node reached so
    far, resolves to nil whatever follows, and so does every extension of a
    path that resolves to nil; a path resolves to a node exactly when the
    walk through the roots and then the sub-context maps ends in that
    node. *)
Theorem Lookup_fails_closed (r : PluginRegistry) :
  Lookup r [] = None /\
  (forall ch rest, contexts r !! ch = None -> Lookup r (ch :: rest) = None) /\
  (forall path ctx ch rest,
     Lookup r path = Some ctx -> SubContexts ctx !! ch = None ->
     Lookup r (path ++ ch :: rest) = None) /\
  (forall path rest, path <> [] -> Lookup r path = None ->
     Lookup r (path ++ rest) = None) /\
  (forall path ctx, Lookup r path = Some ctx <-> resolves r path ctx) /\
  (forall path ctx ch, Lookup r path = Some ctx ->
     Lookup r (path ++ [ch]) = SubContexts ctx !! ch).
Proof.
  split; [done|]. split; [|split; [|split; [|split]]].
  - intros ch rest H. simpl. by rewrite H.
  - intros path ctx ch rest H Hsub.
    rewrite Lookup_app by (intros ->; discriminate H).
    rewrite H. simpl. by rewrite Hsub.
  - intros path rest Hne H. rewrite Lookup_app by done. by rewrite H.
  - apply Lookup_resolves.
  - intros path ctx ch H.
    rewrite Lookup_app by (intros ->; discriminate H).
    rewrite H. simpl. by destruct (SubContexts ctx !! ch).
Qed.

(** The nested lookup of [TestPluginRegistry_LookupNested], and paths that
    leave the tree at the first and at the second letter. *)
Lemma Lookup_fails_closed_witness :
  Lookup timeRegistry [88; 79] = None /\
  Lookup timeRegistry ([84] ++ [87; 79]) = None /\
  Lookup timeRegistry ([84; 87] ++ [79]) = None /\
  resolves timeRegistry [84; 79] overtimeCtx /\
  Lookup timeRegistry ([84] ++ [79]) = Some overtimeCtx.
Proof.
  destruct (Lookup_fails_closed timeRegistry) as (_ & H1 & H2 & H3 & H4 & H5).
  split; [|split; [|split; [|split]]].
  - apply H1. reflexivity.
  - apply (H2 [84] timeCtx); reflexivity.
  - apply H3; [discriminate|reflexivity].
  - apply H4. reflexivity.
  - rewrite (H5 [84] timeCtx 79); reflexivity.
Defined.

(** ** The argument resolution engine: the scan of one token *)

Section ParseFacts.

Variable range : gmap Z PluginContext -> list (Z * PluginContext).
Variable r : PluginRegistry.

Lemma parseCluster_cons (ch : rune) (rest : list rune) (next : option string)
    (cur : option PluginContext) (res : ParseResult) :
  parseCluster r (ch :: rest) next cur res =
    if ch =? 104 then parseCluster r rest next cur (setShowHelp res)
    else if isUpper ch then
      match subContextOf cur ch with
      | Some subCtx =>
          parseCluster r rest next (Some subCtx)
            (setContext (ContextPath res ++ [ch]) subCtx res)
      | None =>
          match Lookup r [ch] with
          | Some ctx => parseCluster r rest next (Some ctx) (setContext [ch] ctx res)
          | None => Err (UnknownContext ch)
          end
      end
    else flagStep r ch rest next (defaultToShell r cur res).1 (defaultToShell r cur res).2.
Proof.
  unfold flagStep. cbn [parseCluster].
  by destruct (defaultToShell r cur res) as [cur1 res1].
Qed.

Lemma parseArgs_cluster (tok : string) (rest : list string)
    (currentCtx : option PluginContext) (result : ParseResult) :
  isClusterToken tok = true ->
  parseArgs range r (tok :: rest) currentCtx result =
    afterCluster range r rest
      (parseCluster r (runes (tail1 tok)) (head rest) currentCtx result).
Proof.
  unfold isClusterToken. intros H.
  apply andb_prop in H as [H Hlen]. apply andb_prop in H as [Hlong Hshort].
  apply negb_true_iff in Hlong.
  cbn [parseArgs]. rewrite Hlong, Hshort, Hlen. cbn [andb].
  by destruct (parseCluster r (runes (tail1 tok)) (head rest) currentCtx result)
    as [[[c res] consumed]|e].
Qed.

(** A scan that ends without an error and without a consumed value found no
    value-requiring flag, so it composes with the scan of what follows. *)
Lemma parseCluster_app (pre suf : list rune) (next : option string)
    (cur cur' : option PluginContext) (res res' : ParseResult) :
  parseCluster r pre next cur res = Ok (cur', res', false) ->
  parseCluster r (pre ++ suf) next cur res = parseCluster r suf next cur' res'.
Proof.
  revert cur res. induction pre as [|ch pre IH]; intros cur res H.
  - cbn in H. by injection H as -> ->.
  - rewrite <- app_comm_cons. rewrite parseCluster_cons in H |- *.
    destruct (ch =? 104); [by apply IH|].
    destruct (isUpper ch).
    + destruct (subContextOf cur ch) as [subCtx|]; [by apply IH|].
      destruct (Lookup r [ch]) as [ctx|]; [by apply IH|discriminate H].
    + unfold flagStep in H |- *.
      destruct (findFlagInContext ch (defaultToShell r cur res).1) as [flag|];
        [|discriminate H].
      destruct (negb (String.eqb (ArgName flag) "")).
      * destruct pre as [|ch' pre]; [|discriminate H].
        destruct next; discriminate H.
      * by apply IH.
Qed.

Lemma defaultToShell_Args (cur : option PluginContext) (res : ParseResult) :
  Args (defaultToShell r cur res).2 = Args res.
Proof.
  unfold defaultToShell. destruct cur; [done|]. by destruct (Lookup r [83]).
Qed.

Lemma parseCluster_Args (flags : list rune) (next : option string)
    (cur cur' : option PluginContext) (res res' : ParseResult) (consumed : bool) :
  parseCluster r flags next cur res = Ok (cur', res', consumed) ->
  Args res' = Args res.
Proof.
  revert cur res. induction flags as [|ch flags IH]; intros cur res H.
  - cbn in H. by injection H as _ <- _.
  - rewrite parseCluster_cons in H.
    destruct (ch =? 104); [by rewrite (IH _ _ H)|].
    destruct (isUpper ch).
    + destruct (subContextOf cur ch) as [subCtx|]; [by rewrite (IH _ _ H)|].
      destruct (Lookup r [ch]) as [ctx|]; [by rewrite (IH _ _ H)|discriminate H].
    + unfold flagStep in H. rewrite <- (defaultToShell_Args cur res).
      destruct (findFlagInContext ch (defaultToShell r cur res).1) as [flag|];
        [|discriminate H].
      destruct (negb (String.eqb (ArgName flag) "")).
      * destruct flags; [|discriminate H].
        destruct next; [|discriminate H]. by injection H as _ <- _.
      * by rewrite (IH _ _ H).
Qed.

Lemma matchLongFlag_Args (name : string) (cur : option PluginContext)
    (res res' : ParseResult) (next : option string) (consumed : bool) :
  matchLongFlag name cur res next = Some (res', consumed) -> Args res' = Args res.
Proof.
  unfold matchLongFlag. intros H. destruct cur as [c|]; [|discriminate H].
  destruct (findLongFlag name (Flags c)) as [flag|]; [|discriminate H].
  destruct (negb (String.eqb (ArgName flag) "")).
  - destruct next; [|discriminate H]. by injection H as <- _.
  - by injection H as <- _.
Qed.

Lemma advance_length (consumed : bool) (rest : list string) :
  (length (advance consumed rest) <= length rest)%nat.
Proof.
  destruct consumed; simpl; [|lia]. destruct rest; simpl; lia.
Qed.

Lemma parseArgs_cons (arg : string) (rest : list string)
    (cur : option PluginContext) (res : ParseResult) :
  parseArgs range r (arg :: rest) cur res =
    if HasPrefix arg "--" then
      if String.eqb (TrimPrefix arg "--") "help"
      then parseArgs range r rest cur (setShowHelp res)
      else
        match matchLongFlag (TrimPrefix arg "--") (defaultToShell r cur res).1
                (defaultToShell r cur res).2 (head rest) with
        | Some (res2, consumed) =>
            parseArgs range r (advance consumed rest) (defaultToShell r cur res).1 res2
        | None =>
            match findContextByLong range r (TrimPrefix arg "--")
                    (defaultToShell r cur res).1 with
            | Some ctx =>
                parseArgs range r rest (Some ctx)
                  (setContext (ContextPath (defaultToShell r cur res).2 ++ [Context ctx])
                     ctx (defaultToShell r cur res).2)
            | None => Err (UnknownLongFlag (TrimPrefix arg "--"))
            end
        end
    else if HasPrefix arg "-" && (1 <? len arg) then
      afterCluster range r rest (parseCluster r (runes (tail1 arg)) (head rest) cur res)
    else parseArgs range r rest cur (appendArg arg res).
Proof.
  cbn [parseArgs]. destruct (defaultToShell r cur res) as [cur1 res1]. cbn [fst snd].
  destruct (HasPrefix arg "--"); [done|].
  destruct (HasPrefix arg "-" && (1 <? len arg)); [|done].
  by destruct (parseCluster r (runes (tail1 arg)) (head rest) cur res)
    as [[[c res'] consumed]|e].
Qed.

(** The leftover list only grows, at its end. *)
Lemma parseArgs_Args (args : list string) (cur : option PluginContext)
    (res res' : ParseResult) :
  parseArgs range r args cur res = Ok res' ->
  exists later, Args res' = (Args res ++ later)%list.
Proof.
  remember (length args) as n eqn:Hn.
  revert args cur res Hn.
  induction n as [n IH] using lt_wf_ind. intros args cur res Hn H.
  destruct args as [|arg rest].
  - cbn in H. injection H as <-. exists []. by rewrite app_nil_r.
  - assert (Hrec : forall consumed cur1 res1, Args res1 = Args res ->
              parseArgs range r (advance consumed rest) cur1 res1 = Ok res' ->
              exists later, Args res' = (Args res ++ later)%list).
    { intros consumed cur1 res1 Hargs H1. rewrite <- Hargs.
      apply (IH (length (advance consumed rest))) with (3 := H1); [|done].
      subst n. pose proof (advance_length consumed rest). simpl. lia. }
    rewrite parseArgs_cons in H. destruct (HasPrefix arg "--").
    + destruct (String.eqb (TrimPrefix arg "--") "help").
      { by apply (Hrec false cur) with (2 := H). }
      pose proof (defaultToShell_Args cur res) as Hdef.
      destruct (matchLongFlag (TrimPrefix arg "--") (defaultToShell r cur res).1
                  (defaultToShell r cur res).2 (head rest))
        as [[res2 consumed]|] eqn:Hm.
      * apply (Hrec consumed _ res2) with (2 := H).
        apply matchLongFlag_Args in Hm. congruence.
      * destruct (findContextByLong range r (TrimPrefix arg "--")
                    (defaultToShell r cur res).1) as [ctx|]; [|discriminate H].
        apply (Hrec false (Some ctx)) with (2 := H). exact Hdef.
    + destruct (HasPrefix arg "-" && (1 <? len arg)).
      * destruct (parseCluster r (runes (tail1 arg)) (head rest) cur res)
          as [[[cur1 res1] consumed]|e] eqn:Hc; [|discriminate H].
        apply (Hrec consumed cur1 res1) with (2 := H).
        by apply parseCluster_Args in Hc.
      * assert (Hin : exists later, Args res' = (Args (appendArg arg res) ++ later)%list).
        { apply (IH (length rest)) with (3 := H); [subst n; simpl; lia|done]. }
        destruct Hin as [later Hl]. exists (arg :: later).
        rewrite Hl. cbn [Args appendArg]. by rewrite <- app_assoc.
Qed.

End ParseFacts.

(** ** The argument resolution engine: context switches in a cluster *)

Lemma isUpper_not_h (ch : rune) : isUpper ch = true -> (ch =? 104) = false.
Proof.
  unfold isUpper, between. intros H. apply andb_prop in H as [_ H]. lia.
Qed.

(** C2.  The scan of a cluster token has reached the capital [ch] in the
    state [(cur', res')].  If [ch] is a sub-context of the cursor, the scan
    goes on from that sub-context with [ch] appended to the path of [res'];
    if it is not, but is a root, the scan goes on from the root with the
    path [[ch]], whatever the path of [res'] was; in both cases the flags,
    the positional arguments and the help mark are those of [res'], and when
    [ch] ends the command line the result of [Parse] has that path and that
    context.  If [ch] is neither, [Parse] returns the unknown-context
    error. *)
Theorem Parse_cluster_context_switch
    (range : gmap Z PluginContext -> list (Z * PluginContext))
    (r : PluginRegistry) (tok : string) (rest : list string)
    (cur cur' : option PluginContext) (res res' : ParseResult)
    (pre post : list rune) (ch : rune) :
  isClusterToken tok = true ->
  runes (tail1 tok) = (pre ++ ch :: post)%list ->
  parseCluster r pre (head rest) cur res = Ok (cur', res', false) ->
  isUpper ch = true ->
  (forall subCtx, subContextOf cur' ch = Some subCtx ->
     parseArgs range r (tok :: rest) cur res =
       afterCluster range r rest
         (parseCluster r post (head rest) (Some subCtx)
            {| ContextPath := (ContextPath res' ++ [ch])%list;
               ResultContext := Some subCtx;
               ResultFlags := ResultFlags res'; Args := Args res';
               ShowHelp := ShowHelp res' |}) /\
     (post = [] -> rest = [] ->
      parseArgs range r (tok :: rest) cur res =
        Ok {| ContextPath := (ContextPath res' ++ [ch])%list;
              ResultContext := Some subCtx;
              ResultFlags := ResultFlags res'; Args := Args res';
              ShowHelp := ShowHelp res' |})) /\
  (forall ctx, subContextOf cur' ch = None -> Lookup r [ch] = Some ctx ->
     parseArgs range r (tok :: rest) cur res =
       afterCluster range r rest
         (parseCluster r post (head rest) (Some ctx)
            {| ContextPath := [ch]; ResultContext := Some ctx;
               ResultFlags := ResultFlags res'; Args := Args res';
               ShowHelp := ShowHelp res' |}) /\
     (post = [] -> rest = [] ->
      parseArgs range r (tok :: rest) cur res =
        Ok {| ContextPath := [ch]; ResultContext := Some ctx;
              ResultFlags := ResultFlags res'; Args := Args res';
              ShowHelp := ShowHelp res' |})) /\
  (subContextOf cur' ch = None -> Lookup r [ch] = None ->
     parseArgs range r (tok :: rest) cur res = Err (UnknownContext ch)).
Proof.
  intros Htok Hrunes Hpre Hup.
  assert (Hstep : parseArgs range r (tok :: rest) cur res =
            afterCluster range r rest
              (parseCluster r (ch :: post) (head rest) cur' res')).
  { rewrite parseArgs_cluster by done. rewrite Hrunes.
    by rewrite (parseCluster_app r pre (ch :: post) _ cur cur' res res'). }
  rewrite Hstep, parseCluster_cons, (isUpper_not_h ch Hup), Hup.
  split; [|split].
  - intros subCtx Hsub. rewrite Hsub. split; [reflexivity|].
    intros -> ->. reflexivity.
  - intros ctx Hsub Hroot. rewrite Hsub, Hroot. split; [reflexivity|].
    intros -> ->. reflexivity.
  - intros Hsub Hroot. by rewrite Hsub, Hroot.
Qed.

(** [-TO]: from the root [T], the capital [O] is a sub-context and extends
    the path [T] to [T, O].  [-TOT]: from [O], the capital [T] is no
    sub-context but a root, and the path [T, O] is replaced by [T].  [-TX]:
    [X] is neither. *)
Lemma Parse_cluster_context_switch_witness :
  parseArgs keyOrder timeRegistry ["-TO"] None emptyResult =
    Ok {| ContextPath := [84; 79]; ResultContext := Some overtimeCtx;
          ResultFlags := ∅; Args := []; ShowHelp := false |} /\
  parseArgs keyOrder timeRegistry ["-TOT"] None emptyResult =
    Ok {| ContextPath := [84]; ResultContext := Some timeCtx;
          ResultFlags := ∅; Args := []; ShowHelp := false |} /\
  parseArgs keyOrder timeRegistry ["-TX"] None emptyResult = Err (UnknownContext 88).
Proof.
  split; [|split].
  - apply (proj2 (proj1 (Parse_cluster_context_switch keyOrder timeRegistry "-TO" []
                    None (Some timeCtx) emptyResult
                    {| ContextPath := [84]; ResultContext := Some timeCtx;
                       ResultFlags := ∅; Args := []; ShowHelp := false |}
                    [84] [] 79 eq_refl eq_refl eq_refl eq_refl)
                    overtimeCtx eq_refl) eq_refl eq_refl).
  - apply (proj2 (proj1 (proj2 (Parse_cluster_context_switch keyOrder timeRegistry
                    "-TOT" [] None (Some overtimeCtx) emptyResult
                    {| ContextPath := [84; 79]; ResultContext := Some overtimeCtx;
                       ResultFlags := ∅; Args := []; ShowHelp := false |}
                    [84; 79] [] 84 eq_refl eq_refl eq_refl eq_refl))
                    timeCtx eq_refl eq_refl) eq_refl eq_refl).
  - apply (proj2 (proj2 (Parse_cluster_context_switch keyOrder timeRegistry "-TX" []
                    None (Some timeCtx) emptyResult
                    {| ContextPath := [84]; ResultContext := Some timeCtx;
                       ResultFlags := ∅; Args := []; ShowHelp := false |}
                    [84] [] 88 eq_refl eq_refl eq_refl eq_refl)));
      reflexivity.
Defined.

(** ** The argument resolution engine: value-requiring flags in a cluster *)



(** ** The argument resolution engine: the token ["-"] *)

(** C10 (amended).  When the scan stands on a token ["-"], the token is no
    flag, cluster or context switch: the scan goes on from the same cursor
    with ["-"] appended to the leftover arguments, and a parse that succeeds
    returns it there. *)
Theorem Parse_lone_dash
    (range : gmap Z PluginContext -> list (Z * PluginContext))
    (r : PluginRegistry) (rest : list string)
    (cur : option PluginContext) (res : ParseResult) :
  parseArgs range r ("-" :: rest) cur res =
    parseArgs range r rest cur (appendArg "-" res) /\
  forall res', parseArgs range r ("-" :: rest) cur res = Ok res' ->
    exists later, Args res' = (Args res ++ "-" :: later)%list.
Proof.
  assert (H : parseArgs range r ("-" :: rest) cur res =
              parseArgs range r rest cur (appendArg "-" res)) by reflexivity.
  split; [exact H|].
  intros res' Hok. rewrite H in Hok.
  apply parseArgs_Args in Hok as [later Hl]. exists later.
  rewrite Hl. cbn [Args appendArg]. by rewrite <- app_assoc.
Qed.

(** The token ["-"] after a value-requiring flag is the flag's value and no
    leftover argument. *)
Lemma Parse_lone_dash_as_value :
  exists res, Parse keyOrder timeRegistry ["-Tf"; "-"] = Ok res /\
              Args res = [] /\ ResultFlags res !! "from" = Some "-".
Proof.
  eexists. split; [reflexivity|]. split; reflexivity.
Qed.

(** ** The argument resolution engine: cluster form and long form *)

Lemma findLongFlag_Long (name : string) (flags : list Flag) (flag : Flag) :
  findLongFlag name flags = Some flag -> Long flag = name.
Proof.
  induction flags as [|f flags IH]; simpl; [discriminate|].
  destruct (String.eqb_spec (Long f) name) as [Heq|_]; [|exact IH].
  by intros [= <-].
Qed.

Lemma flagKey_Long (flag : Flag) : Long flag <> "" -> flagKey flag = Long flag.
Proof. intros H. unfold flagKey. by rewrite eqb_string_false. Qed.

(** C1 (amended).  In the root context [T], let the boolean flag [fo] be the
    first flag of short name ['o'] and the first of long name ["offline"],
    and the value-requiring flag [ff] the first of short name ['f'] and the
    first of long name ["from"].  Then [-Tof 5] and [-T --offline --from 5]
    both parse, to the same result: the flags [offline = true] and
    [from = 5], no leftover argument, the path [T]. *)
Theorem Parse_cluster_long_equivalence
    (range : gmap Z PluginContext -> list (Z * PluginContext))
    (r : PluginRegistry) (T : PluginContext) (fo ff : Flag) :
  contexts r !! 84 = Some T ->
  findFlag 111 (Flags T) = Some fo ->
  findLongFlag "offline" (Flags T) = Some fo ->
  ArgName fo = "" ->
  findFlag 102 (Flags T) = Some ff ->
  findLongFlag "from" (Flags T) = Some ff ->
  ArgName ff <> "" ->
  exists res,
    Parse range r ["-Tof"; "5"] = Ok res /\
    Parse range r ["-T"; "--offline"; "--from"; "5"] = Ok res /\
    ResultFlags res = {[ "offline" := "true"; "from" := "5" ]} /\
    Args res = [] /\
    ContextPath res = [84].
Proof.
  intros HT Hso Hlo Hbool Hsf Hlf Hval.
  pose proof (findLongFlag_Long _ _ _ Hlo) as Hfo.
  pose proof (findLongFlag_Long _ _ _ Hlf) as Hff.
  assert (Hroot : Lookup r [84] = Some T) by (simpl; by rewrite HT).
  assert (Hko : flagKey fo = "offline") by (rewrite flagKey_Long; by rewrite Hfo).
  assert (Hkf : flagKey ff = "from") by (rewrite flagKey_Long; by rewrite Hff).
  exists (setFlag "from" "5" (setFlag "offline" "true" (setContext [84] T emptyResult))).
  split; [|split; [|split; [|split]]].
  - unfold Parse. rewrite parseArgs_cluster by reflexivity.
    change (runes (tail1 "-Tof")) with [84; 111; 102].
    rewrite parseCluster_cons. cbn [Z.eqb Pos.eqb]. change (isUpper 84) with true.
    cbn [subContextOf]. rewrite Hroot.
    rewrite parseCluster_cons. cbn [Z.eqb Pos.eqb]. change (isUpper 111) with false.
    cbn [defaultToShell fst snd]. unfold flagStep at 1. cbn [findFlagInContext].
    rewrite Hso, Hbool, Hko. cbn [String.eqb negb].
    rewrite parseCluster_cons. cbn [Z.eqb Pos.eqb]. change (isUpper 102) with false.
    cbn [defaultToShell fst snd]. unfold flagStep. cbn [findFlagInContext].
    rewrite Hsf, (eqb_string_false _ _ Hval), Hkf. reflexivity.
  - unfold Parse. rewrite parseArgs_cluster by reflexivity.
    change (runes (tail1 "-T")) with [84].
    rewrite parseCluster_cons. cbn [Z.eqb Pos.eqb]. change (isUpper 84) with true.
    cbn [subContextOf]. rewrite Hroot. cbn [parseCluster afterCluster advance].
    rewrite parseArgs_cons. change (HasPrefix "--offline" "--") with true.
    change (TrimPrefix "--offline" "--") with "offline".
    change (String.eqb "offline" "help") with false.
    cbn [defaultToShell fst snd]. unfold matchLongFlag at 1.
    rewrite Hlo, Hbool, Hfo. cbn [String.eqb negb advance].
    rewrite parseArgs_cons. change (HasPrefix "--from" "--") with true.
    change (TrimPrefix "--from" "--") with "from".
    change (String.eqb "from" "help") with false.
    cbn [defaultToShell fst snd]. unfold matchLongFlag.
    rewrite Hlf, (eqb_string_false _ _ Hval), Hff. reflexivity.
  - cbn [ResultFlags setFlag setContext emptyResult].
    apply map_eq. intros k.
    destruct (decide (k = "from")) as [->|Hk1]; [reflexivity|].
    destruct (decide (k = "offline")) as [->|Hk2]; [reflexivity|].
    by simplify_map_eq.
  - reflexivity.
  - reflexivity.
Qed.

(** The context of the tests, where the two flags are the only ones. *)
Lemma Parse_cluster_long_equivalence_witness :
  exists res,
    Parse keyOrder timeRegistry ["-Tof"; "5"] = Ok res /\
    Parse keyOrder timeRegistry ["-T"; "--offline"; "--from"; "5"] = Ok res /\
    ResultFlags res = {[ "offline" := "true"; "from" := "5" ]} /\
    Args res = [] /\
    ContextPath res = [84].
Proof.
  apply (Parse_cluster_long_equivalence keyOrder timeRegistry timeCtx
           offlineFlag fromFlag); (reflexivity || discriminate).
Defined.

(** A context that owns both flags, and before them a flag of short name
    ['o']: the cluster form sets [other], the long form sets [offline]. *)
Lemma Parse_cluster_long_shadowed :
  contexts shadowedRegistry !! 84 = Some shadowedCtx /\
  ContextLong shadowedCtx = "time" /\
  In offlineFlag (Flags shadowedCtx) /\ In fromFlag (Flags shadowedCtx) /\
  exists res1 res2,
    Parse keyOrder shadowedRegistry ["-Tof"; "5"] = Ok res1 /\
    Parse keyOrder shadowedRegistry ["-T"; "--offline"; "--from"; "5"] = Ok res2 /\
    ResultFlags res1 !! "offline" = None /\
    ResultFlags res2 !! "offline" = Some "true" /\
    ResultFlags res1 <> ResultFlags res2.
Proof.
  split; [reflexivity|]. split; [reflexivity|].
  split; [simpl; tauto|]. split; [simpl; tauto|].
  eexists. eexists.
  split; [reflexivity|]. split; [reflexivity|].
  split; [reflexivity|]. split; [reflexivity|].
  intros H. apply (f_equal (fun m => m !! "offline")) in H. discriminate H.
Qed.

(** ** The argument resolution engine: a long flag without its value *)

Lemma substring_all (s : string) : String.substring 0 (String.length s) s = s.
Proof. induction s as [|c s IH]; simpl; [done|]. by rewrite IH. Qed.

Lemma HasPrefix_long (name : string) : HasPrefix ("--" ++ name) "--" = true.
Proof. unfold HasPrefix. simpl. by destruct name. Qed.

Lemma TrimPrefix_long (name : string) : TrimPrefix ("--" ++ name) "--" = name.
Proof.
  unfold TrimPrefix. rewrite HasPrefix_long. simpl.
  rewrite Nat.sub_0_r. apply substring_all.
Qed.

Lemma firstByLong_None (name : string) (ctxs : list (Z * PluginContext)) :
  (forall k ctx, (k, ctx) ∈ ctxs -> ContextLong ctx <> name) ->
  firstByLong name ctxs = None.
Proof.
  induction ctxs as [|[k ctx] ctxs IH]; intros H; simpl; [done|].
  rewrite eqb_string_false by (apply (H k); left).
  apply IH. intros k' ctx' Hin. apply (H k'). by right.
Qed.

Lemma range_None (range : gmap Z PluginContext -> list (Z * PluginContext))
    (name : string) (m : gmap Z PluginContext) :
  range_visits_all range ->
  (forall k ctx, m !! k = Some ctx -> ContextLong ctx <> name) ->
  firstByLong name (range m) = None.
Proof.
  intros Hrange H. apply firstByLong_None. intros k ctx Hin.
  apply (H k). apply elem_of_map_to_list. by rewrite <- (Hrange m).
Qed.

(** C9 (amended).  The scan stands on the last token [--name], where [name]
    is not the reserved ["help"]; in the context of the cursor the first flag
    of long name [name] requires a value, and no sub-context of the cursor
    and no root context has the long name [name].  Then [Parse] returns the
    unknown-flag error (not the requires-an-argument error) and no result, so
    no value is recorded for the flag. *)
Theorem Parse_final_long_value_flag
    (range : gmap Z PluginContext -> list (Z * PluginContext))
    (r : PluginRegistry) (name : string)
    (cur : option PluginContext) (res : ParseResult)
    (ctx : PluginContext) (flag : Flag) :
  range_visits_all range ->
  name <> "help" ->
  (defaultToShell r cur res).1 = Some ctx ->
  findLongFlag name (Flags ctx) = Some flag ->
  ArgName flag <> "" ->
  (forall k subCtx, SubContexts ctx !! k = Some subCtx -> ContextLong subCtx <> name) ->
  (forall k root, contexts r !! k = Some root -> ContextLong root <> name) ->
  parseArgs range r ["--" ++ name] cur res = Err (UnknownLongFlag name).
Proof.
  intros Hrange Hname Hcur Hflag Harg Hsub Hroot.
  rewrite parseArgs_cons, HasPrefix_long, TrimPrefix_long.
  rewrite (eqb_string_false _ _ Hname), Hcur.
  unfold matchLongFlag. rewrite Hflag, (eqb_string_false _ _ Harg). cbn [negb head].
  unfold findContextByLong.
  rewrite (range_None range name (SubContexts ctx)) by done.
  by rewrite (range_None range name (contexts r)).
Qed.

(** [--from] as the only token, the cursor in [T]. *)
Lemma Parse_final_long_value_flag_witness :
  parseArgs keyOrder timeRegistry ["--from"] (Some timeCtx) emptyResult =
    Err (UnknownLongFlag "from").
Proof.
  apply (Parse_final_long_value_flag keyOrder timeRegistry "from" (Some timeCtx)
           emptyResult timeCtx fromFlag).
  - intros m. reflexivity.
  - discriminate.
  - reflexivity.
  - reflexivity.
  - discriminate.
  - intros k subCtx H. cbn [SubContexts timeCtx] in H.
    apply lookup_singleton_Some in H as [_ <-]. discriminate.
  - intros k root H.
    change (contexts timeRegistry)
      with (<[84 := timeCtx]> (∅ : gmap Z PluginContext)) in H.
    apply lookup_insert_Some in H as [[_ <-]|[_ H]]; [discriminate|].
    by rewrite lookup_empty in H.
Defined.

(** The last token [--help], where ["help"] is the long name of a
    value-requiring flag of the current context and of no context: the parse
    succeeds with the help request set. *)
Lemma Parse_final_long_help :
  contexts manualRegistry !! 77 = Some manualCtx /\
  findLongFlag "help" (Flags manualCtx) = Some topicFlag /\
  ArgName topicFlag = "topic" /\
  firstByLong "help" (keyOrder (SubContexts manualCtx)) = None /\
  firstByLong "help" (keyOrder (contexts manualRegistry)) = None /\
  exists res, Parse keyOrder manualRegistry ["-M"; "--help"] = Ok res /\
              ResultContext res = Some manualCtx /\
              ShowHelp res = true /\ ResultFlags res = ∅.
Proof.
  repeat (split; [reflexivity|]).
  eexists. repeat (split; [reflexivity|]). reflexivity.
Qed.

(** The last token [--from] after a [--from]: the first takes the second as
    its value, and the parse succeeds. *)
Lemma Parse_final_long_consumed :
  exists res, Parse keyOrder timeRegistry ["-T"; "--from"; "--from"] = Ok res /\
              ResultFlags res !! "from" = Some "--from".
Proof. eexists. split; reflexivity. Qed.

(** ** The dispatcher *)

(** C8 (amended).  With a script that exists, the exit code of the child is
    returned as it is: the code of its [ExitError], and 0 when it ends without
    error.  With an empty script path or a path that [os.Stat] rejects the
    return value is the constant 1, which is not zero (and which is a code
    that a child can return too). *)
Theorem ExecutePlugin_exit_code (os : OS) (ctx : PluginContext)
    (flags : gmap string string) (args : list string) :
  (Script ctx = "" \/ Stat os (Script ctx) = false ->
     ExecutePlugin os ctx flags args = 1 /\ ExecutePlugin os ctx flags args <> 0) /\
  (Script ctx <> "" -> Stat os (Script ctx) = true ->
     (forall code, Run os (Script ctx) args flags = RunExitError code ->
        ExecutePlugin os ctx flags args = code) /\
     (Run os (Script ctx) args flags = RunNil ->
        ExecutePlugin os ctx flags args = 0)).
Proof.
  unfold ExecutePlugin. split.
  - intros [Hs|Hs].
    + rewrite Hs. by cbn.
    + destruct (String.eqb (Script ctx) ""); [done|]. by rewrite Hs.
  - intros Hs Hstat. rewrite (eqb_string_false _ _ Hs), Hstat. cbn [negb].
    split.
    + intros code Hrun. by rewrite Hrun.
    + intros Hrun. by rewrite Hrun.
Qed.

(** The built-in context without a script, and a script that exits with 42. *)
Lemma ExecutePlugin_exit_code_witness :
  (ExecutePlugin exit42OS argsCtx ∅ [] = 1 /\ ExecutePlugin exit42OS argsCtx ∅ [] <> 0) /\
  ExecutePlugin exit42OS timeCtx ∅ [] = 42.
Proof.
  split.
  - apply (proj1 (ExecutePlugin_exit_code exit42OS argsCtx ∅ [])). by left.
  - apply (proj2 (ExecutePlugin_exit_code exit42OS timeCtx ∅ []));
      [discriminate|reflexivity|reflexivity].
Defined.

(** The return value for a missing script is in the range of the child's
    codes: a child that exits with 1 gives the return value of a context
    without a script. *)
Lemma ExecutePlugin_code_collision :
  Script timeCtx <> "" /\ Stat exitOneOS (Script timeCtx) = true /\
  Run exitOneOS (Script timeCtx) [] ∅ = RunExitError 1 /\
  Script argsCtx = "" /\
  ExecutePlugin exitOneOS timeCtx ∅ [] = ExecutePlugin exitOneOS argsCtx ∅ [].
Proof. repeat split. discriminate. Qed.

(** ** The registration grammar: the header of a definition *)

Lemma upper_byte_range (b : Z) : 0 <= b < 256 -> 0 <= upper_byte b < 256.
Proof.
  unfold upper_byte, isLower, between. intros Hb.
  destruct ((97 <=? b) && (b <=? 122)) eqn:H; [|done].
  apply andb_prop in H as [H1 H2]. lia.
Qed.

Lemma string_of_rune_ascii (b : Z) :
  0 <= b < 128 -> string_of_rune b = String (byte_of_Z b) "".
Proof.
  intros Hb. unfold string_of_rune, between.
  replace ((0 <=? b) && (b <=? 127)) with true; [done|].
  symmetry. apply andb_true_intro. lia.
Qed.

Lemma upper_byte_ascii (b : Z) : 0 <= b < 128 -> 0 <= upper_byte b < 128.
Proof.
  unfold upper_byte, isLower, between. intros Hb.
  destruct ((97 <=? b) && (b <=? 122)) eqn:H; [|done].
  apply andb_prop in H as [H1 H2]. lia.
Qed.

(** The first byte of [strings.ToUpper(s)], for [s] that starts with an ASCII
    byte: the upper-cased byte, whatever the rest of [s]. *)
Lemma strings_ToUpper_head (up : rune -> rune) (c : ascii) (s : string) :
  rune_of_byte c < 128 ->
  exists t, strings_ToUpper up (String c s) =
            String (byte_of_Z (upper_byte (rune_of_byte c))) t.
Proof.
  intros Hc. pose proof (rune_of_byte_range c) as Hr.
  unfold strings_ToUpper. destruct (isASCII (String c s)).
  - by eexists.
  - unfold strings_Map. cbn [runes].
    replace (utf8_width (rune_of_byte c)) with 1%nat
      by (unfold utf8_width; by replace (rune_of_byte c <? 128) with true by lia).
    cbn [fold_right]. unfold ToUpper_rune at 1 2.
    replace (rune_of_byte c <=? 127) with true by lia.
    pose proof (upper_byte_ascii (rune_of_byte c)) as Hu.
    replace (upper_byte (rune_of_byte c) <? 0) with false by lia.
    rewrite string_of_rune_ascii by lia. by eexists.
Qed.

Lemma isUpper_range (ch : rune) :
  isUpper ch = true -> (ch <? 65) || (90 <? ch) = false.
Proof.
  unfold isUpper, between. intros H. apply andb_prop in H as [H1 H2].
  apply orb_false_intro; lia.
Qed.

Lemma not_isUpper_range (ch : rune) :
  isUpper ch = false -> (ch <? 65) || (90 <? ch) = true.
Proof.
  unfold isUpper, between. intros H. apply andb_false_iff in H as [H|H];
    apply orb_true_iff; [left|right]; lia.
Qed.

Lemma short_token (c : ascii) :
  rune_of_byte c <> 45 ->
  HasPrefix (String "-" (String c "")) "--" = false.
Proof.
  intros Hc. unfold HasPrefix. cbn [String.prefix].
  destruct (ascii_dec "-" "-") as [_|Hne]; [|by destruct Hne].
  destruct (ascii_dec "-" c) as [<-|_]; [|done]. by destruct Hc.
Qed.

Lemma lower_letter (ch : rune) (low : rune -> rune) :
  isUpper ch = true ->
  strings_ToLower low (string_of_rune ch) = String (byte_of_Z (ch + 32)) "".
Proof.
  intros Hup. pose proof Hup as Hr. unfold isUpper, between in Hr.
  apply andb_prop in Hr as [H1 H2].
  rewrite string_of_rune_ascii by lia.
  unfold strings_ToLower, isASCII, map_bytes. simpl.
  rewrite rune_of_byte_of_Z by lia.
  replace (ch <? 128) with true by lia. simpl.
  unfold lower_byte. by rewrite Hup.
Qed.

Section HeaderFacts.

Variable Getenv : string -> string.
Variables up low : rune -> rune.

Lemma header_long_only (c : ascii) (long' description : string) (rest : list string)
    (flags : list Flag) (subContexts : gmap Z PluginContext) :
  rune_of_byte c < 128 ->
  parseFlagsAndSubContexts Getenv rest = Ok (flags, subContexts) ->
  parsePluginDefinition Getenv up low
    (("--" ++ String c long') :: description :: rest) =
    Ok {| Context := upper_byte (rune_of_byte c);
          ContextLong := String c long';
          Description := description;
          Script := Getenv "WSH_PLUGIN_SCRIPT";
          Flags := flags;
          SubContexts := subContexts |}.
Proof.
  intros Hascii Hrest. unfold parsePluginDefinition.
  rewrite HasPrefix_long, TrimPrefix_long.
  replace (0 <? len (String c long')) with true by reflexivity.
  destruct (strings_ToUpper_head up c long' Hascii) as [t ->].
  rewrite rune_of_byte_of_Z by (apply upper_byte_range, rune_of_byte_range).
  unfold finishDefinition. rewrite Hrest.
  by rewrite andb_false_r.
Qed.

(** The tests that [parsePluginDefinition] makes on a first token [-c]. *)
Lemma header_short_token (c : ascii) (a1 : string) (rest : list string) :
  rune_of_byte c <> 45 ->
  parsePluginDefinition Getenv up low (String "-" (String c "") :: a1 :: rest) =
    if (rune_of_byte c <? 65) || (90 <? rune_of_byte c)
    then Err (ContextShortNotCapital (rune_of_byte c))
    else if HasPrefix a1 "--" then
      match rest with
      | a2 :: rest' =>
          finishDefinition Getenv (rune_of_byte c) (TrimPrefix a1 "--") a2 rest'
      | [] => Err (MissingDescriptionAfter (String "-" (String c "")) a1)
      end
    else
      finishDefinition Getenv (rune_of_byte c)
        (strings_ToLower low (string_of_rune (rune_of_byte c))) a1 rest.
Proof.
  intros Hc. unfold parsePluginDefinition. rewrite short_token by done.
  cbn [HasPrefix String.prefix len String.length andb byteAt String.get option_map].
  destruct (ascii_dec "-" "-") as [_|Hne]; [|by destruct Hne].
  reflexivity.
Qed.

Lemma isUpper_not_dash (ch : rune) : isUpper ch = true -> ch <> 45 /\ (ch =? 0) = false.
Proof.
  unfold isUpper, between. intros H. apply andb_prop in H as [H1 H2]. lia.
Qed.

Lemma header_short_only (c : ascii) (description : string) (rest : list string)
    (flags : list Flag) (subContexts : gmap Z PluginContext) :
  isUpper (rune_of_byte c) = true ->
  HasPrefix description "--" = false ->
  parseFlagsAndSubContexts Getenv rest = Ok (flags, subContexts) ->
  parsePluginDefinition Getenv up low
    (String "-" (String c "") :: description :: rest) =
    Ok {| Context := rune_of_byte c;
          ContextLong := String (byte_of_Z (rune_of_byte c + 32)) "";
          Description := description;
          Script := Getenv "WSH_PLUGIN_SCRIPT";
          Flags := flags;
          SubContexts := subContexts |}.
Proof.
  intros Hup Hdesc Hrest. destruct (isUpper_not_dash _ Hup) as [Hd H0].
  rewrite header_short_token by done.
  rewrite (isUpper_range _ Hup), Hdesc, (lower_letter _ low Hup).
  unfold finishDefinition. by rewrite Hrest, H0.
Qed.

Lemma header_short_and_long (c : ascii) (long description : string)
    (rest : list string) (flags : list Flag) (subContexts : gmap Z PluginContext) :
  isUpper (rune_of_byte c) = true ->
  parseFlagsAndSubContexts Getenv rest = Ok (flags, subContexts) ->
  parsePluginDefinition Getenv up low
    (String "-" (String c "") :: ("--" ++ long) :: description :: rest) =
    Ok {| Context := rune_of_byte c;
          ContextLong := long;
          Description := description;
          Script := Getenv "WSH_PLUGIN_SCRIPT";
          Flags := flags;
          SubContexts := subContexts |}.
Proof.
  intros Hup Hrest. destruct (isUpper_not_dash _ Hup) as [Hd H0].
  rewrite header_short_token by done.
  rewrite (isUpper_range _ Hup), HasPrefix_long, TrimPrefix_long.
  unfold finishDefinition. by rewrite Hrest, H0.
Qed.

Lemma header_not_capital (c : ascii) (args : list string) :
  isUpper (rune_of_byte c) = false ->
  exists e, parsePluginDefinition Getenv up low (String "-" (String c "") :: args)
            = Err e.
Proof.
  intros Hup. destruct args as [|a1 rest]; [by exists NeedAtLeast|].
  destruct (Z.eq_dec (rune_of_byte c) 45) as [Hc|Hc].
  - assert (c = "-"%char) as ->.
    { rewrite <- (byte_of_Z_of_byte c), Hc. reflexivity. }
    exists MustSpecifyShortOrLong. reflexivity.
  - rewrite header_short_token by done.
    rewrite (not_isUpper_range _ Hup). by eexists.
Qed.

End HeaderFacts.

(** The three forms of a header, as the code reads them.  The header
    [--long description], for a name [long] that starts with an ASCII byte,
    gives the context the upper-cased first byte of [long] as its letter; the
    header [-X description] with a capital [X] gives it the lower-cased letter
    as its long name; the header [-X --long description] gives both as
    written; in each case the definition is the one of the header and of the
    flags and sub-contexts that follow.  A first token [-c] in which [c] is no
    capital letter is rejected, whatever follows. *)
Theorem parsePluginDefinition_header
    (Getenv : string -> string) (up low : rune -> rune) :
  (forall (c : ascii) (long' description : string) (rest : list string)
          (flags : list Flag) (subContexts : gmap Z PluginContext),
     rune_of_byte c < 128 ->
     parseFlagsAndSubContexts Getenv rest = Ok (flags, subContexts) ->
     parsePluginDefinition Getenv up low
       (("--" ++ String c long') :: description :: rest) =
       Ok {| Context := upper_byte (rune_of_byte c);
             ContextLong := String c long';
             Description := description;
             Script := Getenv "WSH_PLUGIN_SCRIPT";
             Flags := flags;
             SubContexts := subContexts |}) /\
  (forall (c : ascii) (description : string) (rest : list string)
          (flags : list Flag) (subContexts : gmap Z PluginContext),
     isUpper (rune_of_byte c) = true ->
     HasPrefix description "--" = false ->
     parseFlagsAndSubContexts Getenv rest = Ok (flags, subContexts) ->
     parsePluginDefinition Getenv up low
       (String "-" (String c "") :: description :: rest) =
       Ok {| Context := rune_of_byte c;
             ContextLong := String (byte_of_Z (rune_of_byte c + 32)) "";
             Description := description;
             Script := Getenv "WSH_PLUGIN_SCRIPT";
             Flags := flags;
             SubContexts := subContexts |}) /\
  (forall (c : ascii) (long description : string) (rest : list string)
          (flags : list Flag) (subContexts : gmap Z PluginContext),
     isUpper (rune_of_byte c) = true ->
     parseFlagsAndSubContexts Getenv rest = Ok (flags, subContexts) ->
     parsePluginDefinition Getenv up low
       (String "-" (String c "") :: ("--" ++ long) :: description :: rest) =
       Ok {| Context := rune_of_byte c;
             ContextLong := long;
             Description := description;
             Script := Getenv "WSH_PLUGIN_SCRIPT";
             Flags := flags;
             SubContexts := subContexts |}) /\
  (forall (c : ascii) (args : list string),
     isUpper (rune_of_byte c) = false ->
     exists e, parsePluginDefinition Getenv up low (String "-" (String c "") :: args)
               = Err e).
Proof.
  split; [|split; [|split]].
  - intros. by apply header_long_only.
  - intros. by apply header_short_only.
  - intros. by apply header_short_and_long.
  - intros. by apply header_not_capital.
Qed.

(** [--time], [-T] and [-T --time] followed by a description, and the
    lower-case letter of [TestParsePluginDefinition_InvalidContext]. *)
Lemma parsePluginDefinition_header_witness :
  parsePluginDefinition loaderEnv noCase noCase ["--time"; "Time tracking"] =
    Ok {| Context := 84; ContextLong := "time"; Description := "Time tracking";
          Script := "./plugins/time.sh"; Flags := []; SubContexts := ∅ |} /\
  parsePluginDefinition loaderEnv noCase noCase ["-T"; "Time tracking"] =
    Ok {| Context := 84; ContextLong := "t"; Description := "Time tracking";
          Script := "./plugins/time.sh"; Flags := []; SubContexts := ∅ |} /\
  parsePluginDefinition loaderEnv noCase noCase ["-T"; "--time"; "Time tracking"] =
    Ok {| Context := 84; ContextLong := "time"; Description := "Time tracking";
          Script := "./plugins/time.sh"; Flags := []; SubContexts := ∅ |} /\
  exists e, parsePluginDefinition loaderEnv noCase noCase ["-t"; "--time"; "Time"]
            = Err e.
Proof.
  destruct (parsePluginDefinition_header loaderEnv noCase noCase)
    as (H1 & H2 & H3 & H4).
  split; [|split; [|split]].
  - apply (H1 "t"%char "ime" "Time tracking" [] [] ∅); reflexivity.
  - apply (H2 "T"%char "Time tracking" [] [] ∅); reflexivity.
  - apply (H3 "T"%char "time" "Time tracking" [] [] ∅); reflexivity.
  - apply (H4 "t"%char). reflexivity.
Defined.

(** C7.  The header [--école School], whose long name starts with the
    character U+00E9 (the bytes 0xC3 0xA9).  The upper-cased first character
    of the name is U+00C9; [parsePluginDefinition] accepts the header and
    gives the context the letter 0xC3 (195), the first byte of the
    upper-cased name, where the comment in the code announces the first
    letter of the long name.  The letter is neither the upper-cased first
    character nor a letter ['A'..'Z'], which the code requires of a letter
    written as [-X]. *)
Lemma parsePluginDefinition_header_non_ascii :
  runes ecole = [233; 99; 111; 108; 101] /\
  ToUpper_rune latinUpper 233 = 201 /\
  runes (strings_ToUpper latinUpper ecole) = [201; 67; 79; 76; 69] /\
  exists ctx,
    parsePluginDefinition loaderEnv latinUpper noCase [("--" ++ ecole)%string; "School"]
      = Ok ctx /\
    ContextLong ctx = ecole /\ Context ctx = 195 /\
    Context ctx <> 201 /\ isUpper (Context ctx) = false.
Proof.
  repeat (split; [reflexivity|]).
  eexists. split; [reflexivity|]. split; [reflexivity|]. split; [reflexivity|].
  split; [discriminate|reflexivity].
Qed.

(** The letter taken from a long name is not checked: a name that starts with
    a digit gives a context under that digit. *)
Lemma parsePluginDefinition_header_digit :
  exists ctx,
    parsePluginDefinition loaderEnv noCase noCase ["--1abc"; "Time tracking"] = Ok ctx /\
    Context ctx = 49 /\ isUpper (Context ctx) = false.
Proof. eexists. split; [reflexivity|]. split; reflexivity. Qed.

(** ** The registration grammar: flags and sub-contexts *)

Lemma parseFlag_consumed (args : list string) (flag : Flag) (n : nat) :
  parseFlag args = Ok (flag, n) -> (2 <= n <= length args)%nat.
Proof.
  unfold parseFlag. destruct args as [|a0 [|a1 rest]]; try discriminate.
  set (args := a0 :: a1 :: rest).
  match goal with |- context [let '(_, _) := ?X in _] =>
    destruct X as [short c1] eqn:E1 end.
  assert (H1 : (c1 = 0%nat /\ short = 0) \/ (c1 = 1%nat /\ short <> 0)).
  { destruct (byteAt a0 1) as [ch|]; [|injection E1 as <- <-; by left].
    destruct (HasPrefix a0 "-" && (len a0 =? 2) && isLower ch) eqn:E;
      injection E1 as <- <-; [right|by left].
    split; [done|]. apply andb_prop in E as [_ E].
    unfold isLower, between in E. apply andb_prop in E as [E _]. lia. }
  match goal with |- context [let '(_, _) := ?X in _] =>
    destruct X as [long c2] eqn:E2 end.
  assert (H2 : (c2 = c1 /\ long = "") \/ c2 = S c1).
  { destruct (args !! c1) as [a|]; [|injection E2 as <- <-; by left].
    destruct (HasPrefix a "--"); injection E2 as <- <-; [by right|by left]. }
  destruct ((short =? 0) && String.eqb long "") eqn:E3; [discriminate|].
  assert (Hc2 : (1 <= c2 <= 2)%nat).
  { destruct H1 as [[-> ->] | [-> _]], H2 as [[-> ->] | ->]; try lia.
    discriminate E3. }
  intros H.
  destruct (countNonFlag (drop c2 args)) as [|[|k]];
    destruct (drop c2 args) as [|x [|y l]] eqn:Ed; try discriminate H;
    injection H as _ <-;
    apply (f_equal length) in Ed; rewrite length_drop in Ed;
    unfold args in *; simpl in *; lia.
Qed.

Lemma parseFlag_error (args : list string) (e : DefinitionError) :
  parseFlag args = Err e ->
  e = FlagNeedsDescription \/ e = FlagNeedsName \/ e = FlagMissingDescription.
Proof.
  unfold parseFlag. destruct args as [|a0 [|a1 rest]]; try (intros [= <-]; by left).
  set (args := a0 :: a1 :: rest).
  match goal with |- context [let '(_, _) := ?X in _] =>
    destruct X as [short c1] end.
  match goal with |- context [let '(_, _) := ?X in _] =>
    destruct X as [long c2] end.
  destruct ((short =? 0) && String.eqb long ""); [intros [= <-]; tauto|].
  destruct (countNonFlag (drop c2 args)) as [|[|k]];
    destruct (drop c2 args) as [|x [|y l]]; intros [= <-]; tauto.
Qed.

(** The loop of [parseSubContext] stops at the end of the tokens or in front
    of a context token, and never goes past the end. *)
Lemma parseSubContext_flags_stop (bound : nat) (args : list string) (c c' : nat)
    (flags flags' : list Flag) :
  parseSubContext_flags bound args c flags = Ok (flags', c') ->
  (c <= length args)%nat ->
  (c <= c' <= length args)%nat /\
  (c' = length args \/
   exists tok, args !! c' = Some tok /\ isContextToken tok = true).
Proof.
  revert c flags. induction bound as [|bound IH]; intros c flags H Hc.
  - discriminate H.
  - cbn [parseSubContext_flags] in H.
    destruct (drop c args) as [|arg tail] eqn:Ed.
    + injection H as _ <-. apply (f_equal length) in Ed.
      rewrite length_drop in Ed. simpl in Ed. split; [lia|left; lia].
    + assert (Harg : args !! c = Some arg).
      { rewrite <- (Nat.add_0_r c), <- lookup_drop, Ed. reflexivity. }
      destruct (isContextToken arg) eqn:Htok.
      * injection H as _ <-. split; [lia|right; eauto].
      * destruct (parseFlag (arg :: tail)) as [[flag n]|e] eqn:Hf; [|discriminate H].
        apply parseFlag_consumed in Hf. rewrite <- Ed, length_drop in Hf.
        apply IH in H as [Hle Hstop]; [|lia]. split; [lia|done].
Qed.

Lemma parseSubContext_flags_bound (bound : nat) (args : list string) (c : nat)
    (flags : list Flag) :
  (length args - c < bound)%nat ->
  parseSubContext_flags bound args c flags <> Err LoopBound.
Proof.
  revert c flags. induction bound as [|bound IH]; intros c flags Hb; [lia|].
  cbn [parseSubContext_flags].
  destruct (drop c args) as [|arg tail] eqn:Ed; [done|].
  destruct (isContextToken arg); [done|].
  destruct (parseFlag (arg :: tail)) as [[flag n]|e] eqn:Hf.
  - apply parseFlag_consumed in Hf. rewrite <- Ed, length_drop in Hf.
    apply IH. lia.
  - apply parseFlag_error in Hf. intros [= ->]. by destruct Hf as [|[|]].
Qed.

Section SubContextFacts.

Variable Getenv : string -> string.

(** A sub-context definition that parses has the header [-X --long
    description]; its node has no sub-contexts; the definition ends at the
    end of the tokens or in front of the next context token. *)
Lemma parseSubContext_Ok (args : list string) (subCtx : PluginContext) (consumed : nat) :
  parseSubContext Getenv args = Ok (subCtx, consumed) ->
  (exists a0 a1 a2 tail ch,
     args = a0 :: a1 :: a2 :: tail /\
     byteAt a0 1 = Some ch /\ HasPrefix a1 "--" = true /\
     subCtx = {| Context := ch; ContextLong := TrimPrefix a1 "--";
                 Description := a2; Script := Getenv "WSH_PLUGIN_SCRIPT";
                 Flags := Flags subCtx; SubContexts := ∅ |}) /\
  (3 <= consumed <= length args)%nat /\
  (consumed = length args \/
   exists tok, args !! consumed = Some tok /\ isContextToken tok = true).
Proof.
  unfold parseSubContext. destruct args as [|a0 [|a1 [|a2 tail]]]; try discriminate.
  set (args := a0 :: a1 :: a2 :: tail).
  destruct (byteAt a0 1) as [ch|] eqn:Hch; [|discriminate].
  destruct (HasPrefix a1 "--") eqn:Hlong; [|discriminate]. cbn [negb].
  destruct (parseSubContext_flags (length args) args 3 []) as [[flags c']|e] eqn:Hf;
    [|discriminate].
  intros [= <- <-].
  apply parseSubContext_flags_stop in Hf as [Hle Hstop]; [|simpl; lia].
  split; [|split; [lia|done]].
  by exists a0, a1, a2, tail, ch.
Qed.

Lemma parseSubContext_bound (args : list string) :
  parseSubContext Getenv args <> Err LoopBound.
Proof.
  unfold parseSubContext. destruct args as [|a0 [|a1 [|a2 tail]]]; try discriminate.
  set (args := a0 :: a1 :: a2 :: tail).
  destruct (byteAt a0 1) as [ch|]; [|discriminate].
  destruct (negb (HasPrefix a1 "--")); [discriminate|].
  pose proof (parseSubContext_flags_bound (length args) args 3 []) as Hb.
  destruct (parseSubContext_flags (length args) args 3 []) as [[flags c']|e];
    [discriminate|].
  intros [= ->]. apply Hb; [|done]. simpl. lia.
Qed.

Lemma parseFlagsAndSubContexts_loop_leaves (bound : nat) (args : list string)
    (flags flags' : list Flag) (subs subs' : gmap Z PluginContext) :
  leaves subs ->
  parseFlagsAndSubContexts_loop Getenv bound args flags subs = Ok (flags', subs') ->
  leaves subs'.
Proof.
  revert args flags subs. induction bound as [|bound IH]; intros args flags subs Hl H.
  - discriminate H.
  - cbn [parseFlagsAndSubContexts_loop] in H.
    destruct args as [|arg tail]; [by injection H as _ <-|].
    destruct (isContextToken arg) eqn:Htok.
    + destruct (parseSubContext Getenv (arg :: tail)) as [[subCtx consumed]|e] eqn:Hs;
        [|discriminate H].
      apply IH in H; [done|].
      apply parseSubContext_Ok in Hs as [(a0 & a1 & a2 & tl & ch & Ha & Hch & _ & Hsub) _].
      injection Ha as <- _.
      intros k s Hk. apply lookup_insert_Some in Hk as [[<- <-]|[_ Hk]]; [|by apply Hl].
      rewrite Hsub. cbn [Context SubContexts]. repeat split.
      unfold isContextToken in Htok. rewrite Hch in Htok.
      by apply andb_prop in Htok as [_ Htok].
    + destruct (parseFlag (arg :: tail)) as [[flag consumed]|e]; [|discriminate H].
      by apply IH in H.
Qed.

Lemma parseFlagsAndSubContexts_loop_bound (bound : nat) (args : list string)
    (flags : list Flag) (subs : gmap Z PluginContext) :
  (length args < bound)%nat ->
  parseFlagsAndSubContexts_loop Getenv bound args flags subs <> Err LoopBound /\
  parseFlagsAndSubContexts_loop Getenv bound args flags subs
    <> Err (InSubContext LoopBound).
Proof.
  revert args flags subs. induction bound as [|bound IH]; intros args flags subs Hb;
    [lia|].
  cbn [parseFlagsAndSubContexts_loop].
  destruct args as [|arg tail]; [done|].
  destruct (isContextToken arg).
  - pose proof (parseSubContext_bound (arg :: tail)) as Hnb.
    destruct (parseSubContext Getenv (arg :: tail)) as [[subCtx consumed]|e] eqn:Hs.
    + apply parseSubContext_Ok in Hs as (_ & Hc & _).
      apply IH. rewrite length_drop. simpl in Hb, Hc |- *. lia.
    + split; [discriminate|]. intros [= ->]. by apply Hnb.
  - destruct (parseFlag (arg :: tail)) as [[flag consumed]|e] eqn:Hf.
    + apply parseFlag_consumed in Hf.
      apply IH. rewrite length_drop. simpl in Hb, Hf |- *. lia.
    + split; discriminate.
Qed.

End SubContextFacts.

(** C6 (amended).  A token [-X] with a capital [X] after the header opens a
    sub-context definition.  Such a definition has the header
    [-X --long description] and no other form: without the long name it is
    rejected.  It goes on with flag definitions only and ends at the end of
    the tokens or in front of the next context token, where the loop of the
    enclosing definition goes on with the same flags and sub-contexts plus the
    new one.  So every sub-context of a parsed definition is bound to its own
    capital letter and has no sub-contexts of its own.  Neither loop of the
    model reaches its bound. *)
Theorem parseSubContext_grammar
    (Getenv : string -> string) (up low : rune -> rune) :
  (forall args subCtx consumed,
     parseSubContext Getenv args = Ok (subCtx, consumed) ->
     (exists a0 a1 a2 tail ch,
        args = a0 :: a1 :: a2 :: tail /\
        byteAt a0 1 = Some ch /\ HasPrefix a1 "--" = true /\
        Context subCtx = ch /\ ContextLong subCtx = TrimPrefix a1 "--" /\
        Description subCtx = a2 /\ SubContexts subCtx = ∅) /\
     (3 <= consumed <= length args)%nat /\
     (consumed = length args \/
      exists tok, args !! consumed = Some tok /\ isContextToken tok = true)) /\
  (forall a0 a1 a2 tail,
     HasPrefix a1 "--" = false ->
     exists e, parseSubContext Getenv (a0 :: a1 :: a2 :: tail) = Err e) /\
  (forall args,
     (length args < 3)%nat -> parseSubContext Getenv args = Err SubContextNeedsAtLeast) /\
  (forall a0 a1 a2 tail ch,
     byteAt a0 1 = Some ch -> HasPrefix a1 "--" = true ->
     (tail = [] \/ exists tok tail', tail = tok :: tail' /\ isContextToken tok = true) ->
     parseSubContext Getenv (a0 :: a1 :: a2 :: tail) =
       Ok ({| Context := ch; ContextLong := TrimPrefix a1 "--"; Description := a2;
              Script := Getenv "WSH_PLUGIN_SCRIPT"; Flags := [];
              SubContexts := ∅ |}, 3%nat)) /\
  (forall bound arg tail flags subs subCtx consumed,
     isContextToken arg = true ->
     parseSubContext Getenv (arg :: tail) = Ok (subCtx, consumed) ->
     parseFlagsAndSubContexts_loop Getenv (S bound) (arg :: tail) flags subs =
       parseFlagsAndSubContexts_loop Getenv bound (drop consumed (arg :: tail)) flags
         (<[Context subCtx := subCtx]> subs)) /\
  (forall args ctx,
     parsePluginDefinition Getenv up low args = Ok ctx -> leaves (SubContexts ctx)) /\
  (forall args,
     parseSubContext Getenv args <> Err LoopBound /\
     parseFlagsAndSubContexts Getenv args <> Err LoopBound /\
     parseFlagsAndSubContexts Getenv args <> Err (InSubContext LoopBound)).
Proof.
  split; [|split; [|split; [|split; [|split; [|split]]]]].
  - intros args subCtx consumed H.
    apply parseSubContext_Ok in H as [(a0 & a1 & a2 & tail & ch & Ha & Hch & Hl & Hs) Hrest].
    split; [|done]. exists a0, a1, a2, tail, ch. rewrite Hs. by cbn.
  - intros a0 a1 a2 tail Hl. unfold parseSubContext. rewrite Hl. cbn [negb].
    destruct (byteAt a0 1); by eexists.
  - intros args Hlen. unfold parseSubContext.
    destruct args as [|a0 [|a1 [|a2 tail]]]; try done. simpl in Hlen. lia.
  - intros a0 a1 a2 tail ch Hch Hl Htail. unfold parseSubContext.
    rewrite Hch, Hl.
    destruct Htail as [->|(tok & tail' & -> & Htok)];
      cbn [negb length parseSubContext_flags drop]; [done|]. by rewrite Htok.
  - intros bound arg tail flags subs subCtx consumed Htok Hs.
    cbn [parseFlagsAndSubContexts_loop]. by rewrite Htok, Hs.
  - intros args ctx H. unfold parsePluginDefinition in H.
    assert (Hfin : forall short long description rest,
              finishDefinition Getenv short long description rest = Ok ctx ->
              leaves (SubContexts ctx)).
    { intros short long description rest Hf. unfold finishDefinition in Hf.
      destruct ((short =? 0) && String.eqb long ""); [discriminate Hf|].
      destruct (parseFlagsAndSubContexts Getenv rest) as [[flags subs]|e] eqn:Hp;
        [|discriminate Hf].
      injection Hf as <-. cbn [SubContexts].
      apply (parseFlagsAndSubContexts_loop_leaves Getenv _ _ _ _ _ _
               ltac:(intros k s Hk; by rewrite lookup_empty in Hk) Hp). }
    destruct args as [|a0 [|a1 rest]]; try discriminate H.
    destruct (HasPrefix a0 "--").
    + destruct (0 <? len (TrimPrefix a0 "--")); [|by eapply Hfin].
      destruct (strings_ToUpper up (TrimPrefix a0 "--")); [discriminate H|].
      by eapply Hfin.
    + destruct (HasPrefix a0 "-" && (len a0 =? 2)); [|discriminate H].
      destruct (byteAt a0 1) as [ch|]; [|discriminate H].
      destruct ((ch <? 65) || (90 <? ch)); [discriminate H|].
      destruct (HasPrefix a1 "--"); [|by eapply Hfin].
      destruct rest as [|a2 rest]; [discriminate H|]. by eapply Hfin.
  - intros args. split; [apply parseSubContext_bound|].
    apply parseFlagsAndSubContexts_loop_bound. lia.
Qed.

(** The sub-context of [TestParsePluginDefinition_WithSubContext], followed by
    a second one. *)
Lemma parseSubContext_grammar_witness :
  exists subCtx,
    parseSubContext loaderEnv
      ["-O"; "--overtime"; "Overtime calculations";
       "-s"; "--start"; "time"; "Start time"; "-W"; "--weekly"; "Weekly hours"]
      = Ok (subCtx, 7%nat) /\
    Flags subCtx = [startFlag] /\ SubContexts subCtx = ∅ /\
    (["-O"; "--overtime"; "Overtime calculations";
      "-s"; "--start"; "time"; "Start time"; "-W"; "--weekly"; "Weekly hours"]
       : list string) !! 7%nat = Some "-W".
Proof.
  eexists. split; [reflexivity|]. split; [reflexivity|].
  destruct (proj1 (parseSubContext_grammar loaderEnv noCase noCase)
              ["-O"; "--overtime"; "Overtime calculations";
               "-s"; "--start"; "time"; "Start time"; "-W"; "--weekly"; "Weekly hours"]
              _ 7%nat eq_refl) as [(a0 & a1 & a2 & tail & ch & _ & _ & _ & _ & _ & _ & Hs) _].
  split; [exact Hs|reflexivity].
Defined.

(** The header [-O description] is a definition on its own, but not a
    sub-context; and a context token inside a sub-context opens a second
    sub-context of the enclosing definition, not a nested one. *)
Lemma parseSubContext_not_same_grammar :
  (exists ctx,
     parsePluginDefinition loaderEnv noCase noCase
       ["-O"; "Overtime calculations"; "-s"; "--start"; "time"; "Start time"] = Ok ctx /\
     Context ctx = 79 /\ Flags ctx = [startFlag]) /\
  parsePluginDefinition loaderEnv noCase noCase
    ["-T"; "--time"; "Time tracking";
     "-O"; "Overtime calculations"; "-s"; "--start"; "time"; "Start time"]
    = Err (InSubContext (ExpectedLongForSubContext "Overtime calculations")) /\
  (exists ctx o w,
     parsePluginDefinition loaderEnv noCase noCase
       ["-T"; "--time"; "Time tracking";
        "-O"; "--overtime"; "Overtime calculations";
        "-W"; "--weekly"; "Weekly hours"] = Ok ctx /\
     SubContexts ctx !! 79 = Some o /\ SubContexts ctx !! 87 = Some w /\
     SubContexts o = ∅).
Proof.
  split; [|split].
  - eexists. split; [reflexivity|]. split; reflexivity.
  - reflexivity.
  - eexists. eexists. eexists. split; [reflexivity|]. split; [reflexivity|].
    split; reflexivity.
Qed.

(** * Further properties *)

(** ** UTF-8: encoding a rune and decoding it again *)

Lemma lor_add_low (hi lo n : Z) :
  0 <= n -> 0 <= lo < 2 ^ n -> hi mod 2 ^ n = 0 -> Z.lor hi lo = hi + lo.
Proof.
  intros Hn Hlo Hhi.
  assert (Hand : Z.land hi lo = 0).
  { apply Z.bits_inj'; intros i Hi; rewrite Z.land_spec, Z.bits_0.
    destruct (Z.lt_ge_cases i n) as [Hlt|Hge].
    - rewrite <- (Z.mod_pow2_bits_low hi n i), Hhi, Z.bits_0 by lia. reflexivity.
    - destruct (Z.eq_dec lo 0) as [->|Hne]; [rewrite Z.bits_0; apply andb_false_r|].
      rewrite (Z.bits_above_log2 lo i), andb_false_r; try reflexivity; try lia.
      apply Z.lt_le_trans with n; [apply Z.log2_lt_pow2; lia|lia]. }
  rewrite <- Z.lxor_lor, <- Z.add_nocarry_lxor; auto.
Qed.

Lemma land_low (x n : Z) : 0 <= n -> Z.land x (2 ^ n - 1) = x mod 2 ^ n.
Proof.
  intros Hn. rewrite <- Z.land_ones by lia. f_equal.
  rewrite Z.ones_equiv. lia.
Qed.

Lemma land_63 (x : Z) : Z.land x 63 = x mod 64.
Proof. exact (land_low x 6 ltac:(lia)). Qed.

Lemma land_31 (x : Z) : Z.land x 31 = x mod 32.
Proof. exact (land_low x 5 ltac:(lia)). Qed.

Lemma land_15 (x : Z) : Z.land x 15 = x mod 16.
Proof. exact (land_low x 4 ltac:(lia)). Qed.

Lemma land_7 (x : Z) : Z.land x 7 = x mod 8.
Proof. exact (land_low x 3 ltac:(lia)). Qed.

Lemma shiftl_6 (x : Z) : Z.shiftl x 6 = x * 64.
Proof. exact (Z.shiftl_mul_pow2 x 6 ltac:(lia)). Qed.

Lemma shiftl_12 (x : Z) : Z.shiftl x 12 = x * 4096.
Proof. exact (Z.shiftl_mul_pow2 x 12 ltac:(lia)). Qed.

Lemma shiftl_18 (x : Z) : Z.shiftl x 18 = x * 262144.
Proof. exact (Z.shiftl_mul_pow2 x 18 ltac:(lia)). Qed.

Lemma shiftr_6 (x : Z) : Z.shiftr x 6 = x / 64.
Proof. exact (Z.shiftr_div_pow2 x 6 ltac:(lia)). Qed.

Lemma shiftr_12 (x : Z) : Z.shiftr x 12 = x / 4096.
Proof. exact (Z.shiftr_div_pow2 x 12 ltac:(lia)). Qed.

Lemma shiftr_18 (x : Z) : Z.shiftr x 18 = x / 262144.
Proof. exact (Z.shiftr_div_pow2 x 18 ltac:(lia)). Qed.

Lemma lor_low (hi lo n : Z) :
  0 <= lo < n -> n = 2 ^ Z.log2 n -> hi mod n = 0 -> Z.lor hi lo = hi + lo.
Proof.
  intros Hlo Hn Hhi. apply lor_add_low with (Z.log2 n).
  - apply Z.log2_nonneg.
  - by rewrite <- Hn.
  - by rewrite <- Hn.
Qed.

Lemma between_spec (lo hi b : Z) : between lo hi b = true <-> lo <= b <= hi.
Proof. unfold between. rewrite andb_true_iff, !Z.leb_le. reflexivity. Qed.

Lemma between_false (lo hi b : Z) : between lo hi b = false <-> b < lo \/ hi < b.
Proof. unfold between. rewrite andb_false_iff, !Z.leb_gt. reflexivity. Qed.

Lemma runes_1 (b0 : Z) (s : string) :
  0 <= b0 <= 127 -> runes (String (byte_of_Z b0) s) = b0 :: runes s.
Proof.
  intros H. cbn [runes]. rewrite rune_of_byte_of_Z by lia.
  unfold utf8_width; cmp_cases; reflexivity.
Qed.

Lemma runes_2 (b0 b1 : Z) (s : string) :
  194 <= b0 <= 223 -> 128 <= b1 <= 191 ->
  runes (String (byte_of_Z b0) (String (byte_of_Z b1) s))
  = (b0 mod 32 * 64 + b1 mod 64) :: runes s.
Proof.
  intros H0 H1. cbn [runes]. rewrite !rune_of_byte_of_Z by lia.
  assert (Hw : utf8_width b0 = 2%nat).
  { unfold utf8_width; cmp_cases; reflexivity. }
  rewrite Hw.
  assert (Hb : between (utf8_lo b0) (utf8_hi b0) b1 = true).
  { apply between_spec. unfold utf8_lo, utf8_hi. cmp_cases. }
  rewrite Hb. f_equal.
  rewrite land_31, land_63, shiftl_6.
  apply lor_low with 64; [apply Z.mod_pos_bound; lia|reflexivity|apply Z_mod_mult].
Qed.

Lemma cont_true (b : Z) : 128 <= b <= 191 -> utf8_cont b = true.
Proof. intros H. by apply between_spec. Qed.

Lemma runes_3 (b0 b1 b2 : Z) (s : string) :
  224 <= b0 <= 239 -> utf8_lo b0 <= b1 <= utf8_hi b0 -> 128 <= b2 <= 191 ->
  runes (String (byte_of_Z b0) (String (byte_of_Z b1) (String (byte_of_Z b2) s)))
  = (b0 mod 16 * 4096 + (b1 mod 64 * 64 + b2 mod 64)) :: runes s.
Proof.
  intros H0 H1 H2.
  assert (128 <= b1 <= 191).
  { revert H1. unfold utf8_lo, utf8_hi. cmp_cases. }
  cbn [runes]. rewrite !rune_of_byte_of_Z by lia.
  assert (Hw : utf8_width b0 = 3%nat).
  { unfold utf8_width; cmp_cases; reflexivity. }
  rewrite Hw.
  rewrite (proj2 (between_spec _ _ _) H1), cont_true by lia. cbn [andb]. f_equal.
  rewrite land_15, !land_63, shiftl_6, shiftl_12.
  pose proof (Z.mod_pos_bound b1 64). pose proof (Z.mod_pos_bound b2 64).
  rewrite (lor_low (b1 mod 64 * 64) _ 64); [|lia|reflexivity|apply Z_mod_mult].
  apply lor_low with 4096; [lia|reflexivity|apply Z_mod_mult].
Qed.

Lemma runes_4 (b0 b1 b2 b3 : Z) (s : string) :
  240 <= b0 <= 244 -> utf8_lo b0 <= b1 <= utf8_hi b0 -> 128 <= b2 <= 191 ->
  128 <= b3 <= 191 ->
  runes (String (byte_of_Z b0) (String (byte_of_Z b1)
           (String (byte_of_Z b2) (String (byte_of_Z b3) s))))
  = (b0 mod 8 * 262144 + (b1 mod 64 * 4096 + (b2 mod 64 * 64 + b3 mod 64)))
    :: runes s.
Proof.
  intros H0 H1 H2 H3.
  assert (128 <= b1 <= 191).
  { revert H1. unfold utf8_lo, utf8_hi. cmp_cases. }
  cbn [runes]. rewrite !rune_of_byte_of_Z by lia.
  assert (Hw : utf8_width b0 = 4%nat).
  { unfold utf8_width; cmp_cases; reflexivity. }
  rewrite Hw.
  rewrite (proj2 (between_spec _ _ _) H1), !cont_true by lia. cbn [andb]. f_equal.
  rewrite land_7, !land_63, shiftl_6, shiftl_12, shiftl_18.
  pose proof (Z.mod_pos_bound b1 64). pose proof (Z.mod_pos_bound b2 64).
  pose proof (Z.mod_pos_bound b3 64).
  rewrite (lor_low (b2 mod 64 * 64) _ 64); [|lia|reflexivity|apply Z_mod_mult].
  rewrite (lor_low (b1 mod 64 * 4096) _ 4096); [|lia|reflexivity|apply Z_mod_mult].
  apply lor_low with 262144; [lia|reflexivity|apply Z_mod_mult].
Qed.

Lemma append_cons (c : ascii) (s t : string) :
  String.append (String c s) t = String c (String.append s t).
Proof. reflexivity. Qed.

Lemma append_empty (t : string) : String.append "" t = t.
Proof. reflexivity. Qed.

Lemma runes_string_of_rune (r : rune) (s : string) :
  runes (String.append (string_of_rune r) s) = decoded r :: runes s.
Proof.
  unfold string_of_rune, decoded, validRune.
  destruct (between 0 127 r) eqn:H1.
  { apply between_spec in H1. rewrite ?append_cons, append_empty.
    rewrite runes_1 by lia. f_equal.
    rewrite (proj2 (between_spec 0 55295 r)) by lia. reflexivity. }
  apply between_false in H1.
  destruct (between 128 2047 r) eqn:H2.
  { apply between_spec in H2. rewrite ?append_cons, append_empty.
    rewrite (proj2 (between_spec 0 55295 r)) by lia. cbn [orb].
    rewrite land_63, shiftr_6.
    pose proof (Z.mod_pos_bound r 64).
    rewrite (lor_low 192 _ 64), (lor_low 128 _ 64); try reflexivity; try divlia.
    rewrite runes_2 by divlia. f_equal. divlia. }
  apply between_false in H2.
  destruct ((r <? 0) || (1114111 <? r) || between 55296 57343 r) eqn:H3.
  { assert (Hinv : between 0 55295 r || between 57344 1114111 r = false).
    { apply orb_false_iff. rewrite !between_false.
      apply orb_true_iff in H3 as [H3|H3];
        [apply orb_true_iff in H3 as [H3|H3]; apply Z.ltb_lt in H3
        |apply between_spec in H3]; divlia. }
    rewrite Hinv, !append_cons, append_empty. reflexivity. }
  apply orb_false_iff in H3 as [H3 H5]. apply orb_false_iff in H3 as [H3 H4].
  apply Z.ltb_ge in H3, H4. apply between_false in H5.
  assert (Hval : between 0 55295 r || between 57344 1114111 r = true).
  { apply orb_true_iff. rewrite !between_spec. divlia. }
  rewrite Hval.
  pose proof (Z.mod_pos_bound r 64).
  destruct (Z.leb_spec r 65535); rewrite ?append_cons, append_empty.
  - rewrite !land_63, shiftr_6, shiftr_12.
    pose proof (Z.mod_pos_bound (r / 64) 64).
    rewrite (lor_low 224 _ 16), !(lor_low 128 _ 64); try reflexivity; try divlia.
    rewrite runes_3; try divlia.
    + f_equal. divlia.
    + unfold utf8_lo, utf8_hi; cmp_cases; divlia.
  - rewrite !land_63, shiftr_6, shiftr_12, shiftr_18.
    pose proof (Z.mod_pos_bound (r / 64) 64).
    pose proof (Z.mod_pos_bound (r / 4096) 64).
    rewrite (lor_low 240 _ 8), !(lor_low 128 _ 64); try reflexivity; try divlia.
    rewrite runes_4; try divlia.
    + f_equal. divlia.
    + unfold utf8_lo, utf8_hi; cmp_cases; divlia.
Qed.

Lemma runes_formatContextPath (path : list rune) :
  runes (formatContextPath path) = List.map decoded path.
Proof.
  induction path as [|r path IH]; [reflexivity|].
  cbn [formatContextPath fold_right List.map].
  rewrite runes_string_of_rune. f_equal. exact IH.
Qed.

Lemma decoded_valid (r : rune) : validRune r = true -> decoded r = r.
Proof. intros H. unfold decoded. by rewrite H. Qed.

(** X1 -- [formatContextPath] and the decoding of a token into runes are
    inverse to each other on Unicode scalar values: the runes of the
    formatted path are the path itself when every rune of it is valid (in
    [0, 0xD7FF] or [0xE000, 0x10FFFF]); any other rune comes back as
    U+FFFD. *)
Theorem formatContextPath_round_trip (path : list rune) :
  runes (formatContextPath path) = List.map decoded path /\
  (Forall (fun r => validRune r = true) path ->
   runes (formatContextPath path) = path).
Proof.
  split; [apply runes_formatContextPath|].
  intros Hvalid. rewrite runes_formatContextPath.
  induction Hvalid as [|r path Hr _ IH]; [reflexivity|].
  cbn [List.map]. by rewrite decoded_valid, IH.
Qed.

(** ** The argument resolution engine: the help request *)

Section ParseHelp.

Variable range : gmap Z PluginContext -> list (Z * PluginContext).
Variable r : PluginRegistry.

Lemma defaultToShell_help (cur : option PluginContext) (res : ParseResult) :
  defaultToShell r cur (setShowHelp res) =
    ((defaultToShell r cur res).1, setShowHelp (defaultToShell r cur res).2).
Proof.
  unfold defaultToShell. destruct cur; [done|]. by destruct (Lookup r [83]).
Qed.

Lemma parseCluster_help (flags : list rune) (next : option string)
    (cur : option PluginContext) (res : ParseResult) :
  parseCluster r flags next cur (setShowHelp res) =
    onCluster setShowHelp (parseCluster r flags next cur res).
Proof.
  revert cur res. induction flags as [|ch flags IH]; intros cur res; [done|].
  rewrite !parseCluster_cons.
  destruct (ch =? 104); [apply (IH cur (setShowHelp res))|].
  destruct (isUpper ch).
  - destruct (subContextOf cur ch) as [subCtx|].
    { apply (IH (Some subCtx) (setContext (ContextPath res ++ [ch]) subCtx res)). }
    destruct (Lookup r [ch]) as [ctx|]; [|done].
    apply (IH (Some ctx) (setContext [ch] ctx res)).
  - rewrite defaultToShell_help. cbn [fst snd]. unfold flagStep.
    destruct (findFlagInContext ch (defaultToShell r cur res).1) as [flag|]; [|done].
    destruct (negb (String.eqb (ArgName flag) "")).
    + destruct flags; [|done]. by destruct next.
    + apply (IH _ (setFlag (flagKey flag) "true" (defaultToShell r cur res).2)).
Qed.

Lemma matchLongFlag_help (name : string) (cur : option PluginContext)
    (res : ParseResult) (next : option string) :
  matchLongFlag name cur (setShowHelp res) next =
    match matchLongFlag name cur res next with
    | Some (res', consumed) => Some (setShowHelp res', consumed)
    | None => None
    end.
Proof.
  unfold matchLongFlag. destruct cur as [c|]; [|done].
  destruct (findLongFlag name (Flags c)) as [flag|]; [|done].
  destruct (negb (String.eqb (ArgName flag) "")); [|done]. by destruct next.
Qed.

Lemma parseArgs_help (args : list string) (cur : option PluginContext)
    (res : ParseResult) :
  parseArgs range r args cur (setShowHelp res) =
    onResult setShowHelp (parseArgs range r args cur res).
Proof.
  remember (length args) as n eqn:Hn.
  revert args cur res Hn.
  induction n as [n IH] using lt_wf_ind. intros args cur res Hn.
  destruct args as [|arg rest]; [done|].
  assert (Hrec : forall consumed cur1 res1,
            parseArgs range r (advance consumed rest) cur1 (setShowHelp res1) =
              onResult setShowHelp (parseArgs range r (advance consumed rest) cur1 res1)).
  { intros consumed cur1 res1.
    apply (IH (length (advance consumed rest))); [|done].
    subst n. pose proof (advance_length consumed rest). simpl. lia. }
  rewrite !parseArgs_cons. destruct (HasPrefix arg "--").
  - destruct (String.eqb (TrimPrefix arg "--") "help").
    { apply (Hrec false cur (setShowHelp res)). }
    rewrite defaultToShell_help. cbn [fst snd]. rewrite matchLongFlag_help.
    destruct (matchLongFlag (TrimPrefix arg "--") (defaultToShell r cur res).1
                (defaultToShell r cur res).2 (head rest)) as [[res2 consumed]|].
    { apply Hrec. }
    destruct (findContextByLong range r (TrimPrefix arg "--")
                (defaultToShell r cur res).1) as [ctx|]; [|done].
    apply (Hrec false (Some ctx)
             (setContext (ContextPath (defaultToShell r cur res).2 ++ [Context ctx])
                ctx (defaultToShell r cur res).2)).
  - destruct (HasPrefix arg "-" && (1 <? len arg)).
    + rewrite parseCluster_help.
      destruct (parseCluster r (runes (tail1 arg)) (head rest) cur res)
        as [[[cur1 res1] consumed]|e]; [|done].
      apply Hrec.
    + apply (Hrec false cur (appendArg arg res)).
Qed.

End ParseHelp.

(** X2 -- A help request changes nothing but the help mark of the result.
    From any state of the scan, the tokens that follow are resolved in the
    same way whether the mark is set or not: same error, or same contexts,
    flags and positional arguments.  So [--help] or [-h] in front of a
    command line gives the result of the command line without it, with the
    mark set. *)
Theorem Parse_help_independent
    (range : gmap Z PluginContext -> list (Z * PluginContext))
    (r : PluginRegistry) (args : list string) :
  (forall cur res,
     parseArgs range r args cur (setShowHelp res) =
       onResult setShowHelp (parseArgs range r args cur res)) /\
  Parse range r ("--help" :: args) = onResult setShowHelp (Parse range r args) /\
  Parse range r ("-h" :: args) = onResult setShowHelp (Parse range r args).
Proof.
  split; [|split].
  - intros cur res. apply parseArgs_help.
  - unfold Parse. rewrite parseArgs_cons.
    change (HasPrefix "--help" "--") with true.
    change (String.eqb (TrimPrefix "--help" "--") "help") with true.
    cbn iota. apply parseArgs_help.
  - unfold Parse. rewrite parseArgs_cons.
    change (HasPrefix "-h" "--") with false.
    change (HasPrefix "-h" "-" && (1 <? len "-h")) with true.
    change (runes (tail1 "-h")) with [104]. cbn iota.
    rewrite parseCluster_cons. change (104 =? 104) with true. cbn iota.
    cbn [parseCluster afterCluster advance]. apply parseArgs_help.
Qed.

(** ** The argument resolution engine: positional arguments and values *)

Lemma prefix_empty (s : string) : String.prefix "" s = true.
Proof. by destruct s. Qed.

Lemma isPositional_spec (arg : string) :
  isPositional arg = true ->
  HasPrefix arg "--" = false /\ HasPrefix arg "-" && (1 <? len arg) = false.
Proof.
  unfold isPositional, HasPrefix. destruct arg as [|c s]; [done|].
  cbn [String.prefix]. destruct (ascii_dec "-" c) as [<-|Hc]; [|done].
  rewrite prefix_empty. cbn [negb orb]. intros H.
  apply String.eqb_eq in H. by injection H as ->.
Qed.

Section ParseProvenance.

Variable range : gmap Z PluginContext -> list (Z * PluginContext).
Variable r : PluginRegistry.

Lemma parseArgs_positional (args : list string) (cur : option PluginContext)
    (res : ParseResult) :
  Forall (fun a => isPositional a = true) args ->
  parseArgs range r args cur res =
    Ok {| ContextPath := ContextPath res; ResultContext := ResultContext res;
          ResultFlags := ResultFlags res; Args := Args res ++ args;
          ShowHelp := ShowHelp res |}.
Proof.
  intros Hall. revert res.
  induction Hall as [|arg rest Harg _ IH]; intros res.
  - cbn [parseArgs]. rewrite app_nil_r. by destruct res.
  - rewrite parseArgs_cons.
    destruct (isPositional_spec arg Harg) as [-> ->].
    rewrite IH. cbn [appendArg ContextPath ResultContext ResultFlags Args ShowHelp].
    by rewrite <- app_assoc.
Qed.

Lemma defaultToShell_Flags (cur : option PluginContext) (res : ParseResult) :
  ResultFlags (defaultToShell r cur res).2 = ResultFlags res.
Proof.
  unfold defaultToShell. destruct cur; [done|]. by destruct (Lookup r [83]).
Qed.

(** A value recorded by the scan of a cluster is ["true"] or the token that
    follows the cluster, and then that token counts as consumed. *)
Lemma parseCluster_values (flags : list rune) (next : option string)
    (cur cur' : option PluginContext) (res res' : ParseResult) (consumed : bool)
    (k v : string) :
  parseCluster r flags next cur res = Ok (cur', res', consumed) ->
  ResultFlags res' !! k = Some v ->
  ResultFlags res !! k = Some v \/ v = "true" \/ (consumed = true /\ next = Some v).
Proof.
  revert cur res. induction flags as [|ch flags IH]; intros cur res H Hv.
  - cbn in H. injection H as _ <- _. by left.
  - rewrite parseCluster_cons in H.
    destruct (ch =? 104); [apply (IH _ _ H Hv)|].
    destruct (isUpper ch).
    + destruct (subContextOf cur ch) as [subCtx|]; [apply (IH _ _ H Hv)|].
      destruct (Lookup r [ch]) as [ctx|]; [apply (IH _ _ H Hv)|discriminate H].
    + unfold flagStep in H. rewrite <- (defaultToShell_Flags cur res).
      destruct (findFlagInContext ch (defaultToShell r cur res).1) as [flag|];
        [|discriminate H].
      destruct (negb (String.eqb (ArgName flag) "")).
      * destruct flags; [|discriminate H].
        destruct next as [value|]; [|discriminate H]. injection H as _ <- <-.
        cbn [ResultFlags setFlag] in Hv.
        apply lookup_insert_Some in Hv as [[_ ->]|[_ Hv]]; [right; right|left]; done.
      * destruct (IH _ _ H Hv) as [Hold|Hnew]; [|by right].
        cbn [ResultFlags setFlag] in Hold.
        apply lookup_insert_Some in Hold as [[_ <-]|[_ Hold]]; [right; left|left]; done.
Qed.

Lemma matchLongFlag_values (name : string) (cur : option PluginContext)
    (res res' : ParseResult) (next : option string) (consumed : bool) (k v : string) :
  matchLongFlag name cur res next = Some (res', consumed) ->
  ResultFlags res' !! k = Some v ->
  ResultFlags res !! k = Some v \/ v = "true" \/ (consumed = true /\ next = Some v).
Proof.
  unfold matchLongFlag. intros H Hv. destruct cur as [c|]; [|discriminate H].
  destruct (findLongFlag name (Flags c)) as [flag|]; [|discriminate H].
  destruct (negb (String.eqb (ArgName flag) "")).
  - destruct next as [value|]; [|discriminate H]. injection H as <- <-.
    cbn [ResultFlags setFlag] in Hv.
    apply lookup_insert_Some in Hv as [[_ ->]|[_ Hv]]; [right; right|left]; done.
  - injection H as <- _. cbn [ResultFlags setFlag] in Hv.
    apply lookup_insert_Some in Hv as [[_ <-]|[_ Hv]]; [right; left|left]; done.
Qed.

Lemma advance_sublist (consumed : bool) (rest : list string) :
  sublist (advance consumed rest) rest.
Proof.
  destruct consumed; [|done]. destruct rest as [|a rest]; [done|].
  cbn. by apply sublist_cons.
Qed.

Lemma consumed_value (consumed : bool) (rest : list string) (v : string) :
  consumed = true /\ head rest = Some v -> v ∈ rest.
Proof.
  intros [_ H]. destruct rest as [|a rest]; [discriminate H|].
  injection H as ->. apply elem_of_cons. by left.
Qed.

End ParseProvenance.

(** The positional arguments that a scan adds are tokens of the input in
    their order, and a value that it records is ["true"] or a token of the
    input. *)
Lemma parseArgs_provenance
    (range : gmap Z PluginContext -> list (Z * PluginContext)) (r : PluginRegistry)
    (args : list string) (cur : option PluginContext) (res res' : ParseResult) :
  parseArgs range r args cur res = Ok res' ->
  (exists later, Args res' = (Args res ++ later)%list /\ sublist later args) /\
  (forall k v, ResultFlags res' !! k = Some v ->
     ResultFlags res !! k = Some v \/ v = "true" \/ v ∈ args).
Proof.
  remember (length args) as n eqn:Hn.
  revert args cur res Hn.
  induction n as [n IH] using lt_wf_ind. intros args cur res Hn H.
  destruct args as [|arg rest].
  { cbn in H. injection H as <-. split; [|by left].
    exists []. by rewrite app_nil_r. }
  assert (Hrec : forall consumed cur1 res1, Args res1 = Args res ->
            (forall k v, ResultFlags res1 !! k = Some v ->
               ResultFlags res !! k = Some v \/ v = "true" \/
               (consumed = true /\ head rest = Some v)) ->
            parseArgs range r (advance consumed rest) cur1 res1 = Ok res' ->
            (exists later, Args res' = (Args res ++ later)%list /\
               sublist later (arg :: rest)) /\
            (forall k v, ResultFlags res' !! k = Some v ->
               ResultFlags res !! k = Some v \/ v = "true" \/ v ∈ arg :: rest)).
  { intros consumed cur1 res1 Hargs Hflags H1.
    assert (Hlen : (length (advance consumed rest) < n)%nat).
    { subst n. pose proof (advance_length consumed rest). simpl. lia. }
    destruct (IH _ Hlen _ cur1 res1 eq_refl H1) as [[later [Hl Hsub]] Hval].
    split.
    - exists later. rewrite Hl, Hargs. split; [done|].
      apply sublist_cons. etrans; [exact Hsub|apply advance_sublist].
    - intros k v Hv. destruct (Hval k v Hv) as [H0|[H0|H0]].
      + destruct (Hflags k v H0) as [H2|[H2|H2]]; [by left|by right; left|].
        right; right. apply elem_of_cons. right. by apply (consumed_value consumed).
      + by right; left.
      + right; right. apply elem_of_cons. right.
        eapply elem_of_sublist; [exact H0|apply advance_sublist]. }
  rewrite parseArgs_cons in H. destruct (HasPrefix arg "--").
  - destruct (String.eqb (TrimPrefix arg "--") "help").
    { apply (Hrec false cur (setShowHelp res)); [done| |exact H]. by left. }
    destruct (matchLongFlag (TrimPrefix arg "--") (defaultToShell r cur res).1
                (defaultToShell r cur res).2 (head rest))
      as [[res2 consumed]|] eqn:Hm.
    + apply (Hrec consumed _ res2) with (3 := H).
      * apply matchLongFlag_Args in Hm. rewrite Hm. apply defaultToShell_Args.
      * intros k v Hv. rewrite <- (defaultToShell_Flags r cur res).
        exact (matchLongFlag_values _ _ _ _ _ _ _ _ Hm Hv).
    + destruct (findContextByLong range r (TrimPrefix arg "--")
                  (defaultToShell r cur res).1) as [ctx|]; [|discriminate H].
      apply (Hrec false (Some ctx)) with (3 := H).
      * apply defaultToShell_Args.
      * intros k v Hv. left. cbn [ResultFlags setContext] in Hv.
        by rewrite <- (defaultToShell_Flags r cur res).
  - destruct (HasPrefix arg "-" && (1 <? len arg)).
    + destruct (parseCluster r (runes (tail1 arg)) (head rest) cur res)
        as [[[cur1 res1] consumed]|e] eqn:Hc; [|discriminate H].
      apply (Hrec consumed cur1 res1) with (3 := H).
      * by apply parseCluster_Args in Hc.
      * intros k v Hv. exact (parseCluster_values _ _ _ _ _ _ _ _ _ _ Hc Hv).
    + assert (Hlen : (length rest < n)%nat) by (subst n; simpl; lia).
      destruct (IH _ Hlen _ cur (appendArg arg res) eq_refl H)
        as [[later [Hl Hsub]] Hval].
      split.
      * exists (arg :: later). split; [|by apply sublist_skip].
        rewrite Hl. cbn [Args appendArg]. by rewrite <- app_assoc.
      * intros k v Hv. destruct (Hval k v Hv) as [H0|[H0|H0]];
          [by left|by right; left|].
        right; right. apply elem_of_cons. by right.
Qed.

(** X3 -- A command line made of positional tokens only (tokens that do not
    start with a dash, and the dash alone) resolves without an error to no
    context at all: the tokens are the positional arguments of the result in
    their order, no flag is set, and the default to the shell context is
    not applied. *)
Theorem Parse_positional_only
    (range : gmap Z PluginContext -> list (Z * PluginContext))
    (r : PluginRegistry) (args : list string) :
  Forall (fun a => isPositional a = true) args ->
  Parse range r args =
    Ok {| ContextPath := []; ResultContext := None; ResultFlags := ∅;
          Args := args; ShowHelp := false |}.
Proof.
  intros Hall. unfold Parse. by rewrite parseArgs_positional.
Qed.

(** [status - notes.txt], with an empty token at the end. *)
Lemma Parse_positional_only_witness :
  Parse keyOrder timeRegistry ["status"; "-"; "notes.txt"; ""] =
    Ok {| ContextPath := []; ResultContext := None; ResultFlags := ∅;
          Args := ["status"; "-"; "notes.txt"; ""]; ShowHelp := false |}.
Proof.
  apply (Parse_positional_only keyOrder timeRegistry).
  repeat constructor.
Defined.

(** X4 -- [Parse] invents nothing.  When it succeeds, the positional
    arguments of the result are tokens of the command line, in the order of
    the command line (a sub-list of it), and the value of every flag of the
    result is the text ["true"] or a token of the command line. *)
Theorem Parse_never_invents
    (range : gmap Z PluginContext -> list (Z * PluginContext))
    (r : PluginRegistry) (args : list string) (result : ParseResult) :
  Parse range r args = Ok result ->
  sublist (Args result) args /\
  (forall key value, ResultFlags result !! key = Some value ->
     value = "true" \/ value ∈ args).
Proof.
  unfold Parse. intros H.
  destruct (parseArgs_provenance range r args None emptyResult result H)
    as [[later [Hl Hsub]] Hval].
  split.
  - by rewrite Hl.
  - intros key value Hv. destruct (Hval key value Hv) as [H0|H0]; [|done].
    cbn in H0. by rewrite lookup_empty in H0.
Qed.

(** [-Tf 7 notes.txt -o]: the value [7] and the argument [notes.txt]. *)
Lemma Parse_never_invents_witness :
  sublist (Args fromSevenResult) ["-Tf"; "7"; "notes.txt"; "-o"] /\
  (forall key value, ResultFlags fromSevenResult !! key = Some value ->
     value = "true" \/ value ∈ ["-Tf"; "7"; "notes.txt"; "-o"]).
Proof.
  apply (Parse_never_invents keyOrder timeRegistry ["-Tf"; "7"; "notes.txt"; "-o"]
           fromSevenResult).
  vm_compute. reflexivity.
Defined.

(** ** The argument resolution engine: a cluster of capitals and [Lookup] *)

Lemma decoded_upper (path : list rune) :
  Forall (fun ch => isUpper ch = true) path -> List.map decoded path = path.
Proof.
  induction 1 as [|ch path Hch _ IH]; [done|]. cbn [List.map]. rewrite IH.
  f_equal. apply decoded_valid. apply between_spec in Hch.
  unfold validRune. by rewrite (proj2 (between_spec 0 55295 ch)) by lia.
Qed.

Lemma parseCluster_walk (r : PluginRegistry) (path : list rune)
    (next : option string) (c ctx : PluginContext) (pth : list rune)
    (res0 : ParseResult) :
  Forall (fun ch => isUpper ch = true) path ->
  Lookup_walk c path = Some ctx ->
  parseCluster r path next (Some c) (setContext pth c res0) =
    Ok (Some ctx, setContext (pth ++ path) ctx res0, false).
Proof.
  intros Hall. revert c pth. induction Hall as [|ch path Hch _ IH]; intros c pth Hw.
  - cbn in Hw. injection Hw as <-. by rewrite app_nil_r.
  - rewrite parseCluster_cons, (isUpper_not_h ch Hch), Hch.
    cbn [Lookup_walk] in Hw. cbn [subContextOf].
    destruct (SubContexts c !! ch) as [subCtx|]; [|discriminate Hw].
    change (setContext (ContextPath (setContext pth c res0) ++ [ch]) subCtx
              (setContext pth c res0))
      with (setContext (pth ++ [ch])%list subCtx res0).
    rewrite (IH subCtx (pth ++ [ch])%list Hw). by rewrite <- app_assoc.
Qed.

Lemma capitals_token (ch : rune) (s : string) :
  isUpper ch = true ->
  isClusterToken (String "-" (String.append (string_of_rune ch) s)) = true.
Proof.
  intros Hch. pose proof Hch as Hr. apply between_spec in Hr.
  rewrite string_of_rune_ascii, append_cons, append_empty by lia.
  unfold isClusterToken, HasPrefix. cbn [String.prefix].
  destruct (ascii_dec "-" "-") as [_|Hne]; [|by destruct Hne].
  rewrite prefix_empty.
  destruct (ascii_dec "-" (byte_of_Z ch)) as [Heq|_].
  { assert (H45 : rune_of_byte (byte_of_Z ch) = 45) by (by rewrite <- Heq).
    rewrite rune_of_byte_of_Z in H45 by lia. lia. }
  unfold len. cbn [String.length negb andb]. apply Z.ltb_lt. lia.
Qed.

(** X5 -- [Parse] agrees with [Lookup] on a cluster of capitals.  When
    [Lookup] resolves the path [path], made of letters ['A'..'Z'], to a
    context, the token [-] followed by the letters of the path puts the scan
    on that context with [path] as context path, whatever follows; alone on
    the command line it resolves to that context with no flags and no
    arguments. *)
Theorem Parse_cluster_follows_Lookup
    (range : gmap Z PluginContext -> list (Z * PluginContext))
    (r : PluginRegistry) (path : list rune) (ctx : PluginContext)
    (rest : list string) :
  Forall (fun ch => isUpper ch = true) path ->
  Lookup r path = Some ctx ->
  Parse range r (String "-" (formatContextPath path) :: rest) =
    parseArgs range r rest (Some ctx) (setContext path ctx emptyResult) /\
  Parse range r [String "-" (formatContextPath path)] =
    Ok {| ContextPath := path; ResultContext := Some ctx; ResultFlags := ∅;
          Args := []; ShowHelp := false |}.
Proof.
  intros Hall Hl.
  assert (Hgen : forall rest',
            Parse range r (String "-" (formatContextPath path) :: rest') =
              parseArgs range r rest' (Some ctx) (setContext path ctx emptyResult)).
  { intros rest'. unfold Parse.
    pose proof (runes_formatContextPath path) as Hrunes.
    rewrite (decoded_upper path Hall) in Hrunes.
    destruct Hall as [|ch path' Hch Hall]; [discriminate Hl|].
    rewrite parseArgs_cluster
      by (cbn [formatContextPath fold_right]; by apply capitals_token).
    cbn [tail1]. rewrite Hrunes.
    rewrite parseCluster_cons, (isUpper_not_h ch Hch), Hch. cbn [subContextOf].
    unfold Lookup in Hl |- *.
    destruct (contexts r !! ch) as [c0|]; [|discriminate Hl]. cbn [Lookup_walk].
    by rewrite (parseCluster_walk r path' _ c0 ctx [ch] emptyResult Hall Hl). }
  split; [apply Hgen|]. by rewrite Hgen.
Qed.

(** [-TO] in the registry of the time plugin. *)
Lemma Parse_cluster_follows_Lookup_witness :
  Parse keyOrder timeRegistry [String "-" (formatContextPath [84; 79]); "-s"; "9"] =
    parseArgs keyOrder timeRegistry ["-s"; "9"] (Some overtimeCtx)
      (setContext [84; 79] overtimeCtx emptyResult) /\
  Parse keyOrder timeRegistry [String "-" (formatContextPath [84; 79])] =
    Ok {| ContextPath := [84; 79]; ResultContext := Some overtimeCtx;
          ResultFlags := ∅; Args := []; ShowHelp := false |}.
Proof.
  apply (Parse_cluster_follows_Lookup keyOrder timeRegistry [84; 79] overtimeCtx).
  - repeat constructor.
  - reflexivity.
Defined.

(** ** The argument resolution engine: a context given by its long name *)

Lemma firstByLong_Some (name : string) (ctxs : list (Z * PluginContext))
    (ctx : PluginContext) :
  firstByLong name ctxs = Some ctx ->
  ContextLong ctx = name /\ exists k, (k, ctx) ∈ ctxs.
Proof.
  induction ctxs as [|[k c] ctxs IH]; [discriminate|]. cbn [firstByLong].
  destruct (String.eqb (ContextLong c) name) eqn:E.
  - intros [= <-]. apply String.eqb_eq in E. split; [done|].
    exists k. by left.
  - intros H. destruct (IH H) as [Hn [k' Hin]]. split; [done|].
    exists k'. by right.
Qed.

Lemma firstByLong_found (name : string) (ctxs : list (Z * PluginContext))
    (k : Z) (ctx : PluginContext) :
  (k, ctx) ∈ ctxs -> ContextLong ctx = name ->
  exists ctx', firstByLong name ctxs = Some ctx'.
Proof.
  induction ctxs as [|[k0 c] ctxs IH]; intros Hin Hn.
  - by apply elem_of_nil in Hin.
  - cbn [firstByLong]. destruct (String.eqb (ContextLong c) name) eqn:E; [by exists c|].
    apply elem_of_cons in Hin as [[= -> ->]|Hin].
    + apply String.eqb_neq in E. by destruct E.
    + by apply IH.
Qed.

Lemma range_elem_of (range : gmap Z PluginContext -> list (Z * PluginContext))
    (m : gmap Z PluginContext) (k : Z) (ctx : PluginContext) :
  range_visits_all range -> (k, ctx) ∈ range m <-> m !! k = Some ctx.
Proof.
  intros Hrange. rewrite (Hrange m). apply elem_of_map_to_list.
Qed.

(** X6 -- [findContextByLong] when a map iteration visits every entry once,
    in whatever order.  A context that it returns has the long name asked
    for and is a sub-context of the cursor or a root context; it returns nil
    exactly when no sub-context of the cursor and no root context has that
    long name; and when some sub-context of the cursor has the long name,
    the context returned is a sub-context of the cursor, never a root of the
    same long name. *)
Theorem findContextByLong_spec
    (range : gmap Z PluginContext -> list (Z * PluginContext))
    (r : PluginRegistry) (longName : string) (currentCtx : option PluginContext) :
  range_visits_all range ->
  (forall ctx, findContextByLong range r longName currentCtx = Some ctx ->
     ContextLong ctx = longName /\
     ((exists c k, currentCtx = Some c /\ SubContexts c !! k = Some ctx) \/
      (exists k, contexts r !! k = Some ctx))) /\
  (findContextByLong range r longName currentCtx = None <->
     (forall c k ctx, currentCtx = Some c -> SubContexts c !! k = Some ctx ->
        ContextLong ctx <> longName) /\
     (forall k ctx, contexts r !! k = Some ctx -> ContextLong ctx <> longName)) /\
  (forall c k subCtx, currentCtx = Some c -> SubContexts c !! k = Some subCtx ->
     ContextLong subCtx = longName ->
     exists k' subCtx', findContextByLong range r longName currentCtx = Some subCtx' /\
       SubContexts c !! k' = Some subCtx').
Proof.
  intros Hrange. unfold findContextByLong. split; [|split].
  - intros ctx H. destruct currentCtx as [c|].
    + destruct (firstByLong longName (range (SubContexts c))) as [subCtx|] eqn:Hs.
      * injection H as ->. destruct (firstByLong_Some _ _ _ Hs) as [Hn [k Hin]].
        split; [done|]. left. exists c, k. split; [done|].
        by apply (range_elem_of range).
      * destruct (firstByLong_Some _ _ _ H) as [Hn [k Hin]].
        split; [done|]. right. exists k. by apply (range_elem_of range).
    + destruct (firstByLong_Some _ _ _ H) as [Hn [k Hin]].
      split; [done|]. right. exists k. by apply (range_elem_of range).
  - split.
    + intros H. split.
      * intros c k ctx -> Hk Hn.
        apply (range_elem_of range _ _ _ Hrange) in Hk.
        destruct (firstByLong_found _ _ _ _ Hk Hn) as [ctx' Hf].
        rewrite Hf in H. discriminate H.
      * intros k ctx Hk Hn.
        apply (range_elem_of range _ _ _ Hrange) in Hk.
        destruct (firstByLong_found _ _ _ _ Hk Hn) as [ctx' Hf].
        rewrite Hf in H. by destruct currentCtx as [c|];
          [destruct (firstByLong longName (range (SubContexts c)))|].
    + intros [Hsub Hroot]. rewrite (range_None range longName (contexts r) Hrange Hroot).
      destruct currentCtx as [c|]; [|done].
      rewrite (range_None range longName (SubContexts c) Hrange); [done|].
      intros k ctx. by apply Hsub.
  - intros c k subCtx -> Hk Hn.
    apply (range_elem_of range _ _ _ Hrange) in Hk.
    destruct (firstByLong_found _ _ _ _ Hk Hn) as [ctx' Hf]. rewrite Hf.
    destruct (firstByLong_Some _ _ _ Hf) as [_ [k' Hin]].
    exists k', ctx'. split; [done|]. by apply (range_elem_of range).
Qed.

(** [--overtime] with the cursor on [timeCtx]. *)
Lemma findContextByLong_spec_witness :
  range_visits_all keyOrder /\
  exists k' subCtx',
    findContextByLong keyOrder timeRegistry "overtime" (Some timeCtx) = Some subCtx' /\
    SubContexts timeCtx !! k' = Some subCtx'.
Proof.
  assert (H : range_visits_all keyOrder) by (by intros m).
  split; [exact H|].
  apply (proj2 (proj2 (findContextByLong_spec keyOrder timeRegistry "overtime"
                         (Some timeCtx) H)) timeCtx 79 overtimeCtx); reflexivity.
Defined.

(** ** The registry: what a registration keeps *)

Lemma Register_cases (r : PluginRegistry) (ctx : PluginContext) :
  (exists existing, contexts r !! Context ctx = Some existing /\
     (Register r ctx).1 = r) \/
  (contexts r !! Context ctx = None /\
   (Register r ctx).1 = {| contexts := <[Context ctx := ctx]> (contexts r) |}).
Proof.
  unfold Register. destruct (contexts r !! Context ctx) as [existing|] eqn:E.
  - left. exists existing. split; [done|].
    by destruct (String.eqb (Script existing) (Script ctx)).
  - by right.
Qed.

Lemma Register_binding (r : PluginRegistry) (ctx : PluginContext) (k : Z) :
  contexts (Register r ctx).1 !! k =
    match contexts r !! k with
    | Some old => Some old
    | None => if Context ctx =? k then Some ctx else None
    end.
Proof.
  destruct (Register_cases r ctx) as [[existing [Hex ->]]|[Hnone ->]].
  - destruct (contexts r !! k) as [old|] eqn:Hk; [done|].
    destruct (Z.eqb_spec (Context ctx) k) as [<-|_]; [congruence|done].
  - cbn [contexts]. destruct (Z.eqb_spec (Context ctx) k) as [<-|Hne].
    + by rewrite lookup_insert_eq, Hnone.
    + rewrite lookup_insert_ne by done. by destruct (contexts r !! k).
Qed.

Lemma Lookup_root (r r' : PluginRegistry) (path : list rune) (node : PluginContext) :
  (forall k old, contexts r !! k = Some old -> contexts r' !! k = Some old) ->
  Lookup r path = Some node -> Lookup r' path = Some node.
Proof.
  intros Hkeep. destruct path as [|ch path]; [done|]. unfold Lookup.
  destruct (contexts r !! ch) as [c|] eqn:Hc; [|done].
  by rewrite (Hkeep ch c Hc).
Qed.

Lemma Register_keeps (r : PluginRegistry) (ctx : PluginContext) (k : Z)
    (old : PluginContext) :
  contexts r !! k = Some old -> contexts (Register r ctx).1 !! k = Some old.
Proof. intros H. by rewrite Register_binding, H. Qed.

(** X7 -- What [Register] keeps.  A registration never removes or replaces
    a binding: every path that [Lookup] resolved before the call resolves to
    the same context after it, and the letters other than the one of the
    new context are bound as before.  After the call the letter of the new
    context is bound; when the call returns no error it is bound to a
    context of the same script, which is the context registered first and
    not always the one just given.  A registry in which every root is bound
    to its own letter stays so. *)
Theorem Register_keeps_bindings (r : PluginRegistry) (ctx : PluginContext) :
  (forall path node, Lookup r path = Some node ->
     Lookup (Register r ctx).1 path = Some node) /\
  (forall k, k <> Context ctx ->
     contexts (Register r ctx).1 !! k = contexts r !! k) /\
  (exists bound, contexts (Register r ctx).1 !! Context ctx = Some bound /\
     ((Register r ctx).2 = None -> Script bound = Script ctx) /\
     (contexts r !! Context ctx = None -> bound = ctx)) /\
  (wellKeyed (contexts r) -> wellKeyed (contexts (Register r ctx).1)).
Proof.
  split; [|split; [|split]].
  - intros path node. apply Lookup_root. intros k old. apply Register_keeps.
  - intros k Hk. rewrite Register_binding.
    destruct (contexts r !! k); [done|].
    destruct (Z.eqb_spec (Context ctx) k); [congruence|done].
  - rewrite Register_binding. unfold Register.
    destruct (contexts r !! Context ctx) as [existing|] eqn:E.
    + exists existing. split; [done|]. split; [|done].
      destruct (String.eqb (Script existing) (Script ctx)) eqn:Es; [|done].
      intros _. by apply String.eqb_eq.
    + exists ctx. by rewrite Z.eqb_refl.
  - intros Hwk k c. rewrite Register_binding.
    destruct (contexts r !! k) as [old|] eqn:Hk.
    + intros [= <-]. by apply Hwk.
    + destruct (Z.eqb_spec (Context ctx) k) as [<-|_]; [|done]. by intros [= <-].
Qed.

(** ** The registry after a series of registrations *)

Lemma registerAll_cons (r : PluginRegistry) (ctx : PluginContext)
    (ctxs : list PluginContext) :
  registerAll r (ctx :: ctxs) = registerAll (Register r ctx).1 ctxs.
Proof. reflexivity. Qed.

(** The first context of the series that claims a letter holds it, unless
    the letter was bound before the series. *)
Lemma registerAll_binding (r : PluginRegistry) (ctxs : list PluginContext) (k : Z) :
  contexts (registerAll r ctxs) !! k =
    match contexts r !! k with
    | Some old => Some old
    | None => List.find (fun c => Context c =? k) ctxs
    end.
Proof.
  revert r. induction ctxs as [|ctx ctxs IH]; intros r.
  - cbn. by destruct (contexts r !! k).
  - rewrite registerAll_cons, IH, Register_binding. cbn [List.find].
    destruct (contexts r !! k); [done|]. by destruct (Context ctx =? k).
Qed.

Lemma find_Some_elem_of (k : Z) (ctxs : list PluginContext) (c : PluginContext) :
  List.find (fun c => Context c =? k) ctxs = Some c -> c ∈ ctxs /\ Context c = k.
Proof.
  intros H. apply List.find_some in H as [Hin Hk].
  split; [by apply list_elem_of_In|lia].
Qed.

Lemma find_None_elem_of (k : Z) (ctxs : list PluginContext) :
  List.find (fun c => Context c =? k) ctxs = None <->
  forall c, c ∈ ctxs -> Context c <> k.
Proof.
  split.
  - intros H c Hin Hk. apply list_elem_of_In in Hin.
    pose proof (List.find_none _ _ H c Hin) as Hf. cbn in Hf. lia.
  - intros H. destruct (List.find (fun c => Context c =? k) ctxs) as [c|] eqn:E; [|done].
    apply find_Some_elem_of in E as [Hin Hk]. by destruct (H c Hin).
Qed.

(** ** The plugin loader: the scripts of the plugin directory *)

Lemma scanEntries_result (fs : FileSystem) (dir : string) (entries : list DirEntry)
    (scripts found : list string) :
  scanEntries fs dir entries scripts = Ok found ->
  found = (scripts ++ List.map (fun e => Join fs dir (EntryName e))
                        (List.filter isPluginEntry entries))%list.
Proof.
  revert scripts. induction entries as [|e entries IH]; intros scripts H.
  - cbn in H. injection H as <-. cbn. by rewrite app_nil_r.
  - cbn [scanEntries] in H. cbn [List.filter]. unfold isPluginEntry at 1.
    destruct (EntryIsDir e); [by apply IH|]. cbn [negb andb].
    destruct (byteAt (EntryName e) 0) as [b|]; [|discriminate H].
    destruct (b =? 46); [by apply IH|]. cbn [negb andb].
    destruct (EntryMode e) as [mode|]; [|by apply IH].
    destruct (negb (Z.land mode 73 =? 0)); [|by apply IH].
    rewrite (IH _ H). cbn [List.map]. by rewrite <- app_assoc.
Qed.

Lemma scanEntries_total (fs : FileSystem) (dir : string) (entries : list DirEntry)
    (scripts : list string) :
  Forall (fun e => EntryIsDir e = false -> EntryName e <> "") entries ->
  exists found, scanEntries fs dir entries scripts = Ok found.
Proof.
  intros Hall. revert scripts.
  induction Hall as [|e entries He _ IH]; intros scripts; [by exists scripts|].
  cbn [scanEntries]. destruct (EntryIsDir e); [apply IH|].
  destruct (EntryName e) as [|c name] eqn:En; [by destruct He|].
  cbn [byteAt String.get option_map]. destruct (rune_of_byte c =? 46); [apply IH|].
  destruct (EntryMode e) as [mode|]; [|apply IH].
  destruct (negb (Z.land mode 73 =? 0)); apply IH.
Qed.

(** X8 -- The scripts that [FindPluginScripts] returns.  A plugin directory
    that does not exist gives the empty list and no error.  Otherwise a
    returned list holds, in the order of the directory listing, the joined
    path of exactly those entries that are not directories, whose name does
    not start with a dot, and whose mode has an execute bit: a directory, a
    hidden file or a file without execute bit is never returned.  On a
    directory that can be read, whose files have non-empty names, the call
    succeeds. *)
Theorem FindPluginScripts_plugin_entries (fs : FileSystem) (dir : string) :
  (StatDir fs dir = StatNotExist -> FindPluginScripts fs dir = Ok []) /\
  (forall scripts, FindPluginScripts fs dir = Ok scripts ->
     (StatDir fs dir = StatNotExist /\ scripts = []) \/
     (exists entries, StatDir fs dir = StatInfo true /\
        ReadDir fs dir = Some entries /\
        scripts = List.map (fun e => Join fs dir (EntryName e))
                    (List.filter isPluginEntry entries))) /\
  (forall entries, StatDir fs dir = StatInfo true ->
     ReadDir fs dir = Some entries ->
     Forall (fun e => EntryIsDir e = false -> EntryName e <> "") entries ->
     FindPluginScripts fs dir =
       Ok (List.map (fun e => Join fs dir (EntryName e))
             (List.filter isPluginEntry entries))).
Proof.
  unfold FindPluginScripts. split; [|split].
  - by intros ->.
  - intros scripts H. destruct (StatDir fs dir) as [| |[|]]; try discriminate H.
    + injection H as <-. by left.
    + right. destruct (ReadDir fs dir) as [entries|]; [|discriminate H].
      exists entries. split; [done|]. split; [done|].
      by apply scanEntries_result in H.
  - intros entries -> -> Hall.
    destruct (scanEntries_total fs dir entries [] Hall) as [found Hf].
    rewrite Hf. by apply scanEntries_result in Hf as ->.
Qed.

(** ** The plugin loader: the registry after [LoadPlugins] *)

Section LoaderFacts.

Variable Getenv : string -> string.
Variable fs : FileSystem.
Variable executePlugin : string -> Result ExecError PluginContext.
Variable arrival : list (string * Result ExecError PluginContext)
                   -> list (string * Result ExecError PluginContext).
Hypothesis Harrival : arrives_all arrival.

Lemma arrival_elem_of (scripts : list string) (s : string)
    (o : Result ExecError PluginContext) :
  (s, o) ∈ arrival (List.map (fun s => (s, executePlugin s)) scripts) <->
  s ∈ scripts /\ o = executePlugin s.
Proof.
  rewrite (Harrival _), list_elem_of_In, in_map_iff. split.
  - intros [s' [[= -> ->] Hin]]. by apply list_elem_of_In in Hin.
  - intros [Hin ->]. exists s. by apply list_elem_of_In in Hin.
Qed.

Lemma sentContexts_elem_of (scripts : list string) (c : PluginContext) :
  c ∈ sentContexts (arrival (List.map (fun s => (s, executePlugin s)) scripts)) <->
  exists s, s ∈ scripts /\ executePlugin s = Ok c.
Proof.
  unfold sentContexts. rewrite list_elem_of_omap. split.
  - intros [[s o] [Hin Ho]]. apply arrival_elem_of in Hin as [Hin ->].
    exists s. split; [done|]. cbn in Ho. by destruct (executePlugin s) as [c'|]; simplify_eq.
  - intros [s [Hin Hs]]. exists (s, executePlugin s). split.
    + by apply arrival_elem_of.
    + cbn. by rewrite Hs.
Qed.

Lemma sentErrors_elem_of (scripts : list string) (e : LoaderError) :
  e ∈ sentErrors fs (arrival (List.map (fun s => (s, executePlugin s)) scripts)) <->
  exists s x, s ∈ scripts /\ executePlugin s = Err x /\ e = PluginError (Base fs s) x.
Proof.
  unfold sentErrors. rewrite list_elem_of_omap. split.
  - intros [[s o] [Hin Ho]]. apply arrival_elem_of in Hin as [Hin ->].
    cbn in Ho. destruct (executePlugin s) as [c'|x] eqn:E; simplify_eq.
    by exists s, x.
  - intros (s & x & Hin & Hs & ->). exists (s, executePlugin s). split.
    + by apply arrival_elem_of.
    + cbn. by rewrite Hs.
Qed.

Lemma LoadPlugins_found (registry : PluginRegistry) (scripts : list string) :
  FindPluginScripts fs (GetPluginDir Getenv) = Ok scripts ->
  LoadPlugins Getenv fs executePlugin arrival registry =
    (registerAll registry
       (sentContexts (arrival (List.map (fun s => (s, executePlugin s)) scripts))),
     head (sentErrors fs (arrival (List.map (fun s => (s, executePlugin s)) scripts)))).
Proof.
  intros Hfind. unfold LoadPlugins. rewrite Hfind.
  destruct scripts as [|s scripts]; [|done].
  cbn [List.map]. pose proof (Harrival []) as Hnil.
  apply Permutation_nil_r in Hnil. by rewrite Hnil.
Qed.

End LoaderFacts.

(** X9 -- The registry after [LoadPlugins], whatever the order in which
    the plugin scripts finish.  When the scripts are found: a letter that
    was bound before the call stays bound to the same context, so that no
    plugin displaces a built-in context or a plugin loaded earlier; a letter
    bound by the call is bound to a context that one of the scripts printed
    under that letter; and the letter of every context that a script
    printed is bound after the call.  The call returns nil exactly when no
    script failed, and an error that it returns is the error of one of the
    scripts; a letter claimed by two plugins is never an error.  When the
    scripts cannot be listed, the registry is left as it is. *)
Theorem LoadPlugins_registry
    (Getenv : string -> string) (fs : FileSystem)
    (executePlugin : string -> Result ExecError PluginContext)
    (arrival : list (string * Result ExecError PluginContext)
               -> list (string * Result ExecError PluginContext))
    (registry : PluginRegistry) :
  arrives_all arrival ->
  (forall scripts, FindPluginScripts fs (GetPluginDir Getenv) = Ok scripts ->
     let after := (LoadPlugins Getenv fs executePlugin arrival registry).1 in
     let err := (LoadPlugins Getenv fs executePlugin arrival registry).2 in
     (forall k old, contexts registry !! k = Some old ->
        contexts after !! k = Some old) /\
     (forall k c, contexts after !! k = Some c ->
        contexts registry !! k = Some c \/
        (contexts registry !! k = None /\ Context c = k /\
         exists s, s ∈ scripts /\ executePlugin s = Ok c)) /\
     (forall s c, s ∈ scripts -> executePlugin s = Ok c ->
        is_Some (contexts after !! Context c)) /\
     (err = None <-> forall s, s ∈ scripts -> exists c, executePlugin s = Ok c) /\
     (forall e, err = Some e ->
        exists s x, s ∈ scripts /\ executePlugin s = Err x /\
          e = PluginError (Base fs s) x)) /\
  (forall e, FindPluginScripts fs (GetPluginDir Getenv) = Err e ->
     LoadPlugins Getenv fs executePlugin arrival registry =
       (registry, Some (FindError e))).
Proof.
  intros Harrival. split; [|by unfold LoadPlugins; intros e ->].
  intros scripts Hfind after err. subst after err.
  rewrite (LoadPlugins_found Getenv fs executePlugin arrival Harrival registry
             scripts Hfind). cbn [fst snd].
  set (outcomes := arrival (List.map (fun s => (s, executePlugin s)) scripts)).
  split; [|split; [|split; [|split]]].
  - intros k old Hk. by rewrite registerAll_binding, Hk.
  - intros k c. rewrite registerAll_binding.
    destruct (contexts registry !! k) as [old|]; [by left|].
    intros Hf. right. apply find_Some_elem_of in Hf as [Hin Hk].
    split; [done|]. split; [done|].
    by apply (sentContexts_elem_of executePlugin arrival Harrival).
  - intros s c Hin Hs. rewrite registerAll_binding.
    destruct (contexts registry !! Context c) as [old|]; [by eexists|].
    destruct (List.find (fun c0 => Context c0 =? Context c) (sentContexts outcomes))
      as [c'|] eqn:Hf; [by eexists|].
    exfalso. apply (proj1 (find_None_elem_of _ _) Hf c); [|done].
    apply (sentContexts_elem_of executePlugin arrival Harrival). by exists s.
  - rewrite head_None. split.
    + intros Hnil s Hin. destruct (executePlugin s) as [c|x] eqn:Hs; [by exists c|].
      assert (He : PluginError (Base fs s) x ∈ sentErrors fs outcomes).
      { apply (sentErrors_elem_of fs executePlugin arrival Harrival). by exists s, x. }
      rewrite Hnil in He. by apply elem_of_nil in He.
    + intros Hall. destruct (sentErrors fs outcomes) as [|e errs] eqn:He; [done|].
      assert (Hin : e ∈ sentErrors fs outcomes) by (rewrite He; left).
      apply (sentErrors_elem_of fs executePlugin arrival Harrival) in Hin
        as (s & x & Hin & Hs & _).
      destruct (Hall s Hin) as [c Hc]. congruence.
  - intros e He. apply head_Some_elem_of in He.
    by apply (sentErrors_elem_of fs executePlugin arrival Harrival) in He.
Qed.

(** With the scripts of [pluginsFS], of which [test.sh] fails. *)
Lemma LoadPlugins_registry_witness :
  arrives_all lastFirst /\
  is_Some (contexts (LoadPlugins noEnv pluginsFS runPlugins lastFirst
                       NewPluginRegistry).1 !! 84) /\
  exists s x, s ∈ ["plugins/test.sh"; "plugins/time.sh"] /\
    runPlugins s = Err x /\
    PluginError "test.sh" TimedOut = PluginError (Base pluginsFS s) x.
Proof.
  assert (Harr : arrives_all lastFirst).
  { intros l. unfold lastFirst. symmetry. apply Permutation_rev. }
  destruct (proj1 (LoadPlugins_registry noEnv pluginsFS runPlugins lastFirst
                     NewPluginRegistry Harr)
              ["plugins/test.sh"; "plugins/time.sh"] eq_refl)
    as (_ & _ & Hc & _ & He).
  split; [exact Harr|]. split.
  - apply (Hc "plugins/time.sh" timeCtx); [|reflexivity].
    apply elem_of_cons. right. apply elem_of_cons. by left.
  - apply (He (PluginError "test.sh" TimedOut)). reflexivity.
Defined.

(** ** Help rendering: the order of the listing *)

Lemma snoc_inv (l : list PluginContext) (j : nat) :
  length l = S j -> exists l' x, l = (l' ++ [x])%list /\ length l' = j.
Proof.
  intros Hl. destruct l as [|a l] using rev_ind; [discriminate Hl|].
  exists l, a. split; [done|]. rewrite length_app in Hl. cbn in Hl. lia.
Qed.

(** The inner loop puts [key] in its place among the elements in front of
    the position [j1], which it overwrites. *)
Lemma sortContexts_shift_spec (j1 : nat) (a b : list PluginContext)
    (y key : PluginContext) :
  length a = j1 ->
  sortContexts_shift (a ++ y :: b) key j1 =
    (List.rev (insertBehind key (List.rev a)) ++ b)%list.
Proof.
  revert a b y. induction j1 as [|j IH]; intros a b y Hl.
  - destruct a; [done|discriminate Hl].
  - destruct (snoc_inv a j Hl) as (a' & x & -> & Hl').
    cbn [sortContexts_shift]. rewrite <- app_assoc. cbn [app].
    rewrite (list_lookup_middle a' (y :: b) x j) by done.
    rewrite rev_unit. cbn [insertBehind].
    assert (Hins : forall v : PluginContext,
              <[S j := v]> (a' ++ x :: y :: b)%list = (a' ++ x :: v :: b)%list).
    { intros v. rewrite insert_app_r_alt by lia.
      replace (S j - length a')%nat with 1%nat by lia. done. }
    destruct (Context key <? Context x).
    + rewrite Hins. rewrite (IH a' (x :: b) x Hl'). cbn [List.rev].
      by rewrite <- app_assoc.
    + rewrite Hins. cbn [List.rev]. rewrite rev_involutive.
      by rewrite <- !app_assoc.
Qed.

Lemma sortContexts_loop_spec (todo done : list PluginContext) :
  sortContexts_loop (length todo) (length done) (List.rev done ++ todo) =
    sortFrom done todo.
Proof.
  revert done. induction todo as [|key todo IH]; intros done.
  - cbn. by rewrite app_nil_r.
  - cbn [length sortContexts_loop sortFrom].
    rewrite (list_lookup_middle (List.rev done) todo key) by (by rewrite length_rev).
    rewrite sortContexts_shift_spec by (by rewrite length_rev).
    rewrite rev_involutive.
    assert (Hlen : S (length done) = length (insertBehind key done)).
    { clear. induction done as [|x done IHd]; [done|]. cbn [insertBehind].
      destruct (Context key <? Context x); cbn [length]; [by rewrite <- IHd|done]. }
    rewrite Hlen. apply IH.
Qed.

Lemma sortContexts_sortFrom (contexts : list PluginContext) :
  sortContexts contexts = sortFrom [] contexts.
Proof.
  unfold sortContexts. destruct contexts as [|c contexts]; [done|].
  cbn [length]. rewrite Nat.sub_succ, Nat.sub_0_r.
  apply (sortContexts_loop_spec contexts [c]).
Qed.

Lemma insertBehind_Permutation (key : PluginContext) (l : list PluginContext) :
  insertBehind key l ≡ₚ key :: l.
Proof.
  induction l as [|x l IH]; [done|]. cbn [insertBehind].
  destruct (Context key <? Context x); [|done].
  rewrite IH. apply Permutation_swap.
Qed.

Lemma sortFrom_Permutation (done todo : list PluginContext) :
  sortFrom done todo ≡ₚ (List.rev done ++ todo)%list.
Proof.
  revert done. induction todo as [|key todo IH]; intros done.
  - cbn. by rewrite app_nil_r.
  - cbn [sortFrom]. rewrite IH, <- !Permutation_rev, insertBehind_Permutation.
    apply Permutation_middle.
Qed.

Lemma insertBehind_sorted (key : PluginContext) (l : list PluginContext) :
  StronglySorted (flip byContext) l ->
  StronglySorted (flip byContext) (insertBehind key l).
Proof.
  induction 1 as [|x l Hs IH Hx]; [repeat constructor|]. cbn [insertBehind].
  destruct (Z.ltb_spec (Context key) (Context x)) as [Hlt|Hge].
  - constructor; [exact IH|]. rewrite insertBehind_Permutation.
    constructor; [|exact Hx]. unfold flip, byContext. lia.
  - constructor; [by constructor|]. constructor; [done|].
    eapply Forall_impl; [exact Hx|]. unfold flip, byContext. intros z Hz. cbn in Hz. lia.
Qed.

Lemma rev_sorted (l : list PluginContext) :
  StronglySorted (flip byContext) l -> StronglySorted byContext (List.rev l).
Proof.
  induction 1 as [|x l Hs IH Hx]; [constructor|]. cbn [List.rev].
  apply StronglySorted_app. split; [|split; [exact IH|repeat constructor]].
  intros x1 x2 H1 H2. apply list_elem_of_singleton in H2 as ->.
  rewrite Forall_forall in Hx. apply Hx.
  apply list_elem_of_In. apply in_rev. by apply list_elem_of_In.
Qed.

Lemma sortFrom_sorted (done todo : list PluginContext) :
  StronglySorted (flip byContext) done ->
  StronglySorted byContext (sortFrom done todo).
Proof.
  revert done. induction todo as [|key todo IH]; intros done Hd.
  - by apply rev_sorted.
  - cbn [sortFrom]. apply IH. by apply insertBehind_sorted.
Qed.

Lemma withContext_app (k : rune) (l1 l2 : list PluginContext) :
  withContext k (l1 ++ l2) = (withContext k l1 ++ withContext k l2)%list.
Proof. apply List.filter_app. Qed.

(** An element is never put in front of one with the same letter. *)
Lemma insertBehind_stable (k : rune) (key : PluginContext) (l : list PluginContext) :
  withContext k (List.rev (insertBehind key l)) =
    withContext k (List.rev l ++ [key]).
Proof.
  induction l as [|x l IH]; [done|]. cbn [insertBehind].
  destruct (Z.ltb_spec (Context key) (Context x)) as [Hlt|Hge]; [|done].
  cbn [List.rev]. rewrite !withContext_app, IH, withContext_app, <- !app_assoc.
  f_equal. unfold withContext. cbn [List.filter].
  destruct (Z.eqb_spec (Context key) k), (Z.eqb_spec (Context x) k); try done. lia.
Qed.

Lemma sortFrom_stable (k : rune) (done todo : list PluginContext) :
  withContext k (sortFrom done todo) = withContext k (List.rev done ++ todo).
Proof.
  revert done. induction todo as [|key todo IH]; intros done.
  - cbn. by rewrite app_nil_r.
  - cbn [sortFrom]. rewrite IH, !withContext_app, insertBehind_stable.
    rewrite withContext_app, <- app_assoc. by rewrite <- withContext_app.
Qed.

(** X10 -- [sortContexts] sorts, and it is stable.  The slice returned has
    the contexts of the argument, each as often as the argument; it is in
    ascending order of the context letters; and the contexts that share a
    letter keep the order that they have in the argument. *)
Theorem sortContexts_sorted_stable (contexts : list PluginContext) :
  sortContexts contexts ≡ₚ contexts /\
  StronglySorted byContext (sortContexts contexts) /\
  (forall k, withContext k (sortContexts contexts) = withContext k contexts).
Proof.
  rewrite sortContexts_sortFrom. split; [|split].
  - apply (sortFrom_Permutation [] contexts).
  - apply sortFrom_sorted. constructor.
  - intros k. apply (sortFrom_stable k [] contexts).
Qed.

Lemma strictly_sorted (l : list PluginContext) :
  StronglySorted byContext l -> NoDup (Context <$> l) ->
  StronglySorted beforeContext l.
Proof.
  induction 1 as [|x l Hs IH Hx]; intros Hnd; [constructor|].
  rewrite fmap_cons in Hnd. apply NoDup_cons in Hnd as [Hnotin Hnd].
  constructor; [by apply IH|].
  rewrite Forall_forall in Hx |- *. intros y Hy.
  pose proof (Hx y Hy) as Hle. unfold byContext in Hle. unfold beforeContext.
  assert (Context x <> Context y); [|lia].
  intros Heq. apply Hnotin. rewrite Heq. by apply list_elem_of_fmap_2.
Qed.

Lemma wellKeyed_letters (l : list (Z * PluginContext)) :
  (forall k c, (k, c) ∈ l -> Context c = k) -> Context <$> l.*2 = l.*1.
Proof.
  induction l as [|[k c] l IH]; intros H; [done|].
  rewrite !fmap_cons. cbn [fst snd]. f_equal.
  - apply H. by left.
  - apply IH. intros k' c' Hin. apply H. by right.
Qed.

(** The sorted listing of a map in which every context is bound to its own
    letter is strictly ascending. *)
Lemma sortSubContexts_strict
    (range : gmap Z PluginContext -> list (Z * PluginContext))
    (m : gmap Z PluginContext) :
  range_visits_all range -> wellKeyed m ->
  StronglySorted beforeContext (sortSubContexts range m) /\
  sortSubContexts range m ≡ₚ (map_to_list m).*2.
Proof.
  intros Hrange Hwk. unfold sortSubContexts.
  assert (Hperm : sortContexts (range m).*2 ≡ₚ (map_to_list m).*2).
  { rewrite sortContexts_sortFrom, (sortFrom_Permutation [] (range m).*2).
    cbn [List.rev app]. by rewrite (Hrange m). }
  split; [|exact Hperm].
  apply strictly_sorted.
  - rewrite sortContexts_sortFrom. apply sortFrom_sorted. constructor.
  - rewrite Hperm, wellKeyed_letters; [apply NoDup_fst_map_to_list|].
    intros k c Hin. apply elem_of_map_to_list in Hin. by apply Hwk.
Qed.

(** X11 -- The listings of the help texts do not depend on the order in
    which Go visits a map.  For a map in which every context is bound to its
    own letter (the roots of a registry filled by [Register], the
    sub-contexts built by a registration), [sortSubContexts] gives the same
    slice for any two iteration orders, in strictly ascending order of the
    letters; so does [sortContexts] on the result of [GetAllContexts]. *)
Theorem help_listing_deterministic
    (range1 range2 : gmap Z PluginContext -> list (Z * PluginContext))
    (r : PluginRegistry) (subContexts : gmap Z PluginContext) :
  range_visits_all range1 -> range_visits_all range2 ->
  (wellKeyed subContexts ->
   sortSubContexts range1 subContexts = sortSubContexts range2 subContexts /\
   StronglySorted beforeContext (sortSubContexts range1 subContexts)) /\
  (wellKeyed (contexts r) ->
   sortContexts (GetAllContexts range1 r) = sortContexts (GetAllContexts range2 r) /\
   StronglySorted beforeContext (sortContexts (GetAllContexts range1 r))).
Proof.
  intros H1 H2.
  assert (Hanti : AntiSymm eq beforeContext).
  { intros x y Hxy Hyx. unfold beforeContext in *. lia. }
  assert (Hgen : forall m, wellKeyed m ->
            sortSubContexts range1 m = sortSubContexts range2 m /\
            StronglySorted beforeContext (sortSubContexts range1 m)).
  { intros m Hwk.
    destruct (sortSubContexts_strict range1 m H1 Hwk) as [Hs1 Hp1].
    destruct (sortSubContexts_strict range2 m H2 Hwk) as [Hs2 Hp2].
    split; [|exact Hs1].
    apply (StronglySorted_unique beforeContext); [done|done|]. by rewrite Hp1, Hp2. }
  split; [apply Hgen|]. intros Hwk. apply (Hgen (contexts r) Hwk).
Qed.

(** The sub-contexts of [timeCtx] and the roots of [timeRegistry], visited
    in the order of the keys and in the reverse order. *)
Lemma help_listing_deterministic_witness :
  range_visits_all keyOrder /\
  range_visits_all (fun m => List.rev (map_to_list m)) /\
  sortSubContexts keyOrder (SubContexts timeCtx) =
    sortSubContexts (fun m => List.rev (map_to_list m)) (SubContexts timeCtx) /\
  sortContexts (GetAllContexts keyOrder timeRegistry) =
    sortContexts (GetAllContexts (fun m => List.rev (map_to_list m)) timeRegistry).
Proof.
  assert (H1 : range_visits_all keyOrder) by (by intros m).
  assert (H2 : range_visits_all (fun m => List.rev (map_to_list m))).
  { intros m. symmetry. apply Permutation_rev. }
  destruct (help_listing_deterministic keyOrder (fun m => List.rev (map_to_list m))
              timeRegistry (SubContexts timeCtx) H1 H2) as [Hsub Hroot].
  split; [exact H1|]. split; [exact H2|]. split.
  - apply Hsub. intros k c Hk. cbn [SubContexts timeCtx] in Hk.
    apply lookup_singleton_Some in Hk as [<- <-]. reflexivity.
  - apply Hroot. intros k c Hk.
    change (contexts timeRegistry) with (<[84 := timeCtx]> (∅ : gmap Z PluginContext)) in Hk.
    apply lookup_insert_Some in Hk as [[<- <-]|[_ Hk]]; [reflexivity|].
    by rewrite lookup_empty in Hk.
Defined.

(** ** The registration grammar: from a flag to its tokens and back *)

Lemma parseFlag_unfold (a0 a1 : string) (rest : list string) :
  parseFlag (a0 :: a1 :: rest) =
    let sc := match byteAt a0 1 with
              | Some ch =>
                  if HasPrefix a0 "-" && (len a0 =? 2) && isLower ch
                  then (ch, 1%nat) else (0, 0%nat)
              | None => (0, 0%nat)
              end in
    let lc := match (a0 :: a1 :: rest) !! sc.2 with
              | Some a =>
                  if HasPrefix a "--" then (TrimPrefix a "--", S sc.2) else ("", sc.2)
              | None => ("", sc.2)
              end in
    if (sc.1 =? 0) && String.eqb lc.1 "" then Err FlagNeedsName
    else parseFlag_finish sc.1 lc.1 lc.2 (drop lc.2 (a0 :: a1 :: rest)).
Proof.
  unfold parseFlag, parseFlag_finish. cbv zeta.
  destruct (match byteAt a0 1 with
            | Some ch =>
                if HasPrefix a0 "-" && (len a0 =? 2) && isLower ch
                then (ch, 1%nat) else (0, 0%nat)
            | None => (0, 0%nat)
            end) as [short c1].
  cbn [fst snd].
  destruct (match (a0 :: a1 :: rest) !! c1 with
            | Some a => if HasPrefix a "--" then (TrimPrefix a "--", S c1) else ("", c1)
            | None => ("", c1)
            end) as [long c2].
  reflexivity.
Qed.

Lemma HasPrefix_two_dashes (s : string) :
  HasPrefix s "-" = false -> HasPrefix s "--" = false.
Proof.
  unfold HasPrefix. destruct s as [|c s]; [done|]. cbn [String.prefix].
  destruct (ascii_dec "-" c); [|done]. by rewrite prefix_empty.
Qed.

Lemma HasPrefix_shortToken (ch : rune) : HasPrefix (shortToken ch) "-" = true.
Proof.
  unfold HasPrefix, shortToken. cbn [String.prefix].
  by destruct (ascii_dec "-" "-") as [_|Hne]; [|destruct Hne].
Qed.

Lemma byteAt_shortToken (ch : rune) :
  0 <= ch < 256 -> byteAt (shortToken ch) 1 = Some ch.
Proof.
  intros H. unfold byteAt, shortToken. cbn [String.get option_map].
  by rewrite rune_of_byte_of_Z.
Qed.

Lemma HasPrefix_longToken (name : string) : HasPrefix (longToken name) "--" = true.
Proof. exact (HasPrefix_long name). Qed.

Lemma TrimPrefix_longToken (name : string) : TrimPrefix (longToken name) "--" = name.
Proof. exact (TrimPrefix_long name). Qed.

Lemma HasPrefix_longToken_dash (name : string) : HasPrefix (longToken name) "-" = true.
Proof.
  unfold HasPrefix, longToken. cbn [String.prefix].
  by destruct (ascii_dec "-" "-") as [_|Hne]; [|destruct Hne].
Qed.

Lemma byteAt_longToken (name : string) : byteAt (longToken name) 1 = Some 45.
Proof. reflexivity. Qed.

Lemma isLower_range (ch : rune) : isLower ch = true -> 97 <= ch <= 122.
Proof. apply between_spec. Qed.

Lemma parseFlag_finish_tokens (short : rune) (long argName description : string)
    (consumed : nat) (rest : list string) :
  HasPrefix argName "-" = false -> HasPrefix description "-" = false ->
  String.eqb argName "" = false \/ startsOption rest = true ->
  parseFlag_finish short long consumed
    ((if String.eqb argName "" then [] else [argName]) ++ description :: rest) =
    Ok ({| Short := short; Long := long; ArgName := argName;
           FlagDescription := description |},
        (consumed + length ((if String.eqb argName "" then [] else [argName])
                            ++ [description]))%nat).
Proof.
  intros Ha Hd Hrest. unfold parseFlag_finish.
  destruct (String.eqb argName "") eqn:Ea.
  - apply String.eqb_eq in Ea as ->. destruct Hrest as [Hf|Hs]; [discriminate Hf|].
    cbn [app countNonFlag length]. rewrite Hd.
    destruct rest as [|a rest]; [done|]. cbn [startsOption] in Hs.
    cbn [countNonFlag]. by rewrite Hs.
  - cbn [app countNonFlag length]. by rewrite Ha, Hd.
Qed.

Lemma parseFlag_tokens (flag : Flag) (rest : list string) :
  wellFormedFlag flag = true ->
  String.eqb (ArgName flag) "" = false \/ startsOption rest = true ->
  parseFlag (flagTokens flag ++ rest) = Ok (flag, length (flagTokens flag)).
Proof.
  destruct flag as [s l a d]. unfold wellFormedFlag, flagTokens.
  cbn [Short Long ArgName FlagDescription]. intros Hwf Hrest.
  apply andb_prop in Hwf as [Hwf Hd]. apply andb_prop in Hwf as [Hwf Ha].
  apply andb_prop in Hwf as [Hs Hname].
  apply negb_true_iff in Hd, Ha, Hname.
  pose proof (parseFlag_finish_tokens s l a d) as Hfin.
  set (T := ((if String.eqb a "" then [] else [a]) ++ [d])%list) in *.
  assert (HT : exists t T', (T ++ rest)%list = t :: T' /\ HasPrefix t "--" = false).
  { unfold T. destruct (String.eqb a ""); cbn [app]; eexists _, _;
      (split; [reflexivity|by apply HasPrefix_two_dashes]). }
  assert (Hfin' : forall consumed,
            parseFlag_finish s l consumed (T ++ rest) =
              Ok ({| Short := s; Long := l; ArgName := a; FlagDescription := d |},
                  (consumed + length T)%nat)).
  { intros consumed. unfold T. rewrite <- app_assoc. cbn [app].
    by apply Hfin. }
  destruct HT as (t & T' & HT & Ht).
  destruct (Z.eqb_spec s 0) as [->|Hs0].
  - cbn [andb] in Hname. rewrite Hname. cbn [app]. rewrite HT.
    rewrite parseFlag_unfold, byteAt_longToken.
    change (isLower 45) with false. rewrite andb_false_r.
    cbn [fst snd lookup list_lookup]. rewrite (HasPrefix_longToken l).
    rewrite (TrimPrefix_longToken l). cbn [fst snd drop].
    change (0 =? 0) with true. cbn [andb].
    rewrite Hname, <- HT. rewrite Hfin'. reflexivity.
  - cbn [orb] in Hs.
    pose proof (isLower_range s Hs) as Hr.
    destruct (String.eqb l "") eqn:El.
    + apply String.eqb_eq in El as ->. cbn [app]. rewrite HT.
      rewrite parseFlag_unfold, byteAt_shortToken, HasPrefix_shortToken by lia.
      change (len (shortToken s) =? 2) with true. rewrite Hs.
      cbn [andb fst snd lookup list_lookup]. rewrite Ht. cbn [fst snd drop].
      rewrite (proj2 (Z.eqb_neq s 0)) by done. cbn [andb].
      rewrite <- HT, Hfin'. reflexivity.
    + cbn [app]. rewrite HT.
      rewrite parseFlag_unfold, byteAt_shortToken, HasPrefix_shortToken by lia.
      change (len (shortToken s) =? 2) with true. rewrite Hs.
      cbn [andb fst snd lookup list_lookup].
      rewrite (HasPrefix_longToken l), (TrimPrefix_longToken l). cbn [fst snd drop].
      rewrite (proj2 (Z.eqb_neq s 0)) by done. cbn [andb].
      rewrite <- HT, Hfin'. reflexivity.
Qed.

Lemma isContextToken_shortToken (ch : rune) :
  isUpper ch = true -> isContextToken (shortToken ch) = true.
Proof.
  intros H. pose proof (proj1 (between_spec _ _ _) H) as Hr.
  unfold isContextToken. rewrite HasPrefix_shortToken, byteAt_shortToken by lia.
  by rewrite H.
Qed.

Lemma flagTokens_head (flag : Flag) :
  wellFormedFlag flag = true ->
  exists t ts, flagTokens flag = t :: ts /\ HasPrefix t "-" = true /\
    isContextToken t = false.
Proof.
  destruct flag as [s l a d]. unfold wellFormedFlag, flagTokens.
  cbn [Short Long ArgName FlagDescription]. intros Hwf.
  apply andb_prop in Hwf as [Hwf _]. apply andb_prop in Hwf as [Hwf _].
  apply andb_prop in Hwf as [Hs Hname]. apply negb_true_iff in Hname.
  destruct (Z.eqb_spec s 0) as [->|Hs0].
  - cbn [andb] in Hname. rewrite Hname. cbn [app]. eexists _, _.
    split; [reflexivity|]. split; [apply HasPrefix_longToken_dash|].
    unfold isContextToken. rewrite byteAt_longToken.
    change (isUpper 45) with false. apply andb_false_r.
  - cbn [orb] in Hs. pose proof (isLower_range s Hs) as Hr. cbn [app].
    eexists _, _. split; [reflexivity|]. split; [apply HasPrefix_shortToken|].
    unfold isContextToken. rewrite byteAt_shortToken by lia.
    unfold isUpper. rewrite (proj2 (between_false 65 90 s)) by lia.
    apply andb_false_r.
Qed.

Lemma length_flagTokens (fs : list Flag) :
  (length fs <= length (flat_map flagTokens fs))%nat.
Proof.
  induction fs as [|f fs IH]; [done|]. cbn [flat_map]. rewrite length_app.
  assert (1 <= length (flagTokens f))%nat; [|cbn [length]; lia].
  unfold flagTokens. rewrite !length_app. cbn [length]. lia.
Qed.

Lemma startsContext_startsOption (rest : list string) :
  startsContext rest = true -> startsOption rest = true.
Proof.
  destruct rest as [|a rest]; [done|]. cbn. unfold isContextToken.
  intros H. apply andb_prop in H as [H _]. by apply andb_prop in H as [H _].
Qed.

Lemma startsOption_flags (fs : list Flag) (tail : list string) :
  Forall (fun flag => wellFormedFlag flag = true) fs ->
  startsOption tail = true ->
  startsOption (flat_map flagTokens fs ++ tail) = true.
Proof.
  intros Hall Htail. destruct Hall as [|f fs' Hf _]; [done|]. cbn [flat_map].
  destruct (flagTokens_head f Hf) as (t & ts & -> & Ht & _). done.
Qed.

Lemma parseSubContext_flags_tokens (fs : list Flag) (b : nat) (args : list string)
    (c : nat) (acc : list Flag) (tail : list string) :
  Forall (fun flag => wellFormedFlag flag = true) fs ->
  startsContext tail = true ->
  drop c args = (flat_map flagTokens fs ++ tail)%list ->
  parseSubContext_flags (length fs + S b) args c acc =
    Ok ((acc ++ fs)%list, (c + length (flat_map flagTokens fs))%nat).
Proof.
  intros Hall Htail. revert c acc.
  induction Hall as [|f fs' Hf Hall IH]; intros c acc Hdrop.
  - cbn [length Nat.add parseSubContext_flags flat_map app] in *. rewrite Hdrop.
    rewrite app_nil_r, Nat.add_0_r. destruct tail as [|a tail]; [done|].
    cbn [startsContext] in Htail. by rewrite Htail.
  - cbn [length Nat.add parseSubContext_flags]. rewrite Hdrop.
    cbn [flat_map]. rewrite <- app_assoc.
    rewrite parseFlag_tokens; [|done|].
    2:{ right. apply startsOption_flags; [done|].
        by apply startsContext_startsOption. }
    destruct (flagTokens_head f Hf) as (t & ts & Hts & _ & Hnc).
    rewrite Hts at 1. cbn [app]. rewrite Hnc.
    rewrite (IH (c + length (flagTokens f))%nat (acc ++ [f])%list).
    + rewrite <- app_assoc, length_app, Nat.add_assoc. done.
    + rewrite <- drop_drop, Hdrop. cbn [flat_map]. rewrite <- app_assoc.
      apply drop_app_length.
Qed.

Section DefinitionTokens.

Variable Getenv : string -> string.

Lemma parseSubContext_tokens (subCtx : PluginContext) (tail : list string) :
  wellFormedSub (Getenv "WSH_PLUGIN_SCRIPT") subCtx ->
  startsContext tail = true ->
  parseSubContext Getenv (subContextTokens subCtx ++ tail) =
    Ok (subCtx, length (subContextTokens subCtx)).
Proof.
  destruct subCtx as [X L D S F SC]. unfold wellFormedSub, subContextTokens.
  cbn [Context ContextLong Description Script Flags SubContexts].
  intros (Hup & Hfs & -> & ->) Htail.
  pose proof (proj1 (between_spec _ _ _) Hup) as Hr.
  cbn [app parseSubContext]. rewrite byteAt_shortToken by lia.
  rewrite (HasPrefix_longToken L), (TrimPrefix_longToken L). cbn [negb].
  pose proof (length_flagTokens F) as Hlen.
  set (args := shortToken X :: longToken L :: D :: (flat_map flagTokens F ++ tail)%list).
  assert (Hb : exists b, length args = (length F + S b)%nat).
  { exists (length args - length F - 1)%nat. unfold args. cbn [length].
    rewrite length_app. lia. }
  destruct Hb as [b ->].
  rewrite (parseSubContext_flags_tokens F b args 3 [] tail Hfs Htail eq_refl).
  cbn [app length]. done.
Qed.

Lemma loop_flag_step (b : nat) (args : list string) (t : string) (flag : Flag)
    (n : nat) (flags : list Flag) (subContexts : gmap Z PluginContext) :
  head args = Some t -> isContextToken t = false ->
  parseFlag args = Ok (flag, n) ->
  parseFlagsAndSubContexts_loop Getenv (S b) args flags subContexts =
    parseFlagsAndSubContexts_loop Getenv b (drop n args) (flags ++ [flag]) subContexts.
Proof.
  intros Hhd Hnc Hp. destruct args as [|a args]; [discriminate Hhd|].
  injection Hhd as ->. cbn [parseFlagsAndSubContexts_loop]. by rewrite Hnc, Hp.
Qed.

Lemma loop_sub_step (b : nat) (args : list string) (t : string)
    (subCtx : PluginContext) (n : nat) (flags : list Flag)
    (subContexts : gmap Z PluginContext) :
  head args = Some t -> isContextToken t = true ->
  parseSubContext Getenv args = Ok (subCtx, n) ->
  parseFlagsAndSubContexts_loop Getenv (S b) args flags subContexts =
    parseFlagsAndSubContexts_loop Getenv b (drop n args) flags
      (<[Context subCtx := subCtx]> subContexts).
Proof.
  intros Hhd Hc Hp. destruct args as [|a args]; [discriminate Hhd|].
  injection Hhd as ->. cbn [parseFlagsAndSubContexts_loop]. by rewrite Hc, Hp.
Qed.

Lemma loop_flags_tokens (fs : list Flag) (b : nat) (tail : list string)
    (acc : list Flag) (subContexts : gmap Z PluginContext) :
  Forall (fun flag => wellFormedFlag flag = true) fs ->
  startsOption tail = true ->
  parseFlagsAndSubContexts_loop Getenv (length fs + b)
    (flat_map flagTokens fs ++ tail) acc subContexts =
  parseFlagsAndSubContexts_loop Getenv b tail (acc ++ fs) subContexts.
Proof.
  intros Hall Htail. revert acc.
  induction Hall as [|f fs' Hf Hall IH]; intros acc.
  - cbn. by rewrite app_nil_r.
  - cbn [length Nat.add flat_map]. rewrite <- app_assoc.
    destruct (flagTokens_head f Hf) as (t & ts & Hts & _ & Hnc).
    rewrite (loop_flag_step _ _ t f (length (flagTokens f))); [|by rewrite Hts|done|].
    + rewrite drop_app_length, IH. by rewrite <- app_assoc.
    + apply parseFlag_tokens; [done|]. right. by apply startsOption_flags.
Qed.

Lemma startsContext_subs (subs : list PluginContext) :
  Forall (wellFormedSub (Getenv "WSH_PLUGIN_SCRIPT")) subs ->
  startsContext (flat_map subContextTokens subs) = true.
Proof.
  intros [|subCtx subs' Hsub _]; [done|]. cbn [flat_map subContextTokens app].
  cbn [startsContext]. apply isContextToken_shortToken. apply Hsub.
Qed.

Lemma loop_subs_tokens (subs : list PluginContext) (b : nat) (flags : list Flag)
    (subContexts : gmap Z PluginContext) :
  Forall (wellFormedSub (Getenv "WSH_PLUGIN_SCRIPT")) subs ->
  parseFlagsAndSubContexts_loop Getenv (length subs + S b)
    (flat_map subContextTokens subs) flags subContexts =
  Ok (flags, bindAll subs subContexts).
Proof.
  intros Hall. revert subContexts.
  induction Hall as [|subCtx subs' Hsub Hall IH]; intros subContexts; [done|].
  cbn [length Nat.add flat_map].
  rewrite (loop_sub_step _ _ (shortToken (Context subCtx)) subCtx
             (length (subContextTokens subCtx))).
  - rewrite drop_app_length. apply IH.
  - reflexivity.
  - apply isContextToken_shortToken. apply Hsub.
  - apply parseSubContext_tokens; [done|]. by apply startsContext_subs.
Qed.

Lemma length_subContextTokens (subs : list PluginContext) :
  (length subs <= length (flat_map subContextTokens subs))%nat.
Proof.
  induction subs as [|subCtx subs IH]; [done|]. cbn [flat_map].
  rewrite length_app. unfold subContextTokens at 1. cbn [length app]. lia.
Qed.

Lemma parseFlagsAndSubContexts_tokens (fs : list Flag) (subs : list PluginContext) :
  Forall (fun flag => wellFormedFlag flag = true) fs ->
  Forall (wellFormedSub (Getenv "WSH_PLUGIN_SCRIPT")) subs ->
  parseFlagsAndSubContexts Getenv
    (flat_map flagTokens fs ++ flat_map subContextTokens subs) =
  Ok (fs, bindAll subs ∅).
Proof.
  intros Hfs Hsubs. unfold parseFlagsAndSubContexts.
  pose proof (length_flagTokens fs). pose proof (length_subContextTokens subs).
  assert (Hb : exists b,
            S (length (flat_map flagTokens fs ++ flat_map subContextTokens subs)) =
              (length fs + (length subs + S b))%nat).
  { exists (length (flat_map flagTokens fs ++ flat_map subContextTokens subs)
            - length fs - length subs)%nat. rewrite length_app. lia. }
  destruct Hb as [b ->].
  rewrite loop_flags_tokens; [|done|].
  - by rewrite loop_subs_tokens.
  - apply startsContext_startsOption. by apply startsContext_subs.
Qed.

End DefinitionTokens.

(** X12 -- [parseFlag] reads a flag back from its tokens.  For a flag that
    the syntax can express (short name a letter ['a'..'z'] or none, some
    name, argument name and description not starting with a dash), written
    as [-s --long argname description] with the parts that it has, and
    followed by any tokens, [parseFlag] returns that very flag and consumes
    exactly its tokens -- provided that a flag without argument name is at
    the end of the tokens or followed by a token that starts with a dash. *)
Theorem parseFlag_round_trip (flag : Flag) (rest : list string) :
  wellFormedFlag flag = true ->
  String.eqb (ArgName flag) "" = false \/ startsOption rest = true ->
  parseFlag (flagTokens flag ++ rest) = Ok (flag, length (flagTokens flag)) /\
  drop (length (flagTokens flag)) (flagTokens flag ++ rest) = rest.
Proof.
  intros Hwf Hrest. split; [by apply parseFlag_tokens|apply drop_app_length].
Qed.

(** [-f --from days "Days ago"] in front of the tokens of another flag. *)
Lemma parseFlag_round_trip_witness :
  parseFlag (flagTokens fromFlag ++ flagTokens offlineFlag) =
    Ok (fromFlag, length (flagTokens fromFlag)) /\
  drop (length (flagTokens fromFlag)) (flagTokens fromFlag ++ flagTokens offlineFlag)
    = flagTokens offlineFlag.
Proof.
  apply (parseFlag_round_trip fromFlag (flagTokens offlineFlag)).
  - reflexivity.
  - left. reflexivity.
Defined.

Lemma parsePluginDefinition_tokens
    (Getenv : string -> string) (unicode_ToUpper unicode_ToLower : rune -> rune)
    (ctx : PluginContext) (subs : list PluginContext) :
  isUpper (Context ctx) = true ->
  Forall (fun flag => wellFormedFlag flag = true) (Flags ctx) ->
  Script ctx = Getenv "WSH_PLUGIN_SCRIPT" ->
  Forall (wellFormedSub (Getenv "WSH_PLUGIN_SCRIPT")) subs ->
  SubContexts ctx = bindAll subs ∅ ->
  parsePluginDefinition Getenv unicode_ToUpper unicode_ToLower
    (definitionTokens ctx subs) = Ok ctx.
Proof.
  destruct ctx as [X L D S F SC].
  cbn [Context ContextLong Description Script Flags SubContexts].
  intros Hup Hfs -> Hsubs ->.
  pose proof (proj1 (between_spec _ _ _) Hup) as Hr.
  unfold definitionTokens. cbn [Context ContextLong Description Flags app].
  rewrite (header_short_and_long Getenv unicode_ToUpper unicode_ToLower
             (byte_of_Z X) L D _ F (bindAll subs ∅)).
  - by rewrite rune_of_byte_of_Z by lia.
  - by rewrite rune_of_byte_of_Z by lia.
  - by apply parseFlagsAndSubContexts_tokens.
Qed.

(** X13 -- A registration reads a context back from the documented syntax.
    Take a context with a letter ['A'..'Z'], flags that the syntax can
    express, and sub-contexts [subs] of the same kind that have no
    sub-contexts of their own; let its script and theirs be the value of
    [WSH_PLUGIN_SCRIPT].  Written as [-X --long description], then the
    flags, then each sub-context with its flags, the tokens are accepted by
    [parsePluginDefinition], which returns that very context: same names,
    description, script, flags in their order, and every sub-context bound
    to its letter (a later one over an earlier one of the same letter).
    Given to [wsh args --register], they make the subcommand register that
    context, print it and exit with the code 0. *)
Theorem parsePluginDefinition_round_trip
    (range : gmap Z PluginContext -> list (Z * PluginContext))
    (rangeFlags : gmap string string -> list (string * string))
    (Getenv : string -> string) (unicode_ToUpper unicode_ToLower : rune -> rune)
    (registry : PluginRegistry) (ctx : PluginContext) (subs : list PluginContext) :
  isUpper (Context ctx) = true ->
  Forall (fun flag => wellFormedFlag flag = true) (Flags ctx) ->
  Script ctx = Getenv "WSH_PLUGIN_SCRIPT" ->
  Forall (wellFormedSub (Getenv "WSH_PLUGIN_SCRIPT")) subs ->
  SubContexts ctx = bindAll subs ∅ ->
  parsePluginDefinition Getenv unicode_ToUpper unicode_ToLower
    (definitionTokens ctx subs) = Ok ctx /\
  HandleArgs range rangeFlags Getenv unicode_ToUpper unicode_ToLower registry
    ("--register" :: definitionTokens ctx subs) =
    ((Register registry ctx).1, ContextJSON ctx, 0).
Proof.
  intros Hup Hfs Hscript Hsubs Hbind.
  pose proof (parsePluginDefinition_tokens Getenv unicode_ToUpper unicode_ToLower
                ctx subs Hup Hfs Hscript Hsubs Hbind) as Hparse.
  split; [exact Hparse|].
  cbn [HandleArgs]. change (String.eqb "--register" "--register") with true.
  cbn iota. unfold handleRegister. rewrite Hparse.
  assert (Hlen : (length (definitionTokens ctx subs) <? 3)%nat = false).
  { apply Nat.ltb_ge. unfold definitionTokens. cbn [app length]. lia. }
  by rewrite Hlen.
Qed.

(** The definition of the time plugin with its sub-context [-O], given to a
    new registry. *)
Lemma parsePluginDefinition_round_trip_witness :
  parsePluginDefinition loaderEnv noCase noCase
    (definitionTokens timeCtx [overtimeCtx]) = Ok timeCtx /\
  HandleArgs keyOrder map_to_list loaderEnv noCase noCase NewPluginRegistry
    ("--register" :: definitionTokens timeCtx [overtimeCtx]) =
    ((Register NewPluginRegistry timeCtx).1, ContextJSON timeCtx, 0).
Proof.
  apply (parsePluginDefinition_round_trip keyOrder map_to_list loaderEnv noCase
           noCase NewPluginRegistry timeCtx [overtimeCtx]).
  - reflexivity.
  - repeat constructor.
  - reflexivity.
  - repeat constructor.
  - reflexivity.
Defined.

(** ** The args subcommand *)

Lemma Register_twice (r : PluginRegistry) (ctx : PluginContext) :
  (Register (Register r ctx).1 ctx).1 = (Register r ctx).1.
Proof.
  destruct (Register_cases r ctx) as [[existing [Hex Hr]]|[Hnone Hr]].
  - by rewrite !Hr.
  - rewrite Hr. unfold Register at 1. cbn [contexts].
    rewrite lookup_insert_eq. by rewrite String.eqb_refl.
Qed.

Section ArgsCommandFacts.

Variable range : gmap Z PluginContext -> list (Z * PluginContext).
Variable rangeFlags : gmap string string -> list (string * string).
Variable Getenv : string -> string.
Variable up low : rune -> rune.

Lemma handleRegister_cases (registry : PluginRegistry) (args : list string) :
  ((3 <= length args)%nat /\
   exists ctx, parsePluginDefinition Getenv up low args = Ok ctx /\
     handleRegister Getenv up low registry args =
       ((Register registry ctx).1, ContextJSON ctx, 0)) \/
  (~ ((3 <= length args)%nat /\
      exists ctx, parsePluginDefinition Getenv up low args = Ok ctx) /\
   handleRegister Getenv up low registry args = (registry, NoOutput, 1)).
Proof.
  unfold handleRegister. destruct (Nat.ltb_spec (length args) 3) as [Hlt|Hge].
  - right. split; [|done]. intros [Hlen _]. lia.
  - destruct (parsePluginDefinition Getenv up low args) as [ctx|e].
    + left. split; [done|]. by exists ctx.
    + right. split; [|done]. by intros [_ [ctx Hctx]].
Qed.

Lemma handleParse_cases (registry : PluginRegistry) (args : list string) :
  (exists result lines, Parse range registry args = Ok result /\
     handleParse range rangeFlags registry args = (registry, EnvLines lines, 0)) \/
  ((forall result, Parse range registry args <> Ok result) /\
   handleParse range rangeFlags registry args = (registry, NoOutput, 1)).
Proof.
  unfold handleParse. destruct (Parse range registry args) as [result|e].
  - left. by eexists _, _.
  - by right.
Qed.

End ArgsCommandFacts.

(** X14 -- The exit code of [HandleArgs] and what it does to the registry.
    The exit code is 0 or 1; every path that [Lookup] resolved before the
    call resolves to the same context after it; and on the exit code 1 the
    registry is as before and nothing is written to the standard output.
    For a registration ([--register] first): the exit code is 0 exactly
    when at least three tokens follow and [parsePluginDefinition] accepts
    them; the exit code and the output are the same for every registry, so
    that a letter already taken by another script is not reported to the
    caller; and a second identical call leaves everything as the first one
    left it.  For any other command line the registry is as before, and the
    exit code is 0 exactly when the command line is not empty and [Parse]
    accepts it. *)
Theorem HandleArgs_exit_code_and_registry
    (range : gmap Z PluginContext -> list (Z * PluginContext))
    (rangeFlags : gmap string string -> list (string * string))
    (Getenv : string -> string) (up low : rune -> rune)
    (registry : PluginRegistry) (args : list string) :
  ((HandleArgs range rangeFlags Getenv up low registry args).2 = 0 \/
   (HandleArgs range rangeFlags Getenv up low registry args).2 = 1) /\
  (forall path node, Lookup registry path = Some node ->
     Lookup (HandleArgs range rangeFlags Getenv up low registry args).1.1 path
       = Some node) /\
  ((HandleArgs range rangeFlags Getenv up low registry args).2 = 1 ->
   (HandleArgs range rangeFlags Getenv up low registry args).1
     = (registry, NoOutput)) /\
  (forall rest, args = "--register" :: rest ->
     ((HandleArgs range rangeFlags Getenv up low registry args).2 = 0 <->
      (3 <= length rest)%nat /\
      exists ctx, parsePluginDefinition Getenv up low rest = Ok ctx) /\
     (forall registry',
        (HandleArgs range rangeFlags Getenv up low registry' args).2 =
          (HandleArgs range rangeFlags Getenv up low registry args).2 /\
        (HandleArgs range rangeFlags Getenv up low registry' args).1.2 =
          (HandleArgs range rangeFlags Getenv up low registry args).1.2) /\
     HandleArgs range rangeFlags Getenv up low
       (HandleArgs range rangeFlags Getenv up low registry args).1.1 args =
       HandleArgs range rangeFlags Getenv up low registry args) /\
  (head args <> Some "--register" ->
   (HandleArgs range rangeFlags Getenv up low registry args).1.1 = registry /\
   ((HandleArgs range rangeFlags Getenv up low registry args).2 = 0 <->
    args <> [] /\ exists result, Parse range registry args = Ok result)).
Proof.
  destruct args as [|arg0 rest].
  { cbn [HandleArgs fst snd]. split; [by right|]. split; [done|]. split; [done|].
    split; [done|]. intros _. split; [done|]. split; [done|]. by intros [H _]. }
  cbn [HandleArgs]. destruct (String.eqb arg0 "--register") eqn:E.
  - apply String.eqb_eq in E as ->.
    assert (Hcases := handleRegister_cases Getenv up low).
    destruct (Hcases registry rest) as [[Hlen [ctx [Hctx Hr]]]|[Hno Hr]]; rewrite Hr;
      cbn [fst snd].
    + split; [by left|]. split.
      { intros path node. apply Lookup_root. intros k old. apply Register_keeps. }
      split; [done|]. split; [|by intros []].
      intros rest' [= <-]. split; [split; [|done]; intros _; split; [done|by exists ctx]|].
      split.
      * intros registry'.
        destruct (Hcases registry' rest) as [[_ [ctx' [Hctx' Hr']]]|[Hno' _]].
        -- rewrite Hr'. cbn [fst snd]. split; [done|]. congruence.
        -- destruct Hno'. split; [done|by exists ctx].
      * destruct (Hcases (Register registry ctx).1 rest)
          as [[_ [ctx' [Hctx' Hr']]]|[Hno' _]].
        -- rewrite Hr'. assert (ctx' = ctx) as -> by congruence.
           by rewrite Register_twice.
        -- destruct Hno'. split; [done|by exists ctx].
    + split; [by right|]. split; [done|]. split; [done|]. split; [|by intros []].
      intros rest' [= <-]. split; [split; [done|]; intros H; by destruct Hno|].
      split; [|by rewrite Hr].
      intros registry'.
      destruct (Hcases registry' rest) as [[Hlen [ctx [Hctx _]]]|[_ Hr']].
      * destruct Hno. split; [done|by exists ctx].
      * by rewrite Hr'.
  - apply String.eqb_neq in E.
    destruct (handleParse_cases range rangeFlags registry (arg0 :: rest))
      as [(result & lines & Hp & Hr)|[Hno Hr]]; rewrite Hr; cbn [fst snd].
    + split; [by left|]. split; [done|]. split; [done|].
      split; [intros rest' [= -> _]; by destruct E|].
      intros _. split; [done|]. split; [|done]. intros _. split; [done|by exists result].
    + split; [by right|]. split; [done|]. split; [done|].
      split; [intros rest' [= -> _]; by destruct E|].
      intros _. split; [done|]. split; [done|]. intros [_ [result Hres]].
      by destruct (Hno result).
Qed.

(** ** The registration grammar: what an accepted definition looks like *)

Lemma parseFlag_finish_Ok (short : rune) (long : string) (consumed : nat)
    (tail : list string) (flag : Flag) (n : nat) :
  parseFlag_finish short long consumed tail = Ok (flag, n) ->
  Short flag = short /\ Long flag = long /\
  HasPrefix (ArgName flag) "-" = false /\ HasPrefix (FlagDescription flag) "-" = false.
Proof.
  unfold parseFlag_finish. destruct tail as [|x tail]; [discriminate|].
  cbn [countNonFlag]. destruct (HasPrefix x "-") eqn:Hx; [discriminate|].
  destruct tail as [|y tail].
  - cbn [countNonFlag]. by intros [= <- _].
  - cbn [countNonFlag]. destruct (HasPrefix y "-") eqn:Hy.
    + by intros [= <- _].
    + by intros [= <- _].
Qed.

Lemma parseFlag_wellFormed (args : list string) (flag : Flag) (n : nat) :
  parseFlag args = Ok (flag, n) -> wellFormedFlag flag = true.
Proof.
  destruct args as [|a0 [|a1 rest]]; try discriminate.
  rewrite parseFlag_unfold. cbv zeta.
  set (sc := match byteAt a0 1 with
             | Some ch =>
                 if HasPrefix a0 "-" && (len a0 =? 2) && isLower ch
                 then (ch, 1%nat) else (0, 0%nat)
             | None => (0, 0%nat)
             end).
  assert (Hsc : (sc.1 =? 0) || isLower sc.1 = true).
  { unfold sc. destruct (byteAt a0 1) as [ch|]; [|done].
    destruct (HasPrefix a0 "-" && (len a0 =? 2)); [|done]. cbn [andb].
    destruct (isLower ch) eqn:Hl; [|done]. cbn [fst]. rewrite Hl. apply orb_true_r. }
  destruct ((sc.1 =? 0) && String.eqb _ "") eqn:Hname; [discriminate|].
  intros H. apply parseFlag_finish_Ok in H as (Hs & Hl & Ha & Hd).
  unfold wellFormedFlag. by rewrite Hs, Hl, Hsc, Hname, Ha, Hd.
Qed.

Lemma parseSubContext_flags_wellFormed (bound : nat) (args : list string) (c c' : nat)
    (flags flags' : list Flag) :
  Forall (fun flag => wellFormedFlag flag = true) flags ->
  parseSubContext_flags bound args c flags = Ok (flags', c') ->
  Forall (fun flag => wellFormedFlag flag = true) flags'.
Proof.
  revert c flags. induction bound as [|bound IH]; intros c flags Hall H;
    [discriminate H|].
  cbn [parseSubContext_flags] in H.
  destruct (drop c args) as [|arg tail]; [by injection H as <- _|].
  destruct (isContextToken arg); [by injection H as <- _|].
  destruct (parseFlag (arg :: tail)) as [[flag n]|e] eqn:Hf; [|discriminate H].
  apply (IH (c + n)%nat (flags ++ [flag])%list); [|exact H].
  apply Forall_app. split; [done|]. constructor; [|constructor].
  by apply parseFlag_wellFormed in Hf.
Qed.

Section AcceptedDefinitions.

Variable Getenv : string -> string.

Lemma parseSubContext_wellFormed (arg : string) (tail : list string)
    (subCtx : PluginContext) (n : nat) :
  isContextToken arg = true ->
  parseSubContext Getenv (arg :: tail) = Ok (subCtx, n) ->
  wellFormedSub (Getenv "WSH_PLUGIN_SCRIPT") subCtx.
Proof.
  intros Htok. unfold parseSubContext. destruct tail as [|a1 [|a2 tail]]; try discriminate.
  unfold isContextToken in Htok. apply andb_prop in Htok as [_ Hup].
  destruct (byteAt arg 1) as [ch|]; [|discriminate].
  destruct (negb (HasPrefix a1 "--")); [discriminate|].
  destruct (parseSubContext_flags _ _ 3 []) as [[flags c']|e] eqn:Hf; [|discriminate].
  intros [= <- _]. unfold wellFormedSub.
  cbn [Context Flags Script SubContexts]. split; [done|]. split; [|done].
  by apply parseSubContext_flags_wellFormed in Hf.
Qed.

Lemma parseFlagsAndSubContexts_loop_expressible (bound : nat) (args : list string)
    (flags flags' : list Flag) (subs subs' : gmap Z PluginContext) :
  expressible (Getenv "WSH_PLUGIN_SCRIPT") flags subs ->
  parseFlagsAndSubContexts_loop Getenv bound args flags subs = Ok (flags', subs') ->
  expressible (Getenv "WSH_PLUGIN_SCRIPT") flags' subs'.
Proof.
  revert args flags subs. induction bound as [|bound IH];
    intros args flags subs [Hfs Hsubs] H; [discriminate H|].
  cbn [parseFlagsAndSubContexts_loop] in H.
  destruct args as [|arg tail]; [by injection H as <- <-|].
  destruct (isContextToken arg) eqn:Htok.
  - destruct (parseSubContext Getenv (arg :: tail)) as [[subCtx n]|e] eqn:Hs;
      [|discriminate H].
    apply IH in H; [done|]. split; [done|].
    intros k sub Hk. apply lookup_insert_Some in Hk as [[<- <-]|[_ Hk]].
    + split; [done|]. by apply (parseSubContext_wellFormed arg tail _ n).
    + by apply Hsubs.
  - destruct (parseFlag (arg :: tail)) as [[flag n]|e] eqn:Hf; [|discriminate H].
    apply IH in H; [done|]. split; [|done].
    apply Forall_app. split; [done|]. constructor; [|constructor].
    by apply parseFlag_wellFormed in Hf.
Qed.

Lemma finishDefinition_Ok (short : rune) (long description : string)
    (rest : list string) (ctx : PluginContext) :
  finishDefinition Getenv short long description rest = Ok ctx ->
  Context ctx = short /\ ContextLong ctx = long /\ Description ctx = description /\
  Script ctx = Getenv "WSH_PLUGIN_SCRIPT" /\
  ((short =? 0) && String.eqb long "" = false) /\
  expressible (Getenv "WSH_PLUGIN_SCRIPT") (Flags ctx) (SubContexts ctx).
Proof.
  unfold finishDefinition.
  destruct ((short =? 0) && String.eqb long "") eqn:Hname; [discriminate|].
  unfold parseFlagsAndSubContexts.
  destruct (parseFlagsAndSubContexts_loop Getenv (S (length rest)) rest [] ∅)
    as [[flags subs]|e] eqn:Hl; [|discriminate].
  intros [= <-]. cbn [Context ContextLong Description Script Flags SubContexts].
  repeat (split; [done|]).
  apply (parseFlagsAndSubContexts_loop_expressible _ _ _ _ _ _ ) with (2 := Hl).
  split; [constructor|]. intros k sub Hk. by rewrite lookup_empty in Hk.
Qed.

Variable up low : rune -> rune.

Lemma parsePluginDefinition_finish (args : list string) (ctx : PluginContext) :
  parsePluginDefinition Getenv up low args = Ok ctx ->
  exists short long description rest,
    finishDefinition Getenv short long description rest = Ok ctx.
Proof.
  unfold parsePluginDefinition. destruct args as [|a0 [|a1 rest]]; try discriminate.
  destruct (HasPrefix a0 "--").
  - destruct (0 <? len (TrimPrefix a0 "--")).
    + destruct (strings_ToUpper up (TrimPrefix a0 "--")) as [|c s]; [discriminate|].
      intros H. by eexists _, _, _, _.
    + intros H. by eexists _, _, _, _.
  - destruct (HasPrefix a0 "-" && (len a0 =? 2)); [|discriminate].
    destruct (byteAt a0 1) as [ch|]; [|discriminate].
    destruct ((ch <? 65) || (90 <? ch)); [discriminate|].
    destruct (HasPrefix a1 "--").
    + destruct rest as [|a2 rest']; [discriminate|].
      intros H. by eexists _, _, _, _.
    + intros H. by eexists _, _, _, _.
Qed.

End AcceptedDefinitions.

Lemma find_append (k : Z) (l1 l2 : list PluginContext) :
  List.find (fun c => Context c =? k) (l1 ++ l2) =
    match List.find (fun c => Context c =? k) l1 with
    | Some c => Some c
    | None => List.find (fun c => Context c =? k) l2
    end.
Proof.
  induction l1 as [|c l1 IH]; [done|]. cbn [app List.find].
  by destruct (Context c =? k).
Qed.

(** The last sub-context of the series that claims a letter holds it. *)
Lemma bindAll_lookup (subs : list PluginContext) (acc : gmap Z PluginContext) (k : Z) :
  bindAll subs acc !! k =
    match List.find (fun c => Context c =? k) (List.rev subs) with
    | Some subCtx => Some subCtx
    | None => acc !! k
    end.
Proof.
  revert acc. induction subs as [|subCtx subs IH]; intros acc; [done|].
  cbn [bindAll fold_left List.rev]. fold (bindAll subs (<[Context subCtx := subCtx]> acc)).
  rewrite IH, find_append.
  destruct (List.find (fun c => Context c =? k) (List.rev subs)); [done|].
  cbn [List.find]. destruct (Z.eqb_spec (Context subCtx) k) as [<-|Hne].
  - by rewrite lookup_insert_eq.
  - by rewrite lookup_insert_ne.
Qed.

Lemma bindAll_map_to_list (m : gmap Z PluginContext) :
  wellKeyed m -> bindAll (map_to_list m).*2 ∅ = m.
Proof.
  intros Hwk. apply map_eq. intros k. rewrite bindAll_lookup, lookup_empty.
  assert (Hin : forall c, c ∈ List.rev (map_to_list m).*2 <-> exists k', m !! k' = Some c).
  { intros c. rewrite list_elem_of_In, <- in_rev, <- list_elem_of_In, list_elem_of_fmap.
    split.
    - intros [[k' c'] [-> Hkc]]. exists k'. by apply elem_of_map_to_list.
    - intros [k' Hk']. exists (k', c). split; [done|]. by apply elem_of_map_to_list. }
  destruct (List.find (fun c => Context c =? k) (List.rev (map_to_list m).*2))
    as [c|] eqn:Hf.
  - apply find_Some_elem_of in Hf as [Hc Hk]. apply Hin in Hc as [k' Hk'].
    rewrite <- (Hwk k' c Hk') in Hk' . by rewrite <- Hk.
  - destruct (m !! k) as [c|] eqn:Hk; [|done].
    exfalso. apply (proj1 (find_None_elem_of _ _) Hf c).
    + apply Hin. by exists k.
    + by apply Hwk.
Qed.

(** X15 -- What [parsePluginDefinition] accepts.  A context that it returns
    has the value of [WSH_PLUGIN_SCRIPT] as script and a short letter or a
    long name; each of its flags has a name, a short name that is a letter
    ['a'..'z'] or none, and an argument name and a description that do not
    start with a dash; each of its sub-contexts is bound to its own letter,
    a letter ['A'..'Z'], has the same script, flags of that kind and no
    sub-contexts.  When its own letter is in ['A'..'Z'], the context is in
    normal form: written out in the documented syntax, it is accepted again
    and gives the same context. *)
Theorem parsePluginDefinition_accepts_expressible
    (Getenv : string -> string) (unicode_ToUpper unicode_ToLower : rune -> rune)
    (args : list string) (ctx : PluginContext) :
  parsePluginDefinition Getenv unicode_ToUpper unicode_ToLower args = Ok ctx ->
  Script ctx = Getenv "WSH_PLUGIN_SCRIPT" /\
  (Context ctx <> 0 \/ ContextLong ctx <> "") /\
  expressible (Getenv "WSH_PLUGIN_SCRIPT") (Flags ctx) (SubContexts ctx) /\
  (isUpper (Context ctx) = true ->
   parsePluginDefinition Getenv unicode_ToUpper unicode_ToLower (canonicalTokens ctx)
     = Ok ctx).
Proof.
  intros H.
  destruct (parsePluginDefinition_finish Getenv _ _ _ _ H)
    as (short & long & description & rest & Hfin).
  apply finishDefinition_Ok in Hfin as (Hs & Hl & _ & Hscript & Hname & Hex).
  split; [done|]. split; [|split; [done|]].
  - rewrite Hs, Hl. apply andb_false_iff in Hname as [Hz|Hn].
    + left. by apply Z.eqb_neq.
    + right. by apply String.eqb_neq.
  - intros Hup. destruct Hex as [Hfs Hsubs]. unfold canonicalTokens.
    apply parsePluginDefinition_tokens; try done.
    + apply Forall_forall. intros subCtx Hin.
      apply list_elem_of_fmap in Hin as [[k c] [-> Hkc]].
      apply elem_of_map_to_list in Hkc. cbn [snd]. by apply (Hsubs k c Hkc).
    + symmetry. apply bindAll_map_to_list. intros k c Hk. by apply Hsubs.
Qed.

(** The definition of the time plugin. *)
Lemma parsePluginDefinition_accepts_expressible_witness :
  Script timeCtx = loaderEnv "WSH_PLUGIN_SCRIPT" /\
  (Context timeCtx <> 0 \/ ContextLong timeCtx <> "") /\
  expressible (loaderEnv "WSH_PLUGIN_SCRIPT") (Flags timeCtx) (SubContexts timeCtx) /\
  (isUpper (Context timeCtx) = true ->
   parsePluginDefinition loaderEnv noCase noCase (canonicalTokens timeCtx)
     = Ok timeCtx).
Proof.
  apply (parsePluginDefinition_accepts_expressible loaderEnv noCase noCase
           timeDefinition timeCtx).
  vm_compute. reflexivity.
Defined.

(** ** The args subcommand on its own registry *)

Lemma HasPrefix_long_inv (arg : string) :
  HasPrefix arg "--" = true -> arg = longToken (TrimPrefix arg "--").
Proof.
  intros H. unfold TrimPrefix. rewrite H. revert H. unfold HasPrefix.
  destruct arg as [|a [|b s]]; cbn [String.prefix]; try discriminate.
  - by destruct (ascii_dec "-" a).
  - destruct (ascii_dec "-" a) as [<-|]; [|discriminate].
    destruct (ascii_dec "-" b) as [<-|]; [|discriminate]. intros _.
    cbn [String.length Nat.sub String.substring]. rewrite Nat.sub_0_r.
    by rewrite substring_all.
Qed.

Lemma HasPrefix_dash_short (arg : string) :
  HasPrefix arg "-" = true -> (1 <? len arg) = false -> arg = "-".
Proof.
  unfold HasPrefix, len. destruct arg as [|a [|b s]]; cbn [String.prefix String.length].
  - discriminate.
  - by destruct (ascii_dec "-" a) as [<-|].
  - intros _ H. apply Z.ltb_ge in H. lia.
Qed.

Lemma parseCluster_empty_help (flags : list rune) (next : option string)
    (res : ParseResult) :
  forallb (fun ch => ch =? 104) flags = true ->
  exists res', parseCluster NewPluginRegistry flags next None res = Ok (None, res', false) /\
    ContextPath res' = ContextPath res /\ ResultContext res' = ResultContext res /\
    ResultFlags res' = ResultFlags res.
Proof.
  revert res. induction flags as [|ch flags IH]; intros res H; [by exists res|].
  cbn [forallb] in H. apply andb_prop in H as [Hch H].
  rewrite parseCluster_cons, Hch. destruct (IH (setShowHelp res) H) as (res' & -> & Hr).
  by exists res'.
Qed.

Lemma parseCluster_empty_other (flags : list rune) (next : option string)
    (res : ParseResult) :
  forallb (fun ch => ch =? 104) flags = false ->
  exists e, parseCluster NewPluginRegistry flags next None res = Err e.
Proof.
  revert res. induction flags as [|ch flags IH]; intros res H; [discriminate H|].
  cbn [forallb] in H. rewrite parseCluster_cons.
  destruct (ch =? 104); [by apply IH|].
  destruct (isUpper ch); [by eexists|]. by eexists.
Qed.

Lemma helpOrPositional_cases (arg : string) :
  helpOrPositional arg =
    if HasPrefix arg "--" then String.eqb (TrimPrefix arg "--") "help"
    else if HasPrefix arg "-" && (1 <? len arg)
         then forallb (fun ch => ch =? 104) (runes (tail1 arg))
         else true.
Proof.
  unfold helpOrPositional, isPositional, isClusterToken.
  destruct (HasPrefix arg "--") eqn:Hlong.
  - rewrite (HasPrefix_long_inv arg Hlong) at 1 2 3.
    rewrite HasPrefix_longToken_dash. cbn [negb orb andb]. rewrite orb_false_r.
    destruct (String.eqb (TrimPrefix arg "--") "help") eqn:E.
    + apply String.eqb_eq in E. by rewrite E.
    + apply String.eqb_neq in E. apply eqb_string_false. intros [= Heq]. by destruct E.
  - cbn [negb andb]. destruct (HasPrefix arg "-") eqn:Hshort; cbn [negb orb andb].
    + destruct (1 <? len arg) eqn:Hlen.
      * assert (String.eqb arg "-" = false) as ->.
        { apply eqb_string_false. intros ->. discriminate Hlen. }
        assert (String.eqb arg "--help" = false) as ->; [|done].
        apply eqb_string_false. intros ->. discriminate Hlong.
      * by rewrite (HasPrefix_dash_short arg Hshort Hlen).
    + reflexivity.
Qed.

Lemma range_empty (range : gmap Z PluginContext -> list (Z * PluginContext)) :
  range_visits_all range -> range ∅ = [].
Proof.
  intros Hrange. apply Permutation_nil_r. by rewrite (Hrange ∅), map_to_list_empty.
Qed.

(** In a registry without contexts the scan goes on exactly over the tokens
    that ask for help or are positional, and it sets no context and no
    flag. *)
Lemma parseArgs_empty (range : gmap Z PluginContext -> list (Z * PluginContext))
    (args : list string) (res : ParseResult) :
  range_visits_all range ->
  if forallb helpOrPositional args
  then exists res', parseArgs range NewPluginRegistry args None res = Ok res' /\
         ContextPath res' = ContextPath res /\ ResultContext res' = ResultContext res /\
         ResultFlags res' = ResultFlags res
  else exists e, parseArgs range NewPluginRegistry args None res = Err e.
Proof.
  intros Hrange. revert res. induction args as [|arg rest IH]; intros res.
  { by exists res. }
  cbn [forallb]. rewrite helpOrPositional_cases, parseArgs_cons.
  destruct (HasPrefix arg "--").
  - destruct (String.eqb (TrimPrefix arg "--") "help"); cbn [andb].
    + specialize (IH (setShowHelp res)). destruct (forallb helpOrPositional rest); exact IH.
    + unfold findContextByLong. cbn [defaultToShell Lookup matchLongFlag fst snd].
      change (contexts NewPluginRegistry) with (∅ : gmap Z PluginContext).
      rewrite lookup_empty. cbn [matchLongFlag fst snd].
      rewrite (range_empty range Hrange). by eexists.
  - destruct (HasPrefix arg "-" && (1 <? len arg)).
    + destruct (forallb (fun ch => ch =? 104) (runes (tail1 arg))) eqn:Hh; cbn [andb].
      * destruct (parseCluster_empty_help _ (head rest) res Hh)
          as (res1 & -> & Hp & Hc & Hf).
        cbn [afterCluster advance]. specialize (IH res1).
        rewrite <- Hp, <- Hc, <- Hf. destruct (forallb helpOrPositional rest); exact IH.
      * destruct (parseCluster_empty_other _ (head rest) res Hh) as (e & ->).
        by exists e.
    + cbn [andb]. specialize (IH (appendArg arg res)).
      destruct (forallb helpOrPositional rest); exact IH.
Qed.

(** X16 -- The parse mode of [wsh args] as [main] runs it.  [main] gives
    the subcommand a registry of its own, which is new, so that the command
    line is resolved without any context.  When a map iteration visits every
    entry once: a command line that does not start with [--register] gives
    the exit code 0 exactly when it is not empty and each of its tokens is
    positional, is [--help], or is a dash followed by letters [h] only; and
    a result of [Parse] on a new registry has no context, an empty context
    path and no flags. *)
Theorem wshArgs_parses_without_contexts
    (range : gmap Z PluginContext -> list (Z * PluginContext))
    (rangeFlags : gmap string string -> list (string * string))
    (Getenv : string -> string) (unicode_ToUpper unicode_ToLower : rune -> rune)
    (args : list string) :
  range_visits_all range ->
  (head args <> Some "--register" ->
   ((wshArgs range rangeFlags Getenv unicode_ToUpper unicode_ToLower args).2 = 0 <->
    args <> [] /\ forallb helpOrPositional args = true)) /\
  ((exists result, Parse range NewPluginRegistry args = Ok result) <->
   forallb helpOrPositional args = true) /\
  (forall result, Parse range NewPluginRegistry args = Ok result ->
     ResultContext result = None /\ ContextPath result = [] /\ ResultFlags result = ∅).
Proof.
  intros Hrange.
  pose proof (parseArgs_empty range args emptyResult Hrange) as Hp.
  fold (Parse range NewPluginRegistry args) in Hp.
  assert (Hiff : (exists result, Parse range NewPluginRegistry args = Ok result) <->
                 forallb helpOrPositional args = true).
  { destruct (forallb helpOrPositional args).
    - destruct Hp as (res' & Hres & _). split; [done|]. intros _. by exists res'.
    - destruct Hp as (e & He). split; [|done]. intros [result Hres]. congruence. }
  split; [|split; [exact Hiff|]].
  - intros Hreg. unfold wshArgs, HandleArgs.
    destruct args as [|arg0 rest]; [cbn [snd]; split; [done|by intros []]|].
    destruct (String.eqb arg0 "--register") eqn:E.
    { apply String.eqb_eq in E as ->. by destruct Hreg. }
    rewrite <- Hiff.
    destruct (handleParse_cases range rangeFlags NewPluginRegistry (arg0 :: rest))
      as [(result & lines & Hres & ->)|[Hno ->]]; cbn [snd].
    + split; [|done]. intros _. split; [done|by exists result].
    + split; [done|]. intros [_ [result Hres]]. by destruct (Hno result).
  - intros result Hres. destruct (forallb helpOrPositional args).
    + destruct Hp as (res' & Hres' & Hpath & Hctx & Hflags).
      rewrite Hres in Hres'. by injection Hres' as <-.
    + destruct Hp as (e & He). congruence.
Qed.

(** [wsh args notes.txt -h --help -]. *)
Lemma wshArgs_parses_without_contexts_witness :
  range_visits_all keyOrder /\
  ((wshArgs keyOrder map_to_list loaderEnv noCase noCase
      ["notes.txt"; "-h"; "--help"; "-"]).2 = 0 <->
   ["notes.txt"; "-h"; "--help"; "-"] <> [] /\
   forallb helpOrPositional ["notes.txt"; "-h"; "--help"; "-"] = true).
Proof.
  assert (H : range_visits_all keyOrder) by (by intros m).
  split; [exact H|].
  apply (proj1 (wshArgs_parses_without_contexts keyOrder map_to_list loaderEnv
                  noCase noCase ["notes.txt"; "-h"; "--help"; "-"] H)).
  discriminate.
Defined.

(** ** The argument resolution engine: nothing from outside the registry *)





Section ParseSound.

Variable range : gmap Z PluginContext -> list (Z * PluginContext).
Variable r : PluginRegistry.
Hypothesis Hrange : range_visits_all range.










End ParseSound.


